(** * SmartBazaar: the recommendation-generation request pipeline

    A shallow embedding of [smartmandi_backend/routes/pricingRoutes.js]
    (route [POST /recommend] and [generateFallbackRecommendations]), of
    the demand-forecasting route [POST /predict], and of what the two
    seeding scripts collect from their CSV file.

    JavaScript numbers are IEEE 754 binary64 values; they are modelled by
    Rocq's primitive floats, which are the same format with the same
    correctly rounded operations.  JavaScript strings are held as the
    UTF-8 bytes of their text: [trim] removes the white space of
    ECMAScript, and a length is counted in UTF-16 code units.

    A request is a state ([World.t]) on which the route function and then
    the callbacks of the event loop act, one event at a time; an [await]
    leaves a continuation in the state.  What lies outside the two route
    files is a parameter: the product mapping service, [JSON.parse], the
    clock, and how [spawn] and the store behave.  Console output is not
    modelled. *)

From Stdlib Require Import ZArith Floats String Ascii List Bool Lia DecimalString.
Import ListNotations.

Set Warnings "-inexact-float".

Local Open Scope string_scope.
Local Open Scope float_scope.

(** ** JavaScript numbers *)

Module JsNumber.

(** [ToBoolean] on a number: [0], [-0] and [NaN] are falsy. *)
Definition truthy (x : float) : bool := negb (is_zero x || is_nan x).

(** [v || d] where [v] is a numeric property that may be absent. *)
Definition or_default (v : option float) (d : float) : float :=
  match v with
  | Some x => if truthy x then x else d
  | None => d
  end.

(** The integer [floor (x + 1/2)] as a float; it is below [2^53] in
    magnitude wherever it is used, hence exactly representable. *)
Definition of_Z (r : Z) : float :=
  if (r <? 0)%Z then - (of_uint63 (Uint63.of_Z (- r)))
  else of_uint63 (Uint63.of_Z r).

(** [Math.round]: the integer closest to [x], ties going towards
    [+Infinity]; [NaN], the infinities and the zeros are returned
    unchanged, and a result of zero keeps the sign of [x].  A finite
    float is [(-1)^s * m * 2^e]; with [e >= 0] it is already an integer. *)
Definition Math_round (x : float) : float :=
  match Prim2SF x with
  | S754_finite s m e =>
      if (0 <=? e)%Z then x
      else
        let n := if s then Z.neg m else Z.pos m in
        let r := Z.shiftr (n + 2 ^ (- e - 1)) (- e) in
        if (r =? 0)%Z then (if s then PrimFloat.neg_zero else PrimFloat.zero) else of_Z r
  | _ => x
  end.

End JsNumber.

Import JsNumber.

(** [v || d] on a string property that may be absent: [undefined] and the
    empty string are falsy. *)
Definition or_string (v : option string) (d : string) : string :=
  match v with
  | Some s => if String.eqb s "" then d else s
  | None => d
  end.

(** ** The clock *)

(** One reading of the system clock, as the [Date] object built from it
    shows it: [getTime()] in milliseconds, [getMonth()] in [0..11], and
    [toLocaleDateString('en-US', { weekday: 'long' })]. *)
Module JsDate.
Record t : Type := mk
  { getTime : Z;
    getMonth : Z;
    weekdayLong : string }.
End JsDate.

(** [getCurrentSeason], on the clock reading it takes. *)
Definition getCurrentSeason (now : JsDate.t) : string :=
  let month := (JsDate.getMonth now + 1)%Z in
  if ((3 <=? month) && (month <=? 5))%Z then "Spring"
  else if ((6 <=? month) && (month <=? 8))%Z then "Summer"
  else if ((9 <=? month) && (month <=? 11))%Z then "Autumn"
  else "Winter".

(** ** Data model *)

(** A product as [generateFallbackRecommendations] reads it.  [None] is an
    absent property ([undefined]). *)
Module Product.
Record t : Type := mk
  { product_id : option string;
    product_name : option string;
    category : option string;
    current_price : option float;
    stock_level : option float;
    demand_score : option float;
    days_left : option float;
    weekday : option string;
    season : option string }.

Definition with_current_price (v : option float) (p : t) : t :=
  mk (product_id p) (product_name p) (category p) v (stock_level p)
     (demand_score p) (days_left p) (weekday p) (season p).
Definition with_stock_level (v : option float) (p : t) : t :=
  mk (product_id p) (product_name p) (category p) (current_price p) v
     (demand_score p) (days_left p) (weekday p) (season p).
Definition with_demand_score (v : option float) (p : t) : t :=
  mk (product_id p) (product_name p) (category p) (current_price p)
     (stock_level p) v (days_left p) (weekday p) (season p).
Definition with_days_left (v : option float) (p : t) : t :=
  mk (product_id p) (product_name p) (category p) (current_price p)
     (stock_level p) (demand_score p) v (weekday p) (season p).
End Product.

Module PriceRecommendation.
Record t : Type := mk
  { product_id : option string;
    product_name : option string;
    category : option string;
    current_price : float;
    recommended_price : float;
    price_change_percentage : float;
    demand_score : float;
    stock_level : float;
    days_left : float;
    weekday : string;
    season : string;
    confidence_score : float;
    recommendation_reason : string;
    model_version : string;
    created_at : Z;
    valid_until : Z;
    is_applied : bool }.
End PriceRecommendation.

(** ** The fallback pricing engine *)

(** The running state of the rule chain: [priceMultiplier] and [reason]. *)
Definition RuleState : Type := (float * string)%type.

Definition initialRuleState : RuleState := (1.0, "Current price is optimal").

(** "High demand adjustment" *)
Definition demandAdjustment (demandScore : float) (st : RuleState) : RuleState :=
  let '(priceMultiplier, reason) := st in
  if 70 <? demandScore then
    (priceMultiplier * 1.05, "High demand detected - price increase recommended")
  else if demandScore <? 30 then
    (priceMultiplier * 0.95, "Low demand - price reduction to boost sales")
  else (priceMultiplier, reason).

(** "Stock level adjustment" *)
Definition stockAdjustment (stockLevel : float) (st : RuleState) : RuleState :=
  let '(priceMultiplier, reason) := st in
  if stockLevel <? 50 then
    (priceMultiplier * 1.03, "Low stock levels - price increase to manage demand")
  else if 200 <? stockLevel then
    (priceMultiplier * 0.97, "High inventory levels - price reduction to clear stock")
  else (priceMultiplier, reason).

(** "Expiry adjustment" *)
Definition expiryAdjustment (daysLeft : float) (st : RuleState) : RuleState :=
  let '(priceMultiplier, reason) := st in
  if daysLeft <=? 2 then
    (priceMultiplier * 0.80, "Product nearing expiry - urgent price reduction")
  else if daysLeft <=? 5 then
    (priceMultiplier * 0.90, "Product nearing expiry - price reduction to clear stock")
  else (priceMultiplier, reason).

(** The three adjustments in the order the source applies them. *)
Definition priceRules (demandScore stockLevel daysLeft : float) : RuleState :=
  expiryAdjustment daysLeft
    (stockAdjustment stockLevel
       (demandAdjustment demandScore initialRuleState)).

(** The callback of [products.map] in [generateFallbackRecommendations]:
    one recommendation from one product.  [now] is the clock reading of the
    call ([new Date()], [Date.now()]). *)
Definition fallbackRecommendation (now : JsDate.t) (product : Product.t)
  : PriceRecommendation.t :=
  let currentPrice := or_default (Product.current_price product) 25.0 in
  let stockLevel := or_default (Product.stock_level product) 100 in
  let demandScore := or_default (Product.demand_score product) 50 in
  let daysLeft := or_default (Product.days_left product) 7 in
  let '(priceMultiplier, reason) := priceRules demandScore stockLevel daysLeft in
  let recommendedPrice := currentPrice * priceMultiplier in
  let priceChange := (recommendedPrice - currentPrice) / currentPrice * 100 in
  {| PriceRecommendation.product_id := Product.product_id product;
     PriceRecommendation.product_name := Product.product_name product;
     PriceRecommendation.category := Product.category product;
     PriceRecommendation.current_price := currentPrice;
     PriceRecommendation.recommended_price := Math_round (recommendedPrice * 100) / 100;
     PriceRecommendation.price_change_percentage := Math_round (priceChange * 100) / 100;
     PriceRecommendation.demand_score := demandScore;
     PriceRecommendation.stock_level := stockLevel;
     PriceRecommendation.days_left := daysLeft;
     PriceRecommendation.weekday :=
       or_string (Product.weekday product) (JsDate.weekdayLong now);
     PriceRecommendation.season :=
       or_string (Product.season product) (getCurrentSeason now);
     PriceRecommendation.confidence_score := 0.75;
     PriceRecommendation.recommendation_reason := reason;
     PriceRecommendation.model_version := "fallback-1.0";
     PriceRecommendation.created_at := JsDate.getTime now;
     PriceRecommendation.valid_until :=
       (JsDate.getTime now + 24 * 60 * 60 * 1000)%Z;
     PriceRecommendation.is_applied := false |}.

Definition scenarioProduct (p : Product.t) : Product.t :=
  Product.with_current_price (Some 40)
    (Product.with_stock_level (Some 30)
       (Product.with_demand_score (Some 80)
          (Product.with_days_left (Some 1) p))).


(** ** Text helpers *)

(** [`${n}`] for an array length. *)
Definition text_of_nat (n : nat) : string :=
  NilZero.string_of_uint (Nat.to_uint n).

(** [`${code}`] for an exit code; [None] is [null] (the process was killed
    by a signal). *)
Definition text_of_code (code : option Z) : string :=
  match code with
  | Some c => NilZero.string_of_int (Z.to_int c)
  | None => "null"
  end.

(** A JavaScript string is held as the UTF-8 bytes of its text.  The
    strings of the program are decoded text ([data.toString()], the body
    parser, [csv-parser]), hence well formed: a byte below 128 is a
    character of its own, a byte from 192 on starts a character, and the
    bytes from 128 to 191 continue one. *)

(** What [String.prototype.trim] removes is the [WhiteSpace] and the
    [LineTerminator] of ECMAScript.  Those of one byte: TAB, LF, VT, FF, CR
    and SPACE. *)
Definition whiteSpace1 (c : ascii) : bool :=
  let n := N_of_ascii c in
  ((9 <=? n) && (n <=? 13) || (n =? 32))%N.

(** Of two bytes: U+00A0 NO-BREAK SPACE ([C2 A0]). *)
Definition whiteSpace2 (c1 c2 : ascii) : bool :=
  ((N_of_ascii c1 =? 194) && (N_of_ascii c2 =? 160))%N.

(** Of three bytes: U+1680 ([E1 9A 80]); U+2000 to U+200A, the separators
    U+2028 and U+2029, and U+202F ([E2 80 80] to [E2 80 8A], [E2 80 A8],
    [E2 80 A9], [E2 80 AF]); U+205F ([E2 81 9F]); U+3000 ([E3 80 80]); and
    U+FEFF, the byte order mark ([EF BB BF]).  No white space takes four
    bytes. *)
Definition whiteSpace3 (c1 c2 c3 : ascii) : bool :=
  let n1 := N_of_ascii c1 in
  let n2 := N_of_ascii c2 in
  let n3 := N_of_ascii c3 in
  ((n1 =? 225) && (n2 =? 154) && (n3 =? 128)
   || (n1 =? 226) && (n2 =? 128)
      && ((128 <=? n3) && (n3 <=? 138) || (n3 =? 168) || (n3 =? 169) || (n3 =? 175))
   || (n1 =? 226) && (n2 =? 129) && (n3 =? 159)
   || (n1 =? 227) && (n2 =? 128) && (n3 =? 128)
   || (n1 =? 239) && (n2 =? 187) && (n3 =? 191))%N.

(** [s.trimStart()] *)
Fixpoint trimStart (s : list ascii) : list ascii :=
  match s with
  | c1 :: r1 =>
      if whiteSpace1 c1 then trimStart r1
      else
        match r1 with
        | c2 :: r2 =>
            if whiteSpace2 c1 c2 then trimStart r2
            else
              match r2 with
              | c3 :: r3 => if whiteSpace3 c1 c2 c3 then trimStart r3 else s
              | [] => s
              end
        | [] => s
        end
  | [] => []
  end.

(** [s.trimEnd()], on the text read backwards: the last byte comes first. *)
Fixpoint trimEndReversed (r : list ascii) : list ascii :=
  match r with
  | c1 :: r1 =>
      if whiteSpace1 c1 then trimEndReversed r1
      else
        match r1 with
        | c2 :: r2 =>
            if whiteSpace2 c2 c1 then trimEndReversed r2
            else
              match r2 with
              | c3 :: r3 =>
                  if whiteSpace3 c3 c2 c1 then trimEndReversed r3 else r
              | [] => r
              end
        | [] => r
        end
  | [] => []
  end.

Definition trimEnd (s : list ascii) : list ascii :=
  rev (trimEndReversed (rev s)).

(** [s.trim()] *)
Definition trim (s : list ascii) : list ascii :=
  trimEnd (trimStart s).

(** [s.length]: the number of UTF-16 code units.  A character takes one
    unit, and two when it lies beyond U+FFFF, which is when its first byte
    is 240 or more; a continuation byte starts no character. *)
Definition codeUnits (c : ascii) : nat :=
  let n := N_of_ascii c in
  if (n <? 128)%N then 1
  else if (n <? 192)%N then 0
  else if (n <? 240)%N then 1
  else 2.

Definition length_utf16 (s : string) : nat :=
  fold_right (fun c n => (codeUnits c + n)%nat) 0%nat (list_ascii_of_string s).

(** [split('\n')]: never empty, the pieces between line feeds. *)
Fixpoint splitLines (s : list ascii) : list (list ascii) :=
  match s with
  | [] => [[]]
  | c :: r =>
      if Ascii.eqb c "010"%char then [] :: splitLines r
      else match splitLines r with
           | l :: ls => (c :: l) :: ls
           | [] => [[c]]
           end
  end.

(** [const lines = outputData.trim().split('\n');
     const lastLine = lines[lines.length - 1];] *)
Definition lastLine (outputData : string) : string :=
  string_of_list_ascii
    (last (splitLines (trim (list_ascii_of_string outputData))) []).

(** ** Values at the boundary of a request *)

(** [req.body.products] as the JSON body parser delivers it. *)
Inductive JsValue : Type :=
| JsUndefined
| JsNull
| JsBoolean (b : bool)
| JsNumber (x : float)
| JsString (s : string)
| JsObject
| JsArray (items : list Product.t).

Definition toBoolean (v : JsValue) : bool :=
  match v with
  | JsUndefined | JsNull => false
  | JsBoolean b => b
  | JsNumber x => truthy x
  | JsString s => negb (String.eqb s "")
  | JsObject | JsArray _ => true
  end.

Definition isArray (v : JsValue) : bool :=
  match v with JsArray _ => true | _ => false end.

Definition arrayItems (v : JsValue) : list Product.t :=
  match v with JsArray items => items | _ => [] end.

(** [!products || !Array.isArray(products) || products.length === 0] *)
Definition productsMissing (products : JsValue) : bool :=
  negb (toBoolean products) || negb (isArray products)
  || (List.length (arrayItems products) =? 0)%nat.

(** How an awaited promise settles. *)
Inductive Settled (A : Type) : Type :=
| Resolved (value : A)
| Rejected (message : string).
Arguments Resolved {A} value.
Arguments Rejected {A} message.

(** One call of [productMappingService.mapProductInputs]: how its promise
    settles and after how many milliseconds. *)
Record MappingRun : Type :=
  { settles : Settled (list Product.t);
    after_ms : Z }.

(** What [spawn] and the write to the child's [stdin] do synchronously. *)
Inductive SpawnResult : Type :=
| Spawned
| SpawnThrows (message : string).

(** One started predictor process: the operation selector given on the
    command line and the document written to its input stream. *)
Record Invocation : Type :=
  { operation : string;
    input_products : list Product.t;
    forecast_days : option float;
    cities : option (list string) }.

(** A forecast entry of the predictor's payload, and the document stored
    from it. *)
Inductive DateField : Type :=
| DateText (s : string)
| DateObject (s : string).

Module DemandForecast.
Record t : Type := mk
  { product_id : option string;
    product_name : option string;
    category : option string;
    city : option string;
    forecast_date : DateField;
    predicted_units : option float;
    day_of_week : option string;
    confidence_score : option float }.
End DemandForecast.

Set Implicit Arguments.

(** The object [JSON.parse(lastLine)] yields, as the handlers read it:
    [success] is the truthiness of [prediction.success], [items] is
    [prediction.recommendations] or [prediction.predictions] (empty when
    absent), [total] is the text a template literal prints for the total
    count, [error] is [prediction.error]. *)
Module Prediction.
Record t (Doc : Type) : Type := mk
  { success : bool;
    items : list Doc;
    total : string;
    error : option string }.
End Prediction.

Inductive Data (Doc : Type) : Type :=
| PredictionData (prediction : Prediction.t Doc)
| FallbackData (recommendations : list Doc) (total_recommendations : nat).

Record Debug : Type :=
  { debug_dataReceived : bool;
    outputLength : nat;
    errorLength : nat }.

(** The JSON document of a response. *)
Module Body.
Record t (Doc : Type) : Type := mk
  { success : bool;
    error : option string;
    message : option string;
    note : option string;
    data : option (Data Doc);
    raw_output : option string;
    debug : option Debug }.
End Body.

Module Response.
Record t (Doc : Type) : Type := mk
  { status : Z;
    body : Body.t Doc }.
End Response.

(** The response object [res].  [json] throws once the headers are sent. *)
Module Res.
Record t (Doc : Type) : Type := mk
  { headersSent : bool;
    statusCode : Z;
    sent : list (Response.t Doc) }.

Definition fresh (Doc : Type) : t Doc := mk false 200 [].

Definition status (Doc : Type) (code : Z) (r : t Doc) : t Doc :=
  mk (headersSent r) code (sent r).

Definition json (Doc : Type) (b : Body.t Doc) (r : t Doc) : option (t Doc) :=
  if headersSent r then None
  else Some (mk true (statusCode r)
               (sent r ++ [ Response.mk (statusCode r) b ])).
End Res.

(** The state of one request: the variables its handlers close over, the
    response object, the store, and the continuations (of type [K]) that
    wait for an [insertMany] to settle. *)
Module World.
Record t (Doc K : Type) : Type := mk
  { now : JsDate.t;
    products : list Product.t;
    mappingCalls : nat;
    spawned : list Invocation;
    listening : bool;
    outputData : string;
    errorData : string;
    dataReceived : bool;
    responseTimeout : bool;
    timerArmed : bool;
    killed : option string;
    res : Res.t Doc;
    inserted : list (list Doc);
    pending : list K;
    unhandledRejections : nat }.
End World.

Unset Implicit Arguments.
Arguments Res.fresh {Doc}.
Arguments Res.status {Doc} code r.
Arguments Res.json {Doc} b r.
Arguments PredictionData {Doc} prediction.
Arguments FallbackData {Doc} recommendations total_recommendations.

Import World.

Section Primitives.
Context {Doc K : Type}.
Implicit Type w : World.t Doc K.

Definition init (clock : JsDate.t) : World.t Doc K :=
  World.mk clock [] 0 [] false "" "" false false false None Res.fresh [] [] 0.

Definition set_now (clock : JsDate.t) w : World.t Doc K :=
  World.mk clock (products w) (mappingCalls w) (spawned w) (listening w)
    (outputData w) (errorData w) (dataReceived w) (responseTimeout w)
    (timerArmed w) (killed w) (res w) (inserted w) (pending w)
    (unhandledRejections w).

Definition set_products (ps : list Product.t) w : World.t Doc K :=
  World.mk (now w) ps (mappingCalls w) (spawned w) (listening w)
    (outputData w) (errorData w) (dataReceived w) (responseTimeout w)
    (timerArmed w) (killed w) (res w) (inserted w) (pending w)
    (unhandledRejections w).

Definition countMapping w : World.t Doc K :=
  World.mk (now w) (products w) (S (mappingCalls w)) (spawned w) (listening w)
    (outputData w) (errorData w) (dataReceived w) (responseTimeout w)
    (timerArmed w) (killed w) (res w) (inserted w) (pending w)
    (unhandledRejections w).

(** [spawn(...)], the write to [stdin], the stream and process listeners,
    and [setTimeout]. *)
Definition start (i : Invocation) w : World.t Doc K :=
  World.mk (now w) (products w) (mappingCalls w) (spawned w ++ [i]) true
    (outputData w) (errorData w) (dataReceived w) (responseTimeout w)
    true (killed w) (res w) (inserted w) (pending w)
    (unhandledRejections w).

Definition appendOutput (chunk : string) w : World.t Doc K :=
  World.mk (now w) (products w) (mappingCalls w) (spawned w) (listening w)
    (outputData w ++ chunk) (errorData w) true (responseTimeout w)
    (timerArmed w) (killed w) (res w) (inserted w) (pending w)
    (unhandledRejections w).

Definition appendError (chunk : string) w : World.t Doc K :=
  World.mk (now w) (products w) (mappingCalls w) (spawned w) (listening w)
    (outputData w) (errorData w ++ chunk) (dataReceived w) (responseTimeout w)
    (timerArmed w) (killed w) (res w) (inserted w) (pending w)
    (unhandledRejections w).

(** [clearTimeout(timeoutHandle)]; also the state of a timer that has
    fired. *)
Definition clearTimeout w : World.t Doc K :=
  World.mk (now w) (products w) (mappingCalls w) (spawned w) (listening w)
    (outputData w) (errorData w) (dataReceived w) (responseTimeout w)
    false (killed w) (res w) (inserted w) (pending w)
    (unhandledRejections w).

(** [responseTimeout = true; pythonProcess.kill(signal);] *)
Definition timeoutAndKill (signal : string) w : World.t Doc K :=
  World.mk (now w) (products w) (mappingCalls w) (spawned w) (listening w)
    (outputData w) (errorData w) (dataReceived w) true
    (timerArmed w) (Some signal) (res w) (inserted w) (pending w)
    (unhandledRejections w).

Definition set_res (r : Res.t Doc) w : World.t Doc K :=
  World.mk (now w) (products w) (mappingCalls w) (spawned w) (listening w)
    (outputData w) (errorData w) (dataReceived w) (responseTimeout w)
    (timerArmed w) (killed w) r (inserted w) (pending w)
    (unhandledRejections w).

(** A successful [insertMany(docs)]. *)
Definition insertMany (docs : list Doc) w : World.t Doc K :=
  World.mk (now w) (products w) (mappingCalls w) (spawned w) (listening w)
    (outputData w) (errorData w) (dataReceived w) (responseTimeout w)
    (timerArmed w) (killed w) (res w) (inserted w ++ [docs]) (pending w)
    (unhandledRejections w).

Definition set_pending (ks : list K) w : World.t Doc K :=
  World.mk (now w) (products w) (mappingCalls w) (spawned w) (listening w)
    (outputData w) (errorData w) (dataReceived w) (responseTimeout w)
    (timerArmed w) (killed w) (res w) (inserted w) ks
    (unhandledRejections w).

(** [await Model.insertMany(...)]: the rest of the function waits. *)
Definition await (k : K) w : World.t Doc K :=
  set_pending (pending w ++ [k]) w.

(** An exception that leaves an async function: a rejected promise that
    nothing handles. *)
Definition reject w : World.t Doc K :=
  World.mk (now w) (products w) (mappingCalls w) (spawned w) (listening w)
    (outputData w) (errorData w) (dataReceived w) (responseTimeout w)
    (timerArmed w) (killed w) (res w) (inserted w) (pending w)
    (S (unhandledRejections w)).

(** [res.status(code).json(body)] where a second failure is not caught. *)
Definition respond (code : Z) (b : Body.t Doc) w : World.t Doc K :=
  match Res.json b (Res.status code (res w)) with
  | Some r => set_res r w
  | None => reject (set_res (Res.status code (res w)) w)
  end.

Definition errorBody (error : string) (message : option string) : Body.t Doc :=
  Body.mk false (Some error) message None None None None.

(** The guard of the [close] and [error] handlers. *)
Definition alreadyAnswered w : bool :=
  responseTimeout w || Res.headersSent (res w).

(** [code !== 0] *)
Definition nonZero (code : option Z) : bool :=
  match code with
  | Some c => negb (c =? 0)%Z
  | None => true
  end.
End Primitives.

(** What happens to a request after its route function has returned: the
    clock moves; the child writes to [stdout] or [stderr]; the callback of
    [setTimeout] is due (it runs only while the timer is armed); the child
    process emits [close] with its exit code ([None] is [null]) or
    [error]; the oldest pending [insertMany] settles, resolved when [ok]
    and rejected otherwise. *)
Inductive Event : Type :=
| Tick (clock : JsDate.t)
| StdoutData (chunk : string)
| StderrData (chunk : string)
| TimerFires
| Close (code : option Z)
| ProcessError (message : string)
| InsertSettles (ok : bool).

(** ** Route [POST /recommend] (pricing) *)

Module Pricing.
Section Route.
Variable mapProductInputs : list Product.t -> MappingRun.
Variable JSON_parse : string -> Settled (Prediction.t PriceRecommendation.t).

(** What runs when a pending [insertMany] settles. *)
Inductive Pending : Type :=
| InsertThenFallback (recommendations : list PriceRecommendation.t)
| InsertThenPrediction (prediction : Prediction.t PriceRecommendation.t).

Definition World : Type := World.t PriceRecommendation.t Pending.

(** "Add current date context to products" *)
Definition enrich (clock : JsDate.t) (product : Product.t) : Product.t :=
  Product.mk (Product.product_id product) (Product.product_name product)
    (Product.category product) (Product.current_price product)
    (Product.stock_level product) (Product.demand_score product)
    (Product.days_left product)
    (Some (or_string (Product.weekday product) (JsDate.weekdayLong clock)))
    (Some (or_string (Product.season product) (getCurrentSeason clock))).

Definition fallbackBody (recommendations : list PriceRecommendation.t)
  : Body.t PriceRecommendation.t :=
  Body.mk true None
    (Some ("Generated " ++ text_of_nat (List.length recommendations)
           ++ " price recommendations using fallback logic"))
    (Some "Generated using fallback pricing algorithm")
    (Some (FallbackData recommendations (List.length recommendations)))
    None None.

Definition predictionBody (prediction : Prediction.t PriceRecommendation.t)
  : Body.t PriceRecommendation.t :=
  Body.mk true None
    (Some ("Generated " ++ Prediction.total prediction ++ " price recommendations"))
    None (Some (PredictionData prediction)) None None.

(** [generateFallbackRecommendations(products, res)] up to its [await]. *)
Definition generateFallbackRecommendations (products : list Product.t)
    (w : World) : World :=
  let recommendations := map (fallbackRecommendation (now w)) products in
  await (InsertThenFallback recommendations) w.

(** ... and from there on: [res.json], and the [catch] whose own
    [res.status(500).json] fails the same way. *)
Definition fallbackRespond (recommendations : list PriceRecommendation.t)
    (w : World) : World :=
  match Res.json (fallbackBody recommendations) (res w) with
  | Some r => set_res r w
  | None => reject (set_res (Res.status 500 (res w)) w)
  end.

(** [res.json({ success: true, data: prediction, ... })] in the [close]
    handler; its [catch (parseError)] falls back. *)
Definition respondPrediction (prediction : Prediction.t PriceRecommendation.t)
    (w : World) : World :=
  match Res.json (predictionBody prediction) (res w) with
  | Some r => set_res r w
  | None => generateFallbackRecommendations (products w) w
  end.

Definition onTimeout (w : World) : World :=
  let w := timeoutAndKill "SIGTERM" w in
  if negb (Res.headersSent (res w))
  then generateFallbackRecommendations (products w) w
  else w.

Definition onClose (code : option Z) (w : World) : World :=
  let w := clearTimeout w in
  if alreadyAnswered w then w
  else if nonZero code then generateFallbackRecommendations (products w) w
  else
    match JSON_parse (lastLine (outputData w)) with
    | Rejected _ => generateFallbackRecommendations (products w) w
    | Resolved prediction =>
        if negb (Prediction.success prediction)
        then generateFallbackRecommendations (products w) w
        else
          match Prediction.items prediction with
          | _ :: _ => await (InsertThenPrediction prediction) w
          | [] => respondPrediction prediction w
          end
    end.

Definition onError (w : World) : World :=
  let w := clearTimeout w in
  if alreadyAnswered w then w
  else generateFallbackRecommendations (products w) w.

Definition resume (k : Pending) (ok : bool)
    (w : World) : World :=
  match k with
  | InsertThenFallback recommendations =>
      fallbackRespond recommendations
        (if ok then insertMany recommendations w else w)
  | InsertThenPrediction prediction =>
      respondPrediction prediction
        (if ok then insertMany (Prediction.items prediction) w else w)
  end.

Definition step (ev : Event) (w : World) : World :=
  match ev with
  | Tick clock => set_now clock w
  | StdoutData chunk => if listening w then appendOutput chunk w else w
  | StderrData chunk => if listening w then appendError chunk w else w
  | TimerFires => if timerArmed w then onTimeout (clearTimeout w) else w
  | Close code => if listening w then onClose code w else w
  | ProcessError _ => if listening w then onError w else w
  | InsertSettles ok =>
      match pending w with
      | k :: ks => resume k ok (set_pending ks w)
      | [] => w
      end
  end.

Definition run (evs : list Event) (w : World) : World :=
  fold_left (fun w ev => step ev w) evs w.

(** The handler of [router.post('/recommend')] up to the point where it
    returns to the event loop. *)
Definition recommend (clock : JsDate.t) (products : JsValue)
    (spawn : SpawnResult) : World :=
  let w := init clock in
  if productsMissing products
  then respond 400 (errorBody "Products array is required" None) w
  else
    let w := countMapping w in
    match settles (mapProductInputs (arrayItems products)) with
    | Rejected message =>
        respond 500
          (errorBody "Failed to generate price recommendations" (Some message)) w
    | Resolved [] =>
        respond 400 (errorBody "No valid products found after mapping" None) w
    | Resolved mappedProducts =>
        let enrichedProducts := map (enrich clock) mappedProducts in
        let w := set_products enrichedProducts w in
        match spawn with
        | SpawnThrows _ => generateFallbackRecommendations enrichedProducts w
        | Spawned =>
            start {| operation := "predict_pricing";
                     input_products := enrichedProducts;
                     forecast_days := None;
                     cities := None |} w
        end
    end.
End Route.
End Pricing.

(** ** Route [POST /predict] (demand forecasting) *)

Module Demand.
Section Route.
Variable mapProductInputs : list Product.t -> MappingRun.
Variable JSON_parse : string -> Settled (Prediction.t DemandForecast.t).

Definition World : Type :=
  World.t DemandForecast.t (Prediction.t DemandForecast.t).

(** [Promise.race] of the mapping against a 5000 ms timer.  The mapping is
    started before the timer is set: a mapping that settles when the timer
    is due settles first and wins; the timer wins only against a mapping
    that takes longer. *)
Definition raceMapping (r : MappingRun) : Settled (list Product.t) :=
  if (after_ms r <=? 5000)%Z then settles r
  else Rejected "Product mapping timeout".

Definition predictionBody (prediction : Prediction.t DemandForecast.t)
  : Body.t DemandForecast.t :=
  Body.mk true None
    (Some ("Generated " ++ Prediction.total prediction ++ " demand forecasts"))
    None (Some (PredictionData prediction)) None None.

Definition timeoutBody (w : World) : Body.t DemandForecast.t :=
  Body.mk false (Some "Model prediction timeout")
    (Some "Python script execution exceeded time limit (60000ms)")
    None None None
    (Some {| debug_dataReceived := dataReceived w;
             outputLength := length_utf16 (outputData w);
             errorLength := length_utf16 (errorData w) |}).

Definition parseErrorBody (message : string) (w : World)
  : Body.t DemandForecast.t :=
  Body.mk false (Some "Failed to parse model response") (Some message)
    None None (Some (outputData w)) None.

(** [{ ...pred, forecast_date: new Date(pred.forecast_date) }] *)
Definition processPrediction (pred : DemandForecast.t) : DemandForecast.t :=
  DemandForecast.mk (DemandForecast.product_id pred)
    (DemandForecast.product_name pred) (DemandForecast.category pred)
    (DemandForecast.city pred)
    (match DemandForecast.forecast_date pred with
     | DateText s | DateObject s => DateObject s
     end)
    (DemandForecast.predicted_units pred) (DemandForecast.day_of_week pred)
    (DemandForecast.confidence_score pred).

(** [res.json({ success: true, data: prediction, ... })]; the
    [catch (parseError)] around it answers 500, which fails the same way. *)
Definition respondPrediction (prediction : Prediction.t DemandForecast.t)
    (w : World) : World :=
  match Res.json (predictionBody prediction) (res w) with
  | Some r => set_res r w
  | None => reject (set_res (Res.status 500 (res w)) w)
  end.

Definition onTimeout (w : World) : World :=
  let w := timeoutAndKill "SIGKILL" w in
  if negb (Res.headersSent (res w))
  then respond 500 (timeoutBody w) w
  else w.

Definition onClose (code : option Z) (w : World) : World :=
  let w := clearTimeout w in
  if alreadyAnswered w then w
  else if nonZero code then
    respond 500
      (errorBody "Model prediction failed"
         (Some ("Python script exited with code " ++ text_of_code code
                ++ ": " ++ errorData w))) w
  else
    match JSON_parse (lastLine (outputData w)) with
    | Rejected message => respond 500 (parseErrorBody message w) w
    | Resolved prediction =>
        if negb (Prediction.success prediction)
        then respond 500
               (errorBody "Model prediction failed" (Prediction.error prediction)) w
        else
          match Prediction.items prediction with
          | _ :: _ => await prediction w
          | [] => respondPrediction prediction w
          end
    end.

Definition onError (message : string) (w : World) : World :=
  let w := clearTimeout w in
  if alreadyAnswered w then w
  else respond 500 (errorBody "Failed to start Python process" (Some message)) w.

Definition resume (prediction : Prediction.t DemandForecast.t) (ok : bool)
    (w : World) : World :=
  respondPrediction prediction
    (if ok
     then insertMany (map processPrediction (Prediction.items prediction)) w
     else w).

Definition step (ev : Event) (w : World) : World :=
  match ev with
  | Tick clock => set_now clock w
  | StdoutData chunk => if listening w then appendOutput chunk w else w
  | StderrData chunk => if listening w then appendError chunk w else w
  | TimerFires => if timerArmed w then onTimeout (clearTimeout w) else w
  | Close code => if listening w then onClose code w else w
  | ProcessError message => if listening w then onError message w else w
  | InsertSettles ok =>
      match pending w with
      | k :: ks => resume k ok (set_pending ks w)
      | [] => w
      end
  end.

Definition run (evs : list Event) (w : World) : World :=
  fold_left (fun w ev => step ev w) evs w.

(** The handler of [router.post('/predict')] up to the point where it
    returns to the event loop.  [days] and [targets] are the request's
    [forecast_days] and [cities]. *)
Definition predict (clock : JsDate.t) (products : JsValue)
    (days : option float) (targets : option (list string))
    (spawn : SpawnResult) : World :=
  let w := init clock in
  if productsMissing products
  then respond 400 (errorBody "Products array is required" None) w
  else
    let w := countMapping w in
    match raceMapping (mapProductInputs (arrayItems products)) with
    | Rejected message =>
        respond 400 (errorBody "Product mapping failed" (Some message)) w
    | Resolved [] =>
        respond 400 (errorBody "No valid products found after mapping" None) w
    | Resolved mappedProducts =>
        let w := set_products mappedProducts w in
        match spawn with
        | SpawnThrows message =>
            respond 500
              (errorBody "Failed to execute Python script" (Some message)) w
        | Spawned =>
            start {| operation := "predict_demand";
                     input_products := mappedProducts;
                     forecast_days :=
                       Some (match days with Some d => d | None => 7 end);
                     cities := targets |} w
        end
    end.
End Route.
End Demand.

(** ** The seeding scripts *)

(** [s.trim()] on a string. *)
Definition trimText (s : string) : string :=
  string_of_list_ascii (trim (list_ascii_of_string s)).

(** A row as [csv-parser] hands it to the [data] listener: one text per
    column of the file, [None] where the file has no such column. *)
Module Row.
Record t : Type := mk
  { product_id : option string;
    product : option string;
    category : option string;
    city : option string }.
End Row.

Module SeedProduct.
Record t : Type := mk
  { product_id : string;
    product_name : option string;
    category : option string }.
End SeedProduct.

Module SeedCity.
Record t : Type := mk
  { name : string;
    is_active : bool }.
End SeedCity.

(** [seed.js] *)
Module SeedProducts.

(** [productMap], a [Map] in insertion order. *)
Definition ProductMap : Type := list (string * SeedProduct.t).

Definition has (id : string) (productMap : ProductMap) : bool :=
  existsb (fun entry => String.eqb (fst entry) id) productMap.

Definition set (id : string) (value : SeedProduct.t) (productMap : ProductMap)
  : ProductMap :=
  if has id productMap
  then map (fun entry => if String.eqb (fst entry) id then (id, value) else entry)
         productMap
  else (productMap ++ [(id, value)])%list.

Definition values (productMap : ProductMap) : list SeedProduct.t :=
  map snd productMap.

Definition document (id : string) (row : Row.t) : SeedProduct.t :=
  {| SeedProduct.product_id := id;
     SeedProduct.product_name := option_map trimText (Row.product row);
     SeedProduct.category := option_map trimText (Row.category row) |}.

(** The [data] listener. *)
Definition onData (productMap : ProductMap) (row : Row.t) : ProductMap :=
  match option_map trimText (Row.product_id row) with
  | Some id =>
      if negb (String.eqb id "") && negb (has id productMap)
      then set id (document id row) productMap
      else productMap
  | None => productMap
  end.

(** The array that [seedProducts] passes to [insertMany]. *)
Definition products (rows : list Row.t) : list SeedProduct.t :=
  values (fold_left onData rows []).
End SeedProducts.

(** The city seeding script ([seedCities]) *)
Module SeedCities.

(** [citySet.add(city)] on a [Set] in insertion order. *)
Definition add (city : string) (citySet : list string) : list string :=
  if existsb (String.eqb city) citySet then citySet
  else (citySet ++ [city])%list.

Definition onData (citySet : list string) (row : Row.t) : list string :=
  match option_map trimText (Row.city row) with
  | Some city => if String.eqb city "" then citySet else add city citySet
  | None => citySet
  end.

(** The array that [seedCities] upserts. *)
Definition cities (rows : list Row.t) : list SeedCity.t :=
  map (fun cityName => {| SeedCity.name := cityName; SeedCity.is_active := true |})
    (fold_left onData rows []).
End SeedCities.

(** * Vocabulary of the statements *)

(** ** Inputs used in examples *)

Definition noProduct : Product.t :=
  Product.mk None None None None None None None None None.

Definition newYear : JsDate.t := JsDate.mk 0 0 "Thursday".
Definition nextDay : JsDate.t := JsDate.mk 86400000 0 "Friday".

(** The numbers that [||] replaces by its right operand. *)
Definition falsyNumbers : list float := [0; -0; nan].

(** ** States and traces *)

(** A request that has answered and has nothing in flight: no listener, no
    timer, no continuation.  Later events can only move its clock. *)
Definition settledLike {Doc K : Type} (w0 w : World.t Doc K) : Prop :=
  listening w = false /\ timerArmed w = false /\ pending w = []
  /\ res w = res w0 /\ spawned w = spawned w0
  /\ mappingCalls w = mappingCalls w0 /\ inserted w = inserted w0.

Definition neverMaps : list Product.t -> MappingRun :=
  fun _ => {| settles := Rejected "catalog unreachable"; after_ms := 10 |}.

Definition neverParses {Doc : Type} : string -> Settled (Prediction.t Doc) :=
  fun _ => Rejected "Unexpected end of JSON input".

Definition serverError {Doc : Type} (r : Response.t Doc) : bool :=
  (500 <=? Response.status r)%Z && (Response.status r <? 600)%Z.

(** Events that only move the clock or deliver stream data. *)
Definition chatter (ev : Event) : bool :=
  match ev with
  | Tick _ | StdoutData _ | StderrData _ => true
  | _ => false
  end.

Fixpoint clockAfter (clock : JsDate.t) (evs : list Event) : JsDate.t :=
  match evs with
  | Tick c :: r => clockAfter c r
  | _ :: r => clockAfter clock r
  | [] => clock
  end.

Fixpoint outputAfter (out : string) (evs : list Event) : string :=
  match evs with
  | StdoutData c :: r => outputAfter (out ++ c) r
  | _ :: r => outputAfter out r
  | [] => out
  end.

Fixpoint errorAfter (err : string) (evs : list Event) : string :=
  match evs with
  | StderrData c :: r => errorAfter (err ++ c) r
  | _ :: r => errorAfter err r
  | [] => err
  end.

Fixpoint receivedAfter (b : bool) (evs : list Event) : bool :=
  match evs with
  | StdoutData _ :: r => receivedAfter true r
  | _ :: r => receivedAfter b r
  | [] => b
  end.

Definition afterChatter {Doc K : Type} (evs : list Event) (w : World.t Doc K)
  : World.t Doc K :=
  World.mk (clockAfter (now w) evs) (products w) (mappingCalls w) (spawned w)
    (listening w) (outputAfter (outputData w) evs) (errorAfter (errorData w) evs)
    (receivedAfter (dataReceived w) evs) (responseTimeout w) (timerArmed w)
    (killed w) (res w) (inserted w) (pending w) (unhandledRejections w).

(** The ways an invocation of the predictor ends other than in clean
    success, as the events a request sees after it has started the process
    ([Spawned]) or failed to ([SpawnThrows]). *)
Inductive NotCleanSuccess {Doc : Type} (parse : string -> Settled (Prediction.t Doc))
  : SpawnResult -> list Event -> Prop :=
| start_throws message :
    NotCleanSuccess parse (SpawnThrows message) []
| start_fails before message :
    forallb chatter before = true ->
    NotCleanSuccess parse Spawned (before ++ [ProcessError message])
| deadline_expires before :
    forallb chatter before = true ->
    NotCleanSuccess parse Spawned (before ++ [TimerFires])
| nonzero_exit before code :
    forallb chatter before = true ->
    nonZero code = true ->
    NotCleanSuccess parse Spawned (before ++ [Close code])
| unparseable_output before message :
    forallb chatter before = true ->
    parse (lastLine (outputAfter "" before)) = Rejected message ->
    NotCleanSuccess parse Spawned (before ++ [Close (Some 0%Z)])
| embedded_failure before prediction :
    forallb chatter before = true ->
    parse (lastLine (outputAfter "" before)) = Resolved prediction ->
    Prediction.success prediction = false ->
    NotCleanSuccess parse Spawned (before ++ [Close (Some 0%Z)]).

Definition isFallback (r : PriceRecommendation.t) : Prop :=
  PriceRecommendation.model_version r = "fallback-1.0"
  /\ PriceRecommendation.confidence_score r = 0.75.

Definition mapsAll : list Product.t -> MappingRun :=
  fun ps => {| settles := Resolved ps; after_ms := 3 |}.

(** A mapping service that resolves, one millisecond after the deadline of
    the demand route. *)
Definition mapsLate : list Product.t -> MappingRun :=
  fun ps => {| settles := Resolved ps; after_ms := 5001 |}.

(** A request that has answered and has neither timer nor continuation
    left: its response and its store do not change any more. *)
Definition answeredLike {Doc K : Type} (w0 w : World.t Doc K) : Prop :=
  Res.headersSent (res w) = true /\ timerArmed w = false /\ pending w = []
  /\ res w = res w0 /\ inserted w = inserted w0.

(** A payload from which the demand route stores forecasts: the parse of a
    last output line, with a truthy [success]. *)
Definition successfulPayload (parse : string -> Settled (Prediction.t DemandForecast.t))
    (prediction : Prediction.t DemandForecast.t) : Prop :=
  (exists output, parse (lastLine output) = Resolved prediction)
  /\ Prediction.success prediction = true.

Definition storedFromSuccess (parse : string -> Settled (Prediction.t DemandForecast.t))
    (w : Demand.World) : Prop :=
  (forall batch, In batch (inserted w) ->
     exists prediction,
       successfulPayload parse prediction
       /\ batch = map Demand.processPrediction (Prediction.items prediction))
  /\ (forall k, In k (pending w) -> successfulPayload parse k).

(** A request whose predictor process has just been started. *)
Definition started {Doc K : Type} (clock : JsDate.t) (ps : list Product.t)
    (i : Invocation) : World.t Doc K :=
  start i (set_products ps (countMapping (init clock))).

Definition processEvent (ev : Event) : bool :=
  match ev with
  | Close _ | ProcessError _ => true
  | _ => false
  end.

Definition storeSettles (ev : Event) : bool :=
  match ev with
  | InsertSettles _ => true
  | _ => false
  end.

(** The response object has sent nothing, or exactly one response. *)
Definition resOK {Doc : Type} (r : Res.t Doc) : Prop :=
  (Res.headersSent r = false /\ Res.sent r = [])
  \/ (Res.headersSent r = true /\ List.length (Res.sent r) = 1%nat).

(** The invariant of a request: at most one response; a timer that has
    fired is not armed; and once the timer is out of the way, a response
    has been sent or a continuation is waiting on the store to send it. *)
Definition guarded {Doc K : Type} (w : World.t Doc K) : Prop :=
  resOK (res w)
  /\ (responseTimeout w = true -> timerArmed w = false)
  /\ (timerArmed w = false ->
      Res.headersSent (res w) = true \/ pending w <> []).

(** The deadline has passed: the flag is set and the timer is spent. *)
Definition timedOut {Doc K : Type} (w : World.t Doc K) : Prop :=
  responseTimeout w = true /\ timerArmed w = false.

(** What may follow the failure of an invocation: anything but a [close]
    with exit code 0. *)
Definition allowedAfterFailure (ev : Event) : bool :=
  match ev with
  | Close code => nonZero code
  | _ => true
  end.

(** An answer of the fallback engine for [n] products. *)
Definition fallbackAnswer (n : nat) (r : Response.t PriceRecommendation.t) : Prop :=
  Response.status r = 200%Z
  /\ Body.success (Response.body r) = true
  /\ Body.note (Response.body r) = Some "Generated using fallback pricing algorithm"
  /\ exists recommendations,
       Body.data (Response.body r) = Some (FallbackData recommendations n)
       /\ Forall isFallback recommendations
       /\ List.length recommendations = n.

(** A pricing request that can only answer with the fallback. *)
Definition fallingBack (n : nat) (w : Pricing.World) : Prop :=
  List.length (products w) = n
  /\ (Res.headersSent (res w) = false -> Res.statusCode (res w) = 200%Z)
  /\ (forall r, In r (Res.sent (res w)) -> fallbackAnswer n r)
  /\ (forall k, In k (pending w) ->
        exists recommendations,
          k = Pricing.InsertThenFallback recommendations
          /\ Forall isFallback recommendations
          /\ List.length recommendations = n)
  /\ (forall batch, In batch (inserted w) ->
        Forall isFallback batch /\ List.length batch = n).

Definition unanswered (w : Pricing.World) : Prop :=
  Res.headersSent (res w) = false /\ pending w <> [].

Ltac finish_guarded :=
  unfold guarded, resOK in *; simpl in *;
  repeat match goal with
         | H : _ /\ _ |- _ => destruct H
         | H : _ \/ _ |- _ => destruct H
         end;
  subst; simpl in *;
  repeat apply conj;
  try solve [ intros; first [ assumption | discriminate | congruence
                            | left; split; first [reflexivity | assumption | congruence]
                            | right; split; first [reflexivity | assumption | congruence]
                            | left; reflexivity
                            | right; apply not_eq_sym; apply app_cons_not_nil
                            | auto ] ].

Definition pricingCall : Invocation :=
  {| operation := "predict_pricing";
     input_products := [noProduct];
     forecast_days := None;
     cities := None |}.

(** *** Exponents of binary64 values

    A finite binary64 value is [(-1)^s * m * 2^e] with [m] below [2^53]
    and [e] between [-1074] and [971]; overflow is an exponent above
    [971]. *)

Definition fexp64 (e : Z) : Z := Z.max (e - 53) (-1074).

(** A zero, or a finite value whose exponent is at most [K]. *)
Definition SFexpLe (K : Z) (x : spec_float) : Prop :=
  match x with
  | S754_zero _ => True
  | S754_finite _ _ e => (e <= K)%Z
  | _ => False
  end.

Definition expLe (K : Z) (x : float) : Prop := SFexpLe K (Prim2SF x).

(** The current prices for which the engine is shown not to overflow:
    absent, replaced by the default ([0], [-0], [NaN]), or at most [1e305]
    in magnitude. *)
Definition priceInRange (v : option float) : bool :=
  match v with
  | None => true
  | Some x => negb (truthy x) || (abs x <=? 1e305)
  end.

Definition hugePrice : Product.t :=
  Product.with_current_price (Some 1e307) noProduct.

(** ** Vocabulary of the further properties *)

(** A mapping service that resolves with no product at all. *)
Definition mapsNone : list Product.t -> MappingRun :=
  fun _ => {| settles := Resolved []; after_ms := 3 |}.

(** A parser that accepts one line only. *)
Definition parsesLine {Doc : Type} (line : string) (prediction : Prediction.t Doc)
  : string -> Settled (Prediction.t Doc) :=
  fun text => if String.eqb text line then Resolved prediction
              else Rejected "Unexpected token".

(** The line feed that [split] cuts at. *)
Definition lineFeed : ascii := "010"%char.

(** What a predictor may write: a diagnostic line, the result, a final
    line feed. *)
Definition modelOutput : string :=
  "Loading model" ++ String lineFeed ("{}" ++ String lineFeed EmptyString).

Definition samplePrices : Prediction.t PriceRecommendation.t :=
  Prediction.mk true [fallbackRecommendation newYear noProduct] "1" None.

Definition sampleForecasts : Prediction.t DemandForecast.t :=
  Prediction.mk true
    [DemandForecast.mk None None None None (DateText "2026-01-01") None None None]
    "1" None.

(** The invocation of the pricing route: [spawn(..., 'predict_pricing')] and
    the [inputData] written to [stdin]. *)
Definition pricingInvocation (clock : JsDate.t) (mapped : list Product.t) : Invocation :=
  {| operation := "predict_pricing";
     input_products := map (Pricing.enrich clock) mapped;
     forecast_days := None;
     cities := None |}.

(** The invocation of the demand route. *)
Definition demandInvocation (mapped : list Product.t) (days : option float)
    (targets : option (list string)) : Invocation :=
  {| operation := "predict_demand";
     input_products := mapped;
     forecast_days := Some (match days with Some d => d | None => 7 end);
     cities := targets |}.

(** A product that carries its date context. *)
Definition dated (p : Product.t) : Prop :=
  Product.weekday p <> None
  /\ exists s, Product.season p = Some s /\ s <> "".

(** The child is signalled by the deadline only: the signal and the flag
    go together, and a timer is armed only for a started process. *)
Definition killedOnDeadline {Doc K : Type} (signal : string) (w : World.t Doc K) : Prop :=
  (timerArmed w = true -> spawned w <> [])
  /\ ((killed w = None /\ responseTimeout w = false)
      \/ (killed w = Some signal /\ responseTimeout w = true /\ spawned w <> [])).

(** A response that reports success. *)
Definition successResponse {Doc : Type} (r : Response.t Doc) : Prop :=
  Response.status r = 200%Z
  /\ Body.success (Response.body r) = true
  /\ Body.error (Response.body r) = None.

(** A response object that has reported, and can only report, success. *)
Definition onlySuccesses {Doc : Type} (r : Res.t Doc) : Prop :=
  (Res.headersSent r = false -> Res.statusCode r = 200%Z)
  /\ Forall successResponse (Res.sent r).

(** A payload that a route stores from: the parse of a last output line,
    with a truthy [success] and at least one item. *)
Definition parsedSuccess {Doc : Type} (parse : string -> Settled (Prediction.t Doc))
    (prediction : Prediction.t Doc) : Prop :=
  (exists output, parse (lastLine output) = Resolved prediction)
  /\ Prediction.success prediction = true
  /\ Prediction.items prediction <> [].

(** What the pricing route hands to [insertMany]. *)
Definition pricingBatch (parse : string -> Settled (Prediction.t PriceRecommendation.t))
    (ps : list Product.t) (batch : list PriceRecommendation.t) : Prop :=
  (exists clock, batch = map (fallbackRecommendation clock) ps)
  \/ (exists prediction,
        parsedSuccess parse prediction /\ batch = Prediction.items prediction).

(** The invariant of the pricing store: the products are those of the
    request, and every batch stored or about to be is a [pricingBatch]. *)
Definition pricingStore (parse : string -> Settled (Prediction.t PriceRecommendation.t))
    (ps : list Product.t) (w : Pricing.World) : Prop :=
  products w = ps
  /\ (forall batch, In batch (inserted w) -> pricingBatch parse ps batch)
  /\ (forall k, In k (pending w) ->
        match k with
        | Pricing.InsertThenFallback recs =>
            exists clock, recs = map (fallbackRecommendation clock) ps
        | Pricing.InsertThenPrediction prediction => parsedSuccess parse prediction
        end).

(** No handler has run yet: the timer is armed and nothing is in flight. *)
Definition waiting {Doc K : Type} (w : World.t Doc K) : Prop :=
  timerArmed w = true /\ responseTimeout w = false
  /\ pending w = [] /\ Res.headersSent (res w) = false.

(** One handler has run: the response is out, or one continuation is about
    to send it and no process handler can act before it does ([more] tells
    whether the process may still emit [close] or [error]). *)
Definition resolving {Doc K : Type} (more : bool) (w : World.t Doc K) : Prop :=
  timerArmed w = false
  /\ ((pending w = [] /\ Res.headersSent (res w) = true)
      \/ ((exists k, pending w = [k]) /\ Res.headersSent (res w) = false
          /\ (responseTimeout w = true \/ listening w = false \/ more = false))).

(** A request none of whose handlers has failed. *)
Definition calm {Doc K : Type} (more : bool) (w : World.t Doc K) : Prop :=
  unhandledRejections w = 0%nat /\ (waiting w \/ resolving more w).

Ltac calm_tac :=
  unfold calm, waiting, resolving in *; simpl in *;
  repeat match goal with
         | H : _ /\ _ |- _ => destruct H
         | H : _ \/ _ |- _ => destruct H
         | H : exists _, _ |- _ => destruct H
         end;
  subst; simpl in *; try discriminate;
  repeat match goal with
         | H : _ :: _ = [_] |- _ => injection H as ? ?; subst
         end;
  simpl in *; try discriminate;
  first
    [ split; [assumption || reflexivity |];
      first
        [ left; repeat apply conj; solve [reflexivity | assumption]
        | right; split; [reflexivity || assumption |];
          first
            [ left; split; solve [reflexivity | assumption]
            | right; split; [eexists; reflexivity |];
              split; [reflexivity || assumption |];
              first [ left; solve [reflexivity | assumption]
                    | right; left; solve [reflexivity | assumption]
                    | right; right; solve [reflexivity | assumption] ] ] ] ].

(** Text that [trim] removes entirely: white space only. *)
Definition blank (s : list ascii) : bool :=
  match trimStart s with
  | [] => true
  | _ :: _ => false
  end.

(** The text starts with a white space character. *)
Definition startsWithSpace (s : list ascii) : bool :=
  match s with
  | c1 :: r1 =>
      whiteSpace1 c1
      || match r1 with
         | c2 :: r2 =>
             whiteSpace2 c1 c2
             || match r2 with
                | c3 :: _ => whiteSpace3 c1 c2 c3
                | [] => false
                end
         | [] => false
         end
  | [] => false
  end.

(** The text ends with a white space character. *)
Definition endsWithSpace (s : list ascii) : bool :=
  match rev s with
  | c1 :: r1 =>
      whiteSpace1 c1
      || match r1 with
         | c2 :: r2 =>
             whiteSpace2 c2 c1
             || match r2 with
                | c3 :: _ => whiteSpace3 c3 c2 c1
                | [] => false
                end
         | [] => false
         end
  | [] => false
  end.

(** One white space character, and a run of them. *)
Inductive Space : list ascii -> Prop :=
| space1 c : whiteSpace1 c = true -> Space [c]
| space2 c1 c2 : whiteSpace2 c1 c2 = true -> Space [c1; c2]
| space3 c1 c2 c3 : whiteSpace3 c1 c2 c3 = true -> Space [c1; c2; c3].

Inductive Spaces : list ascii -> Prop :=
| spaces_nil : Spaces []
| spaces_cons w p : Space w -> Spaces p -> Spaces (w ++ p).

(** A byte that starts a character. *)
Definition startsCharacter (c : ascii) : bool :=
  ((N_of_ascii c <? 128) || (192 <=? N_of_ascii c))%N.

(** The seasons of the calendar months, January first. *)
Definition seasonsByMonth : list string :=
  ["Winter"; "Winter"; "Spring"; "Spring"; "Spring"; "Summer";
   "Summer"; "Summer"; "Autumn"; "Autumn"; "Autumn"; "Winter"].


Definition hasId (id : string) (d : SeedProduct.t) : bool :=
  String.eqb (SeedProduct.product_id d) id.

Definition namesCity (cityName : string) (row : Row.t) : bool :=
  match option_map trimText (Row.city row) with
  | Some c => String.eqb c cityName
  | None => false
  end.


(** * Bounds on binary64 arithmetic *)

Section FloatBounds.
Local Open Scope Z_scope.

(** Number of binary digits *)
Lemma digits2_pos_bounds (p : positive) :
  2 ^ (Zpos (digits2_pos p) - 1) <= Zpos p < 2 ^ Zpos (digits2_pos p).
Proof.
  induction p as [p IH | p IH |]; simpl digits2_pos.
  - rewrite Pos2Z.inj_succ. replace (Z.succ (Zpos (digits2_pos p)) - 1) with (Z.succ (Zpos (digits2_pos p) - 1)) by lia.
    rewrite !Z.pow_succ_r by lia. lia.
  - rewrite Pos2Z.inj_succ. replace (Z.succ (Zpos (digits2_pos p)) - 1) with (Z.succ (Zpos (digits2_pos p) - 1)) by lia.
    rewrite !Z.pow_succ_r by lia. lia.
  - simpl. lia.
Qed.

Lemma Zdigits2_nonneg (m : Z) : 0 <= Zdigits2 m.
Proof. destruct m; simpl; lia. Qed.

Lemma Zdigits2_pos (m : Z) : 0 < m -> 1 <= Zdigits2 m.
Proof. destruct m; simpl; lia. Qed.

Lemma Zdigits2_upper (m k : Z) : 0 <= m < 2 ^ k -> 0 <= k -> Zdigits2 m <= k.
Proof.
  intros [H0 H1] Hk. destruct m as [| p | p]; simpl; try lia.
  destruct (digits2_pos_bounds p) as [L _].
  destruct (Z_le_gt_dec (Zpos (digits2_pos p)) k) as [|G]; [assumption | exfalso].
  assert (2 ^ k <= 2 ^ (Zpos (digits2_pos p) - 1)) by (apply Z.pow_le_mono_r; lia).
  lia.
Qed.

Lemma Zdigits2_lt (m : Z) : 0 <= m -> m < 2 ^ Zdigits2 m.
Proof.
  intros H. destruct m as [| p | p]; simpl; try lia.
  apply digits2_pos_bounds.
Qed.

Lemma Zdigits2_ge (m : Z) : 0 < m -> 2 ^ (Zdigits2 m - 1) <= m.
Proof.
  intros H. destruct m as [| p | p]; simpl; try lia.
  apply digits2_pos_bounds.
Qed.

Lemma Zdigits2_mono (a b : Z) : 0 <= a <= b -> Zdigits2 a <= Zdigits2 b.
Proof.
  intros [Ha Hab]. apply Zdigits2_upper; [| apply Zdigits2_nonneg].
  pose proof (Zdigits2_lt b ltac:(lia)). lia.
Qed.

Lemma Zdigits2_succ (m : Z) : 0 <= m -> Zdigits2 (m + 1) <= Zdigits2 m + 1.
Proof.
  intros H. apply Zdigits2_upper; [| pose proof (Zdigits2_nonneg m); lia].
  pose proof (Zdigits2_lt m H).
  rewrite Z.pow_add_r by (try apply Zdigits2_nonneg; lia). lia.
Qed.

Lemma Zdigits2_mul (a b : Z) : 0 <= a -> 0 <= b -> Zdigits2 (a * b) <= Zdigits2 a + Zdigits2 b.
Proof.
  intros Ha Hb. pose proof (Zdigits2_nonneg a). pose proof (Zdigits2_nonneg b).
  apply Zdigits2_upper; [| lia].
  pose proof (Zdigits2_lt a Ha). pose proof (Zdigits2_lt b Hb).
  rewrite Z.pow_add_r by lia. nia.
Qed.

Lemma Zdigits2_shift (a k : Z) : 0 <= a -> 0 <= k -> Zdigits2 (a * 2 ^ k) <= Zdigits2 a + k.
Proof.
  intros Ha Hk. pose proof (Zdigits2_nonneg a).
  apply Zdigits2_upper; [| lia].
  pose proof (Zdigits2_lt a Ha).
  assert (0 < 2 ^ k) by (apply Z.pow_pos_nonneg; lia).
  rewrite Z.pow_add_r by lia. nia.
Qed.

Lemma Zdigits2_div (a b : Z) :
  0 <= a -> 0 < b -> Zdigits2 (a / b) <= Z.max (Zdigits2 a - Zdigits2 b + 1) 0.
Proof.
  intros Ha Hb.
  pose proof (Zdigits2_nonneg a). pose proof (Zdigits2_nonneg b).
  pose proof (Zdigits2_lt a Ha). pose proof (Zdigits2_ge b Hb).
  pose proof (Zdigits2_pos b Hb).
  assert (0 <= a / b) by (apply Z.div_pos; lia).
  destruct (Z_le_gt_dec (Zdigits2 b - 1) (Zdigits2 a)) as [L | G].
  - apply Zdigits2_upper; [| lia]. split; [assumption |].
    apply Z.div_lt_upper_bound; [lia |].
    replace (Z.max (Zdigits2 a - Zdigits2 b + 1) 0) with (Zdigits2 a - (Zdigits2 b - 1)) by lia.
    assert (E : 2 ^ Zdigits2 a = 2 ^ (Zdigits2 b - 1) * 2 ^ (Zdigits2 a - (Zdigits2 b - 1))).
    { rewrite <- Z.pow_add_r by lia. f_equal. lia. }
    assert (0 < 2 ^ (Zdigits2 a - (Zdigits2 b - 1))) by (apply Z.pow_pos_nonneg; lia).
    nia.
  - assert (a < b).
    { assert (2 ^ Zdigits2 a <= 2 ^ (Zdigits2 b - 1)) by (apply Z.pow_le_mono_r; lia). lia. }
    rewrite Z.div_small by lia. simpl. lia.
Qed.

(** Right shifts of the rounding record *)
Lemma shr_1_digits (mrs : shr_record) :
  0 <= shr_m mrs ->
  0 <= shr_m (shr_1 mrs)
  /\ Zdigits2 (shr_m (shr_1 mrs)) = Z.max (Zdigits2 (shr_m mrs) - 1) 0.
Proof.
  destruct mrs as [m r s]. cbn [shr_m]. intros H.
  destruct m as [| [p | p |] | p];
    cbn [shr_1 shr_m Zdigits2 digits2_pos]; rewrite ?Pos2Z.inj_succ; lia.
Qed.

Lemma iter_shr_1_digits (n : positive) :
  forall mrs,
    0 <= shr_m mrs ->
    0 <= shr_m (iter_pos shr_1 n mrs)
    /\ Zdigits2 (shr_m (iter_pos shr_1 n mrs))
       = Z.max (Zdigits2 (shr_m mrs) - Zpos n) 0.
Proof.
  induction n as [n IH | n IH |]; intros mrs H; simpl iter_pos.
  - destruct (shr_1_digits mrs H) as [A1 A2].
    destruct (IH _ A1) as [B1 B2]. destruct (IH _ B1) as [C1 C2].
    split; [assumption |]. rewrite C2, B2, A2. lia.
  - destruct (IH _ H) as [B1 B2]. destruct (IH _ B1) as [C1 C2].
    split; [assumption |]. rewrite C2, B2. lia.
  - apply shr_1_digits. exact H.
Qed.

Lemma shr_m_of_loc (m : Z) (l : location) : shr_m (shr_record_of_loc m l) = m.
Proof. destruct l as [| []]; reflexivity. Qed.

Lemma round_nearest_even_digits (m : Z) (l : location) :
  0 <= m ->
  0 <= round_nearest_even m l
  /\ Zdigits2 (round_nearest_even m l) <= Zdigits2 m + 1.
Proof.
  intros H. pose proof (Zdigits2_succ m H). pose proof (Zdigits2_nonneg m).
  destruct l as [| []]; simpl; try (split; lia).
  destruct (Z.even m); split; lia.
Qed.

Lemma fexp_64 (e : Z) : fexp prec emax e = fexp64 e.
Proof. reflexivity. Qed.

(** One call of [shr_fexp] on a nonnegative mantissa *)
Lemma shr_fexp_bound (m e : Z) (l : location) (K : Z) :
  0 <= m -> e <= K -> Zdigits2 m + e - 53 <= K -> -1074 <= K ->
  let '(mrs, e') := shr_fexp prec emax m e l in
  0 <= shr_m mrs /\ e' <= K /\ Zdigits2 (shr_m mrs) + e' - 53 <= K.
Proof.
  intros Hm He Hd HK. unfold shr_fexp, shr. rewrite fexp_64. unfold fexp64.
  destruct (Z.max (Zdigits2 m + e - 53) (-1074) - e) as [| n | n] eqn:En.
  - rewrite shr_m_of_loc. repeat split; assumption.
  - destruct (iter_shr_1_digits n (shr_record_of_loc m l)) as [A1 A2].
    { rewrite shr_m_of_loc. exact Hm. }
    rewrite shr_m_of_loc in A2. rewrite A2.
    repeat split; [assumption | lia | lia].
  - rewrite shr_m_of_loc. repeat split; assumption.
Qed.

Lemma SFexpLe_weaken (K K' : Z) (x : spec_float) :
  SFexpLe K x -> K <= K' -> SFexpLe K' x.
Proof. destruct x; simpl; intros; try assumption; lia. Qed.

Lemma binary_round_aux_bound (s : bool) (m e : Z) (l : location) (K : Z) :
  0 <= m -> e <= K -> Zdigits2 m + e - 53 <= K -> -1074 <= K -> K + 1 <= 971 ->
  SFexpLe (K + 1) (binary_round_aux prec emax s m e l).
Proof.
  intros Hm He Hd HK HK'. unfold binary_round_aux.
  pose proof (shr_fexp_bound m e l K Hm He Hd HK) as H1.
  destruct (shr_fexp prec emax m e l) as [mrs1 e1].
  destruct H1 as (A1 & A2 & A3).
  destruct (round_nearest_even_digits (shr_m mrs1) (loc_of_shr_record mrs1) A1)
    as [B1 B2].
  pose proof (shr_fexp_bound (round_nearest_even (shr_m mrs1) (loc_of_shr_record mrs1))
                e1 loc_Exact (K + 1) B1 ltac:(lia) ltac:(lia) ltac:(lia)) as H2.
  destruct (shr_fexp prec emax _ e1 loc_Exact) as [mrs2 e2].
  destruct H2 as (C1 & C2 & C3).
  destruct (shr_m mrs2) as [| p | p]; [exact I | | lia].
  destruct (Z.leb_spec e2 (emax - prec)) as [L | G].
  - cbn [SFexpLe]. exact C2.
  - change (emax - prec) with 971 in G. lia.
Qed.

Lemma expLe_weaken (K K' : Z) (x : float) : expLe K x -> K <= K' -> expLe K' x.
Proof. apply SFexpLe_weaken. Qed.

Lemma valid_finite (x : float) (s : bool) (m : positive) (e : Z) :
  Prim2SF x = S754_finite s m e ->
  Zpos (digits2_pos m) <= 53 /\ -1074 <= e <= 971.
Proof.
  intros E. pose proof (Prim2SF_valid x) as V. rewrite E in V.
  unfold valid_binary, bounded, canonical_mantissa in V.
  apply andb_prop in V. destruct V as [V1 V2].
  apply Z.eqb_eq in V1. apply Z.leb_le in V2.
  rewrite fexp_64 in V1. unfold fexp64 in V1.
  change (emax - prec) with 971 in V2. lia.
Qed.

Lemma mul_expLe (K1 K2 : Z) (x y : float) :
  expLe K1 x -> expLe K2 y -> K1 + K2 + 54 <= 971 ->
  expLe (Z.max (K1 + K2 + 54) (-1073)) (x * y).
Proof.
  unfold expLe. intros Hx Hy HK. rewrite mul_spec.
  destruct (Prim2SF x) as [sx | sx | | sx mx ex] eqn:Ex; try contradiction;
    destruct (Prim2SF y) as [sy | sy | | sy my ey] eqn:Ey; try contradiction;
    try exact I.
  simpl in Hx, Hy.
  destruct (valid_finite x _ _ _ Ex) as [Dx _].
  destruct (valid_finite y _ _ _ Ey) as [Dy _].
  unfold SF64mul, SFmul.
  replace (Z.max (K1 + K2 + 54) (-1073)) with (Z.max (K1 + K2 + 53) (-1074) + 1) by lia.
  apply binary_round_aux_bound; try lia.
  pose proof (Zdigits2_mul (Zpos mx) (Zpos my) ltac:(lia) ltac:(lia)) as D.
  change (Zdigits2 (Zpos mx)) with (Zpos (digits2_pos mx)) in D.
  change (Zdigits2 (Zpos my)) with (Zpos (digits2_pos my)) in D.
  change (Zpos (mx * my)) with (Zpos mx * Zpos my). lia.
Qed.

Lemma pos_iter_xO (m d : positive) : Zpos (Pos.iter xO m d) = Zpos m * 2 ^ Zpos d.
Proof.
  induction d as [| d IH] using Pos.peano_ind.
  - simpl. lia.
  - rewrite Pos.iter_succ, Pos2Z.inj_succ, Z.pow_succ_r by lia.
    rewrite Pos2Z.inj_xO, IH. lia.
Qed.

Lemma shl_align_le (mx : positive) (ex ez : Z) :
  ez <= ex ->
  Zpos (fst (shl_align mx ex ez)) = Zpos mx * 2 ^ (ex - ez)
  /\ snd (shl_align mx ex ez) = ez.
Proof.
  intros H. unfold shl_align.
  destruct (ez - ex) as [| d | d] eqn:E; cbn [fst snd]; try lia.
  - replace (ex - ez) with 0 by lia. simpl. lia.
  - rewrite pos_iter_xO. replace (ex - ez) with (Zpos d) by lia. split; reflexivity.
Qed.

Lemma binary_round_bound (s : bool) (p : positive) (e K : Z) :
  e <= K -> Zpos (digits2_pos p) + e - 53 <= K -> -1074 <= K -> K + 1 <= 971 ->
  SFexpLe (K + 1) (binary_round prec emax s p e).
Proof.
  intros He Hd HK HK'. unfold binary_round. rewrite fexp_64. unfold fexp64.
  unfold shl_align.
  destruct (Z.max (Zpos (digits2_pos p) + e - 53) (-1074) - e) as [| d | d] eqn:E.
  - apply binary_round_aux_bound; try lia. exact Hd.
  - apply binary_round_aux_bound; try lia. exact Hd.
  - apply binary_round_aux_bound; try lia.
    rewrite pos_iter_xO.
    pose proof (Zdigits2_shift (Zpos p) (Zpos d) ltac:(lia) ltac:(lia)) as D.
    change (Zdigits2 (Zpos p)) with (Zpos (digits2_pos p)) in D. lia.
Qed.

Lemma binary_normalize_bound (z e K : Z) (D : Z) :
  Z.abs z < 2 ^ D -> 0 <= D ->
  e <= K -> D + e - 53 <= K -> -1074 <= K -> K + 1 <= 971 ->
  SFexpLe (K + 1) (binary_normalize prec emax z e false).
Proof.
  intros Hz HD He Hd HK HK'.
  destruct z as [| p | p]; [exact I | |]; simpl binary_normalize;
    apply binary_round_bound; try lia.
  - pose proof (Zdigits2_upper (Zpos p) D ltac:(lia) HD) as U.
    change (Zdigits2 (Zpos p)) with (Zpos (digits2_pos p)) in U. lia.
  - pose proof (Zdigits2_upper (Zpos p) D ltac:(lia) HD) as U.
    change (Zdigits2 (Zpos p)) with (Zpos (digits2_pos p)) in U. lia.
Qed.

Lemma sub_expLe (K : Z) (x y : float) :
  expLe K x -> expLe K y -> K + 2 <= 971 -> expLe (K + 2) (x - y).
Proof.
  unfold expLe. intros Hx Hy HK. rewrite sub_spec.
  destruct (Prim2SF x) as [sx | sx | | sx mx ex] eqn:Ex; try contradiction;
    destruct (Prim2SF y) as [sy | sy | | sy my ey] eqn:Ey; try contradiction;
    simpl in Hx, Hy.
  - destruct sx, sy; exact I.
  - simpl. lia.
  - simpl. lia.
  - destruct (valid_finite x _ _ _ Ex) as [Dx [Lx _]].
    destruct (valid_finite y _ _ _ Ey) as [Dy [Ly _]].
    unfold SF64sub, SFsub.
    destruct (shl_align_le mx ex (Z.min ex ey) ltac:(lia)) as [Ax _].
    destruct (shl_align_le my ey (Z.min ex ey) ltac:(lia)) as [Ay _].
    rewrite Ax, Ay.
    replace (K + 2) with ((K + 1) + 1) by lia.
    apply (binary_normalize_bound _ _ _ (54 + Z.max ex ey - Z.min ex ey)); try lia.
    pose proof (Zdigits2_lt (Zpos mx) ltac:(lia)) as Bx.
    pose proof (Zdigits2_lt (Zpos my) ltac:(lia)) as By.
    change (Zdigits2 (Zpos mx)) with (Zpos (digits2_pos mx)) in Bx.
    change (Zdigits2 (Zpos my)) with (Zpos (digits2_pos my)) in By.
    assert (Px : Zpos mx * 2 ^ (ex - Z.min ex ey) < 2 ^ (53 + Z.max ex ey - Z.min ex ey)).
    { apply Z.lt_le_trans with (2 ^ Zpos (digits2_pos mx) * 2 ^ (ex - Z.min ex ey)).
      - apply Z.mul_lt_mono_pos_r; [apply Z.pow_pos_nonneg; lia | exact Bx].
      - rewrite <- Z.pow_add_r by lia. apply Z.pow_le_mono_r; lia. }
    assert (Py : Zpos my * 2 ^ (ey - Z.min ex ey) < 2 ^ (53 + Z.max ex ey - Z.min ex ey)).
    { apply Z.lt_le_trans with (2 ^ Zpos (digits2_pos my) * 2 ^ (ey - Z.min ex ey)).
      - apply Z.mul_lt_mono_pos_r; [apply Z.pow_pos_nonneg; lia | exact By].
      - rewrite <- Z.pow_add_r by lia. apply Z.pow_le_mono_r; lia. }
    assert (Qx : 0 < Zpos mx * 2 ^ (ex - Z.min ex ey)).
    { apply Z.mul_pos_pos; [lia | apply Z.pow_pos_nonneg; lia]. }
    assert (Qy : 0 < Zpos my * 2 ^ (ey - Z.min ex ey)).
    { apply Z.mul_pos_pos; [lia | apply Z.pow_pos_nonneg; lia]. }
    replace (54 + Z.max ex ey - Z.min ex ey) with (Z.succ (53 + Z.max ex ey - Z.min ex ey)) by lia.
    rewrite Z.pow_succ_r by lia.
    unfold cond_Zopp. destruct sx, sy; lia.
Qed.

Lemma div_expLe (K : Z) (x y : float) (sy : bool) (my : positive) (ey : Z) :
  expLe K x -> Prim2SF y = S754_finite sy my ey ->
  Z.max (K - ey - Zpos (digits2_pos my) + 1) (-1074) + 1 <= 971 ->
  expLe (Z.max (K - ey - Zpos (digits2_pos my) + 1) (-1074) + 1) (x / y).
Proof.
  unfold expLe. intros Hx Ey HK. rewrite div_spec, Ey.
  destruct (Prim2SF x) as [sx | sx | | sx mx ex] eqn:Ex; try contradiction;
    [exact I |].
  simpl in Hx.
  destruct (valid_finite x _ _ _ Ex) as [Dx [Lx _]].
  destruct (valid_finite y _ _ _ Ey) as [Dy [Ly _]].
  unfold SF64div, SFdiv, SFdiv_core_binary.
  rewrite fexp_64. unfold fexp64.
  change (Zdigits2 (Zpos mx)) with (Zpos (digits2_pos mx)).
  change (Zdigits2 (Zpos my)) with (Zpos (digits2_pos my)).
  set (d1 := Zpos (digits2_pos mx)) in *.
  set (d2 := Zpos (digits2_pos my)) in *.
  set (e' := Z.min (Z.max (d1 + ex - (d2 + ey) - 53) (-1074)) (ex - ey)).
  set (m' := match ex - ey - e' with
             | 0 => Zpos mx
             | Zpos _ => Z.shiftl (Zpos mx) (ex - ey - e')
             | Zneg _ => 0
             end).
  assert (Hm' : 0 <= m' /\ Zdigits2 m' <= d1 + (ex - ey - e')).
  { subst m'. destruct (ex - ey - e') as [| s | s] eqn:Es.
    - change (Zdigits2 (Zpos mx)) with d1. lia.
    - rewrite Z.shiftl_mul_pow2 by lia.
      pose proof (Zdigits2_shift (Zpos mx) (Zpos s) ltac:(lia) ltac:(lia)) as D.
      change (Zdigits2 (Zpos mx)) with d1 in D.
      split; [| exact D].
      apply Z.mul_nonneg_nonneg; [lia | apply Z.pow_nonneg; lia].
    - subst e'. lia. }
  destruct Hm' as [M1 M2].
  destruct (Z.div_eucl m' (Zpos my)) as [q r] eqn:Eq.
  assert (Hq : q = m' / Zpos my) by (unfold Z.div; rewrite Eq; reflexivity).
  pose proof (Zdigits2_div m' (Zpos my) M1 ltac:(lia)) as Dq.
  change (Zdigits2 (Zpos my)) with d2 in Dq. rewrite <- Hq in Dq.
  assert (0 <= q) by (rewrite Hq; apply Z.div_pos; lia).
  apply binary_round_aux_bound; lia.
Qed.

Lemma neg_expLe (K : Z) (x : float) : expLe K x -> expLe K (- x).
Proof.
  unfold expLe. rewrite opp_spec. destruct (Prim2SF x); simpl; trivial.
Qed.

Lemma of_uint63_expLe (n : Z) :
  0 <= n < 2 ^ 54 -> expLe 2 (of_uint63 (Uint63.of_Z n)).
Proof.
  intros Hn. unfold expLe. rewrite of_uint63_spec.
  assert (E : Uint63.to_Z (Uint63.of_Z n) = n).
  { rewrite Uint63.of_Z_spec. apply Z.mod_small.
    assert (2 ^ 54 < Uint63.wB) by reflexivity. lia. }
  change (Uint63Axioms.to_Z (Uint63.of_Z n)) with (Uint63.to_Z (Uint63.of_Z n)).
  rewrite E.
  apply (binary_normalize_bound n 0 1 54); lia.
Qed.

Lemma round_half_up_bound (n k : Z) :
  1 <= k -> - 2 ^ 53 < n < 2 ^ 53 ->
  - 2 ^ 54 < Z.shiftr (n + 2 ^ (k - 1)) k < 2 ^ 54.
Proof.
  intros Hk Hn. rewrite Z.shiftr_div_pow2 by lia.
  assert (P : 0 < 2 ^ (k - 1)) by (apply Z.pow_pos_nonneg; lia).
  assert (E : 2 ^ k = 2 * 2 ^ (k - 1)).
  { replace k with (Z.succ (k - 1)) at 1 by lia. apply Z.pow_succ_r. lia. }
  split.
  - apply Z.lt_le_trans with (- 2 ^ 53); [lia |].
    apply Z.div_le_lower_bound; [lia |]. nia.
  - apply Z.div_lt_upper_bound; [lia |]. nia.
Qed.

Lemma of_Z_expLe (r : Z) : - 2 ^ 54 < r < 2 ^ 54 -> expLe 2 (of_Z r).
Proof.
  intros H. unfold of_Z. destruct (Z.ltb_spec r 0).
  - apply neg_expLe. apply of_uint63_expLe. lia.
  - apply of_uint63_expLe. lia.
Qed.

Lemma Math_round_expLe (K : Z) (x : float) :
  expLe K x -> 2 <= K -> expLe K (Math_round x).
Proof.
  intros Hx HK. unfold Math_round.
  destruct (Prim2SF x) as [sx | sx | | sx mx ex] eqn:Ex; try exact Hx.
  destruct (valid_finite x _ _ _ Ex) as [Dx _].
  destruct (Z.leb_spec 0 ex); [exact Hx |].
  cbv zeta.
  destruct (Z.eqb_spec (Z.shiftr ((if sx then Z.neg mx else Z.pos mx) + 2 ^ (- ex - 1)) (- ex)) 0).
  - destruct sx; exact I.
  - apply expLe_weaken with 2; [| exact HK].
    apply of_Z_expLe. apply round_half_up_bound; [lia |].
    pose proof (Zdigits2_lt (Zpos mx) ltac:(lia)) as B.
    change (Zdigits2 (Zpos mx)) with (Zpos (digits2_pos mx)) in B.
    assert (2 ^ Zpos (digits2_pos mx) <= 2 ^ 53) by (apply Z.pow_le_mono_r; lia).
    destruct sx; lia.
Qed.

Lemma abs_leb_expLe (x B : float) (mB : positive) (eB : Z) :
  Prim2SF B = S754_finite false mB eB ->
  (abs x <=? B)%float = true -> expLe eB x.
Proof.
  intros EB H. rewrite leb_spec, abs_spec, EB in H. unfold expLe.
  destruct (Prim2SF x) as [sx | sx | | sx mx ex];
    cbn [SFexpLe SFabs] in *; [exact I | discriminate H | discriminate H |].
  unfold SFleb, SFcompare in H.
  destruct (Z.compare_spec ex eB); first [lia | discriminate H].
Qed.

Lemma truthy_finite (K : Z) (x : float) :
  truthy x = true -> expLe K x ->
  exists s m e, Prim2SF x = S754_finite s m e /\ e <= K.
Proof.
  unfold truthy, expLe. intros T H.
  apply negb_true_iff in T. apply orb_false_elim in T. destruct T as [T _].
  unfold is_zero in T. rewrite FloatAxioms.eqb_spec in T.
  destruct (Prim2SF x) as [sx | sx | | sx mx ex]; try contradiction.
  - discriminate T.
  - exists sx, mx, ex. split; [reflexivity | exact H].
Qed.

Lemma expLe_is_finite (K : Z) (x : float) : expLe K x -> is_finite x = true.
Proof.
  unfold expLe, is_finite, is_nan, is_infinity. intros H.
  rewrite !FloatAxioms.eqb_spec, abs_spec.
  destruct (Prim2SF x) as [sx | sx | | sx mx ex]; try contradiction.
  - reflexivity.
  - unfold SFeqb, SFcompare. cbn [SFabs].
    rewrite Z.compare_refl, Pos.compare_cont_refl.
    destruct sx; reflexivity.
Qed.

Lemma priceRules_expLe (demandScore stockLevel daysLeft : float) :
  expLe (-52) (fst (priceRules demandScore stockLevel daysLeft)).
Proof.
  unfold priceRules, expiryAdjustment, stockAdjustment, demandAdjustment,
    initialRuleState.
  destruct (70 <? demandScore)%float, (demandScore <? 30)%float,
    (stockLevel <? 50)%float, (200 <? stockLevel)%float,
    (daysLeft <=? 2)%float, (daysLeft <=? 5)%float;
    vm_compute; intro E; discriminate E.
Qed.

Lemma currentPrice_finite (v : option float) :
  priceInRange v = true ->
  exists s m e, Prim2SF (or_default v 25.0) = S754_finite s m e /\ e <= 961.
Proof.
  assert (D : exists s m e, Prim2SF 25.0 = S754_finite s m e /\ e <= 961).
  { eexists _, _, _. split; [vm_compute; reflexivity | lia]. }
  intros H. destruct v as [x |]; [| exact D].
  unfold or_default. simpl in H.
  destruct (truthy x) eqn:T; [| exact D].
  simpl in H.
  apply (truthy_finite 961 x T).
  apply (abs_leb_expLe x 1e305%float 5130671001622970%positive 961);
    [vm_compute; reflexivity | exact H].
Qed.

Lemma hundred_spec : Prim2SF 100 = S754_finite false 7036874417766400 (-46).
Proof. vm_compute. reflexivity. Qed.

Lemma over_hundred_expLe (K : Z) (x : float) :
  expLe K x -> -1067 <= K <= 971 -> expLe K (x / 100).
Proof.
  intros H HK.
  pose proof (div_expLe K x 100 _ _ _ H hundred_spec) as D.
  change (Zpos (digits2_pos 7036874417766400)) with 53 in D.
  apply expLe_weaken with (Z.max (K - -46 - 53 + 1) (-1074) + 1); [apply D |]; lia.
Qed.

Lemma times_hundred_expLe (K : Z) (x : float) :
  expLe K x -> -1081 <= K <= 963 -> expLe (K + 8) (x * 100).
Proof.
  intros H HK.
  assert (H100 : expLe (-46) 100) by (unfold expLe; rewrite hundred_spec; simpl; lia).
  pose proof (mul_expLe K (-46) x 100 H H100 ltac:(lia)) as M.
  apply expLe_weaken with (Z.max (K + -46 + 54) (-1073)); [exact M | lia].
Qed.

(** C7, amended: for every product whose current price is absent, is
    replaced by the default ([0], [-0], [NaN]) or is at most [1e305] in
    magnitude, and whatever its stock level, demand score and days left
    (zero, negative, [NaN] and infinite values included), the engine
    returns a recommendation whose [recommended_price] and
    [price_change_percentage] are neither [NaN] nor infinite. *)
Theorem fallback_prices_are_finite (now : JsDate.t) (p : Product.t) :
  priceInRange (Product.current_price p) = true ->
  let r := fallbackRecommendation now p in
  is_finite (PriceRecommendation.recommended_price r) = true
  /\ is_finite (PriceRecommendation.price_change_percentage r) = true.
Proof.
  intros H.
  destruct (currentPrice_finite _ H) as (s & m & e & Ec & He).
  destruct (valid_finite _ _ _ _ Ec) as [Dm [Le _]].
  unfold fallbackRecommendation. cbv zeta.
  set (c := or_default (Product.current_price p) 25.0) in *.
  pose proof (priceRules_expLe
                (or_default (Product.demand_score p) 50)
                (or_default (Product.stock_level p) 100)
                (or_default (Product.days_left p) 7)) as Hmult.
  destruct (priceRules _ _ _) as [mult reason]. cbn [fst] in Hmult.
  cbn [PriceRecommendation.recommended_price
         PriceRecommendation.price_change_percentage].
  assert (Hc : expLe e c) by (unfold expLe; rewrite Ec; simpl; lia).
  assert (Hrp : expLe (e + 2) (c * mult)).
  { apply expLe_weaken with (Z.max (e + -52 + 54) (-1073));
      [apply mul_expLe; [exact Hc | exact Hmult | lia] | lia]. }
  split.
  - apply expLe_is_finite with (Z.max (e + 10) 2).
    apply over_hundred_expLe; [| lia].
    apply Math_round_expLe; [| lia].
    apply expLe_weaken with (e + 2 + 8); [| lia].
    apply times_hundred_expLe; [exact Hrp | lia].
  - assert (Hd : expLe (e + 4) (c * mult - c)).
    { replace (e + 4) with (e + 2 + 2) by lia.
      apply sub_expLe; [exact Hrp | apply expLe_weaken with e; [exact Hc | lia] | lia]. }
    assert (Hq : expLe 5 ((c * mult - c) / c)).
    { pose proof (div_expLe (e + 4) _ c s m e Hd Ec) as D.
      pose proof (Pos2Z.is_pos (digits2_pos m)).
      apply expLe_weaken
        with (Z.max (e + 4 - e - Zpos (digits2_pos m) + 1) (-1074) + 1);
        [apply D |]; lia. }
    apply expLe_is_finite with 21.
    apply over_hundred_expLe; [| lia].
    apply Math_round_expLe; [| lia].
    replace 21 with (13 + 8) by lia.
    apply times_hundred_expLe; [| lia].
    replace 13 with (5 + 8) by lia.
    apply times_hundred_expLe; [exact Hq | lia].
Qed.

End FloatBounds.

(** * The fallback pricing engine: properties *)

Lemma or_default_absent (d : float) : or_default None d = d.
Proof. reflexivity. Qed.

Lemma or_default_zero (d : float) : or_default (Some 0) d = d.
Proof. reflexivity. Qed.

Lemma or_default_neg_zero (d : float) : or_default (Some (-0)) d = d.
Proof. reflexivity. Qed.

Lemma or_default_nan (d : float) : or_default (Some nan) d = d.
Proof. reflexivity. Qed.

(** C4: for the product [{current_price: 40, stock_level: 30,
    demand_score: 80, days_left: 1}] the engine multiplies by 1.05 (high
    demand), 1.03 (low stock) and 0.80 (urgent near-expiry), which is 0.8652
    up to the rounding of binary64; the recommended price is 34.61, the
    reason is that of the last rule that fired (urgent near-expiry) and the
    confidence score is 0.75. *)
Theorem scenario_high_demand_low_stock_near_expiry (now : JsDate.t) (p : Product.t) :
  let r := fallbackRecommendation now (scenarioProduct p) in
  priceRules 80 30 1
    = (1.0 * 1.05 * 1.03 * 0.80, "Product nearing expiry - urgent price reduction")
  /\ (abs (fst (priceRules 80 30 1) - 0.8652) <? 0.000000000000001) = true
  /\ PriceRecommendation.current_price r = 40
  /\ PriceRecommendation.recommended_price r = 34.61
  /\ PriceRecommendation.recommendation_reason r
     = "Product nearing expiry - urgent price reduction"
  /\ PriceRecommendation.confidence_score r = 0.75.
Proof.
  repeat apply conj; vm_compute; reflexivity.
Qed.

(** C5: the thresholds of the rule chain are strict where the source says
    so.  A demand score of exactly 70 (and of exactly 30) changes nothing,
    the next float above 70 does; 2 days left take the urgent tier (x0.80),
    5 days left the lesser tier (x0.90), 6 days left neither.  This is
    stated on the rule steps, on the chain, and on the recommendation the
    engine returns: its price and its reason, for every product and, with
    the numbers, for the product that has this one field only. *)
Theorem rule_thresholds :
  (forall st, demandAdjustment 70 st = st)
  /\ (forall st, demandAdjustment 30 st = st)
  /\ (forall m r, demandAdjustment (next_up 70) (m, r)
                  = (m * 1.05, "High demand detected - price increase recommended"))
  /\ (forall m r, demandAdjustment (next_down 30) (m, r)
                  = (m * 0.95, "Low demand - price reduction to boost sales"))
  /\ (forall m r, expiryAdjustment 2 (m, r)
                  = (m * 0.80, "Product nearing expiry - urgent price reduction"))
  /\ (forall m r, expiryAdjustment 5 (m, r)
                  = (m * 0.90, "Product nearing expiry - price reduction to clear stock"))
  /\ (forall st, expiryAdjustment 6 st = st)
  /\ (forall stockLevel daysLeft,
        priceRules 70 stockLevel daysLeft
        = expiryAdjustment daysLeft (stockAdjustment stockLevel initialRuleState))
  /\ (forall demandScore stockLevel,
        priceRules demandScore stockLevel 6
        = stockAdjustment stockLevel (demandAdjustment demandScore initialRuleState))
  /\ (forall now p,
        PriceRecommendation.demand_score
          (fallbackRecommendation now (Product.with_demand_score (Some 70) p)) = 70)
  /\ (forall now p,
        PriceRecommendation.days_left
          (fallbackRecommendation now (Product.with_days_left (Some 2) p)) = 2
        /\ PriceRecommendation.days_left
             (fallbackRecommendation now (Product.with_days_left (Some 5) p)) = 5
        /\ PriceRecommendation.days_left
             (fallbackRecommendation now (Product.with_days_left (Some 6) p)) = 6)
  /\ (forall now p,
        let price := or_default (Product.current_price p) 25.0 in
        let others :=
          expiryAdjustment (or_default (Product.days_left p) 7)
            (stockAdjustment (or_default (Product.stock_level p) 100)
               initialRuleState) in
        let at70 := fallbackRecommendation now (Product.with_demand_score (Some 70) p) in
        let at30 := fallbackRecommendation now (Product.with_demand_score (Some 30) p) in
        PriceRecommendation.recommended_price at70
        = Math_round (price * fst others * 100) / 100
        /\ PriceRecommendation.recommendation_reason at70 = snd others
        /\ PriceRecommendation.recommended_price at30
           = Math_round (price * fst others * 100) / 100
        /\ PriceRecommendation.recommendation_reason at30 = snd others)
  /\ (forall now p,
        let price := or_default (Product.current_price p) 25.0 in
        let others st :=
          expiryAdjustment (or_default (Product.days_left p) 7)
            (stockAdjustment (or_default (Product.stock_level p) 100) st) in
        let above :=
          fallbackRecommendation now (Product.with_demand_score (Some (next_up 70)) p) in
        let below :=
          fallbackRecommendation now (Product.with_demand_score (Some (next_down 30)) p) in
        PriceRecommendation.recommended_price above
        = Math_round
            (price
             * fst (others (1.0 * 1.05,
                            "High demand detected - price increase recommended"))
             * 100) / 100
        /\ PriceRecommendation.recommended_price below
           = Math_round
               (price
                * fst (others (1.0 * 0.95,
                               "Low demand - price reduction to boost sales"))
                * 100) / 100)
  /\ (forall now p,
        let price := or_default (Product.current_price p) 25.0 in
        let before :=
          stockAdjustment (or_default (Product.stock_level p) 100)
            (demandAdjustment (or_default (Product.demand_score p) 50)
               initialRuleState) in
        let at2 := fallbackRecommendation now (Product.with_days_left (Some 2) p) in
        let at5 := fallbackRecommendation now (Product.with_days_left (Some 5) p) in
        let at6 := fallbackRecommendation now (Product.with_days_left (Some 6) p) in
        PriceRecommendation.recommended_price at2
        = Math_round (price * (fst before * 0.80) * 100) / 100
        /\ PriceRecommendation.recommendation_reason at2
           = "Product nearing expiry - urgent price reduction"
        /\ PriceRecommendation.recommended_price at5
           = Math_round (price * (fst before * 0.90) * 100) / 100
        /\ PriceRecommendation.recommendation_reason at5
           = "Product nearing expiry - price reduction to clear stock"
        /\ PriceRecommendation.recommended_price at6
           = Math_round (price * fst before * 100) / 100
        /\ PriceRecommendation.recommendation_reason at6 = snd before)
  /\ (forall now,
        let demand v := fallbackRecommendation now
                          (Product.with_demand_score (Some v) noProduct) in
        let days v := fallbackRecommendation now
                        (Product.with_days_left (Some v) noProduct) in
        let outcome r := (PriceRecommendation.recommended_price r,
                          PriceRecommendation.recommendation_reason r) in
        outcome (demand 70) = (25, "Current price is optimal")
        /\ outcome (demand (next_up 70))
           = (26.25, "High demand detected - price increase recommended")
        /\ outcome (demand 30) = (25, "Current price is optimal")
        /\ outcome (demand (next_down 30))
           = (23.75, "Low demand - price reduction to boost sales")
        /\ outcome (days 2)
           = (20, "Product nearing expiry - urgent price reduction")
        /\ outcome (days 5)
           = (22.5, "Product nearing expiry - price reduction to clear stock")
        /\ outcome (days 6) = (25, "Current price is optimal")).
Proof.
  repeat apply conj; intros.
  - destruct st; reflexivity.
  - destruct st; reflexivity.
  - reflexivity.
  - reflexivity.
  - reflexivity.
  - reflexivity.
  - destruct st; reflexivity.
  - reflexivity.
  - unfold priceRules.
    destruct (stockAdjustment stockLevel (demandAdjustment demandScore initialRuleState)).
    reflexivity.
  - unfold fallbackRecommendation. simpl.
    change (or_default (Some 70) 50) with 70.
    destruct (priceRules _ _ _). reflexivity.
  - unfold fallbackRecommendation. simpl.
    repeat apply conj;
      match goal with |- context [priceRules ?a ?b ?c] => destruct (priceRules a b c) end;
      reflexivity.
  - repeat match goal with x := _ |- _ => subst x end.
    unfold fallbackRecommendation, priceRules. cbv zeta.
    change (demandAdjustment
              (or_default (Product.demand_score
                             (Product.with_demand_score (Some 70) p)) 50)
              initialRuleState) with initialRuleState.
    change (demandAdjustment
              (or_default (Product.demand_score
                             (Product.with_demand_score (Some 30) p)) 50)
              initialRuleState) with initialRuleState.
    cbn [Product.with_demand_score Product.current_price Product.stock_level
         Product.days_left].
    destruct (expiryAdjustment _ _) as [m reason].
    repeat apply conj; reflexivity.
  - repeat match goal with x := _ |- _ => subst x end.
    unfold fallbackRecommendation, priceRules. cbv zeta.
    change (demandAdjustment
              (or_default (Product.demand_score
                             (Product.with_demand_score (Some (next_up 70)) p)) 50)
              initialRuleState)
      with (1.0 * 1.05, "High demand detected - price increase recommended").
    change (demandAdjustment
              (or_default (Product.demand_score
                             (Product.with_demand_score (Some (next_down 30)) p)) 50)
              initialRuleState)
      with (1.0 * 0.95, "Low demand - price reduction to boost sales").
    cbn [Product.with_demand_score Product.current_price Product.stock_level
         Product.days_left].
    split.
    + destruct (expiryAdjustment _ (stockAdjustment _ (1.0 * 1.05, _))) as [m reason].
      reflexivity.
    + destruct (expiryAdjustment _ (stockAdjustment _ (1.0 * 0.95, _))) as [m reason].
      reflexivity.
  - repeat match goal with x := _ |- _ => subst x end.
    unfold fallbackRecommendation, priceRules. cbv zeta.
    change (or_default (Product.days_left (Product.with_days_left (Some 2) p)) 7)
      with 2.
    change (or_default (Product.days_left (Product.with_days_left (Some 5) p)) 7)
      with 5.
    change (or_default (Product.days_left (Product.with_days_left (Some 6) p)) 7)
      with 6.
    cbn [Product.with_days_left Product.current_price Product.stock_level
         Product.demand_score].
    destruct (stockAdjustment _ _) as [m reason].
    repeat apply conj; reflexivity.
  - repeat match goal with x := _ |- _ => subst x end.
    repeat apply conj; vm_compute; reflexivity.
Qed.

(** C10: a contextual field that is [0] (or [-0], or [NaN]) is read as
    absent and replaced by its default: the recommendation is the one of
    the product without the field, and the one of the product carrying the
    default (25.0, 100, 50, 7).  In particular with [days_left = 0] the days
    left are 7 and no expiry adjustment is made, and with
    [current_price = 0] the current price is 25.0. *)
Theorem falsy_fields_take_defaults (now : JsDate.t) (p : Product.t) :
  Forall (fun z =>
     let absent f := fallbackRecommendation now (f None p) in
     let given f v := fallbackRecommendation now (f (Some v) p) in
     (given Product.with_current_price z = absent Product.with_current_price
      /\ given Product.with_current_price z = given Product.with_current_price 25.0)
     /\ (given Product.with_stock_level z = absent Product.with_stock_level
         /\ given Product.with_stock_level z = given Product.with_stock_level 100)
     /\ (given Product.with_demand_score z = absent Product.with_demand_score
         /\ given Product.with_demand_score z = given Product.with_demand_score 50)
     /\ (given Product.with_days_left z = absent Product.with_days_left
         /\ given Product.with_days_left z = given Product.with_days_left 7))
    falsyNumbers
  /\ PriceRecommendation.days_left
       (fallbackRecommendation now (Product.with_days_left (Some 0) p)) = 7
  /\ (forall demandScore stockLevel,
        priceRules demandScore stockLevel (or_default (Some 0) 7)
        = stockAdjustment stockLevel (demandAdjustment demandScore initialRuleState))
  /\ PriceRecommendation.current_price
       (fallbackRecommendation now (Product.with_current_price (Some 0) p)) = 25.0
  /\ (let r := fallbackRecommendation now
                 (Product.with_current_price (Some 0) noProduct) in
      PriceRecommendation.recommended_price r = 25.0
      /\ PriceRecommendation.recommendation_reason r = "Current price is optimal").
Proof.
  repeat apply conj.
  - unfold falsyNumbers.
    repeat (first [apply Forall_nil | apply Forall_cons]);
      cbv zeta; repeat apply conj; reflexivity.
  - unfold fallbackRecommendation. simpl.
    match goal with |- context [priceRules ?a ?b ?c] => destruct (priceRules a b c) end.
    reflexivity.
  - intros. change (or_default (Some 0) 7) with 7.
    unfold priceRules.
    destruct (stockAdjustment stockLevel (demandAdjustment demandScore initialRuleState)).
    reflexivity.
  - unfold fallbackRecommendation. simpl.
    match goal with |- context [priceRules ?a ?b ?c] => destruct (priceRules a b c) end.
    reflexivity.
  - vm_compute. reflexivity.
  - vm_compute. reflexivity.
Qed.

(** C6, as stated, fails: the engine stamps each recommendation with the
    clock ([created_at], [valid_until]), so two calls on the same product
    at different times differ. *)
Lemma fallback_output_depends_on_clock :
  ~ (forall (now1 now2 : JsDate.t) (p : Product.t),
       fallbackRecommendation now1 p = fallbackRecommendation now2 p).
Proof.
  intro H.
  specialize (H newYear nextDay noProduct).
  apply (f_equal PriceRecommendation.created_at) in H.
  vm_compute in H. discriminate H.
Qed.

(** C6, amended: the engine keeps no state, and two calls on the same
    product agree on every field that is not read from the clock; the
    creation time is the clock reading, the validity ends 24 hours later,
    and weekday and season come from the clock only when the product does
    not carry them. *)
Theorem fallback_deterministic_up_to_clock (now1 now2 : JsDate.t) (p : Product.t) :
  let r1 := fallbackRecommendation now1 p in
  let r2 := fallbackRecommendation now2 p in
  PriceRecommendation.product_id r1 = PriceRecommendation.product_id r2
  /\ PriceRecommendation.product_name r1 = PriceRecommendation.product_name r2
  /\ PriceRecommendation.category r1 = PriceRecommendation.category r2
  /\ PriceRecommendation.current_price r1 = PriceRecommendation.current_price r2
  /\ PriceRecommendation.recommended_price r1 = PriceRecommendation.recommended_price r2
  /\ PriceRecommendation.price_change_percentage r1
     = PriceRecommendation.price_change_percentage r2
  /\ PriceRecommendation.demand_score r1 = PriceRecommendation.demand_score r2
  /\ PriceRecommendation.stock_level r1 = PriceRecommendation.stock_level r2
  /\ PriceRecommendation.days_left r1 = PriceRecommendation.days_left r2
  /\ PriceRecommendation.confidence_score r1 = PriceRecommendation.confidence_score r2
  /\ PriceRecommendation.recommendation_reason r1
     = PriceRecommendation.recommendation_reason r2
  /\ PriceRecommendation.model_version r1 = PriceRecommendation.model_version r2
  /\ PriceRecommendation.is_applied r1 = PriceRecommendation.is_applied r2
  /\ PriceRecommendation.created_at r1 = JsDate.getTime now1
  /\ PriceRecommendation.valid_until r1 = (PriceRecommendation.created_at r1 + 86400000)%Z
  /\ PriceRecommendation.weekday r1
     = or_string (Product.weekday p) (JsDate.weekdayLong now1)
  /\ PriceRecommendation.season r1
     = or_string (Product.season p) (getCurrentSeason now1).
Proof.
  unfold fallbackRecommendation. cbv zeta.
  destruct (priceRules _ _ _) as [m reason]. simpl.
  repeat apply conj; reflexivity.
Qed.

(** C7, as stated, fails: a finite current price of [1e307] overflows when
    it is multiplied by 100 before rounding, and the recommended price is
    [Infinity]. *)
Lemma fallback_price_overflows :
  ~ (forall (now : JsDate.t) (p : Product.t),
       let r := fallbackRecommendation now p in
       is_finite (PriceRecommendation.recommended_price r) = true
       /\ is_finite (PriceRecommendation.price_change_percentage r) = true).
Proof.
  intro H.
  destruct (H newYear hugePrice) as [H1 _].
  vm_compute in H1. discriminate H1.
Qed.

Lemma fallback_prices_are_finite_witness :
  let r := fallbackRecommendation newYear (scenarioProduct noProduct) in
  is_finite (PriceRecommendation.recommended_price r) = true
  /\ is_finite (PriceRecommendation.price_change_percentage r) = true.
Proof.
  apply (fallback_prices_are_finite newYear (scenarioProduct noProduct)).
  reflexivity.
Defined.

(** * The routes: properties *)

Lemma pricing_settled_stays parse (w0 : Pricing.World) evs :
  forall w, settledLike w0 w -> settledLike w0 (Pricing.run parse evs w).
Proof.
  induction evs as [| ev evs IH]; intros w H; [exact H |].
  simpl. apply IH.
  destruct H as (Hl & Ht & Hp & Hr & Hs & Hm & Hi).
  destruct ev; simpl; rewrite ?Hl, ?Ht, ?Hp;
    repeat split; simpl; assumption.
Qed.

Lemma demand_settled_stays parse (w0 : Demand.World) evs :
  forall w, settledLike w0 w -> settledLike w0 (Demand.run parse evs w).
Proof.
  induction evs as [| ev evs IH]; intros w H; [exact H |].
  simpl. apply IH.
  destruct H as (Hl & Ht & Hp & Hr & Hs & Hm & Hi).
  destruct ev; simpl; rewrite ?Hl, ?Ht, ?Hp;
    repeat split; simpl; assumption.
Qed.

Lemma productsMissing_spec (products : JsValue) :
  (forall p ps, products <> JsArray (p :: ps)) -> productsMissing products = true.
Proof.
  intros H. destruct products as [| | b | x | s | | [| p ps]]; try reflexivity.
  - unfold productsMissing. simpl. destruct b; reflexivity.
  - unfold productsMissing. simpl. rewrite orb_true_r. reflexivity.
  - unfold productsMissing. simpl. rewrite orb_true_r. reflexivity.
  - destruct (H p ps eq_refl).
Qed.

(** C8: a batch request whose [products] is missing, is not an array, or
    is an empty array is answered 400 "Products array is required" by both
    routes; the mapping service is not called and no predictor process is
    started, whatever happens afterwards. *)
Theorem missing_products_rejected_without_predictor
    (mapProductInputs : list Product.t -> MappingRun)
    (parsePricing : string -> Settled (Prediction.t PriceRecommendation.t))
    (parseDemand : string -> Settled (Prediction.t DemandForecast.t))
    (clock : JsDate.t) (products : JsValue) (days : option float)
    (targets : option (list string)) (spawn : SpawnResult) (evs : list Event) :
  (forall p ps, products <> JsArray (p :: ps)) ->
  let wp := Pricing.run parsePricing evs
              (Pricing.recommend mapProductInputs clock products spawn) in
  let wd := Demand.run parseDemand evs
              (Demand.predict mapProductInputs clock products days targets spawn) in
  (Res.sent (res wp)
     = [Response.mk 400 (errorBody "Products array is required" None)]
   /\ spawned wp = [] /\ mappingCalls wp = 0%nat /\ inserted wp = [])
  /\ (Res.sent (res wd)
        = [Response.mk 400 (errorBody "Products array is required" None)]
      /\ spawned wd = [] /\ mappingCalls wd = 0%nat /\ inserted wd = []).
Proof.
  intros H wp wd.
  pose proof (productsMissing_spec products H) as Hm.
  split.
  - subst wp. unfold Pricing.recommend. rewrite Hm.
    match goal with |- context [Pricing.run _ _ ?w] =>
      destruct (pricing_settled_stays parsePricing w evs w) as (_ & _ & _ & Hr & Hs & Hc & Hi)
    end.
    { repeat split. }
    rewrite Hr, Hs, Hc, Hi. repeat split.
  - subst wd. unfold Demand.predict. rewrite Hm.
    match goal with |- context [Demand.run _ _ ?w] =>
      destruct (demand_settled_stays parseDemand w evs w) as (_ & _ & _ & Hr & Hs & Hc & Hi)
    end.
    { repeat split. }
    rewrite Hr, Hs, Hc, Hi. repeat split.
Qed.

Lemma missing_products_rejected_witness :
  let wp := Pricing.run neverParses [Close (Some 0%Z)]
              (Pricing.recommend neverMaps newYear (JsArray []) Spawned) in
  let wd := Demand.run neverParses [Close (Some 0%Z)]
              (Demand.predict neverMaps newYear (JsArray []) None None Spawned) in
  (Res.sent (res wp)
     = [Response.mk 400 (errorBody "Products array is required" None)]
   /\ spawned wp = [] /\ mappingCalls wp = 0%nat /\ inserted wp = [])
  /\ (Res.sent (res wd)
        = [Response.mk 400 (errorBody "Products array is required" None)]
      /\ spawned wd = [] /\ mappingCalls wd = 0%nat /\ inserted wd = []).
Proof.
  apply (missing_products_rejected_without_predictor
           neverMaps neverParses neverParses newYear (JsArray []) None None
           Spawned [Close (Some 0%Z)]).
  intros p ps E. discriminate E.
Defined.

(** C9, as stated, fails: when the mapping step fails, the
    demand-forecasting route answers 400, a client error. *)
Lemma demand_mapping_failure_is_client_error :
  ~ (forall (mapProductInputs : list Product.t -> MappingRun) clock products
            days targets spawn message,
       productsMissing products = false ->
       settles (mapProductInputs (arrayItems products)) = Rejected message ->
       forallb serverError
         (Res.sent (res (Demand.predict mapProductInputs clock products
                           days targets spawn))) = true).
Proof.
  intro H.
  specialize (H neverMaps newYear (JsArray [noProduct]) None None Spawned
                "catalog unreachable" eq_refl eq_refl).
  vm_compute in H. discriminate H.
Qed.

(** C9, amended: a failure of the mapping step is answered at once,
    without starting the predictor and with an error text of its own (not
    the one of an empty mapping result).  When the mapping rejects, the
    pricing route answers 500 "Failed to generate price recommendations",
    and the demand-forecasting route, if the rejection comes within its
    5000 ms, answers 400 "Product mapping failed", both with the message
    of the rejection.  When the mapping takes more than 5000 ms the
    demand-forecasting route answers 400 "Product mapping failed" with
    "Product mapping timeout", whether the mapping would reject or
    resolve. *)
Theorem mapping_failure_is_reported
    (mapProductInputs : list Product.t -> MappingRun)
    (clock : JsDate.t) (products : JsValue) (days : option float)
    (targets : option (list string)) (spawn : SpawnResult) :
  productsMissing products = false ->
  let mapping := mapProductInputs (arrayItems products) in
  let wp := Pricing.recommend mapProductInputs clock products spawn in
  let wd := Demand.predict mapProductInputs clock products days targets spawn in
  (forall message,
     settles mapping = Rejected message ->
     Res.sent (res wp)
       = [Response.mk 500
            (errorBody "Failed to generate price recommendations" (Some message))]
     /\ spawned wp = [] /\ pending wp = [] /\ inserted wp = []
     /\ Res.sent (res wp)
        <> [Response.mk 400 (errorBody "No valid products found after mapping" None)])
  /\ (forall message,
        settles mapping = Rejected message ->
        (after_ms mapping <= 5000)%Z ->
        Res.sent (res wd)
          = [Response.mk 400 (errorBody "Product mapping failed" (Some message))]
        /\ spawned wd = [] /\ pending wd = [] /\ inserted wd = []
        /\ Res.sent (res wd)
           <> [Response.mk 400
                 (errorBody "No valid products found after mapping" None)])
  /\ ((5000 < after_ms mapping)%Z ->
      Res.sent (res wd)
        = [Response.mk 400
             (errorBody "Product mapping failed" (Some "Product mapping timeout"))]
      /\ spawned wd = [] /\ pending wd = [] /\ inserted wd = []
      /\ Res.sent (res wd)
         <> [Response.mk 400 (errorBody "No valid products found after mapping" None)]).
Proof.
  intros Hm mapping wp wd.
  repeat apply conj.
  - intros message Hs.
    assert (Hp : Res.sent (res wp)
                 = [Response.mk 500
                      (errorBody "Failed to generate price recommendations"
                         (Some message))]
                 /\ spawned wp = [] /\ pending wp = [] /\ inserted wp = []).
    { subst wp. unfold Pricing.recommend. fold mapping. rewrite Hm, Hs.
      repeat apply conj; reflexivity. }
    destruct Hp as (Hp1 & Hp2 & Hp3 & Hp4).
    repeat apply conj; try assumption.
    rewrite Hp1. intro E. discriminate E.
  - intros message Hs Ht.
    assert (Hd : Res.sent (res wd)
                 = [Response.mk 400
                      (errorBody "Product mapping failed" (Some message))]
                 /\ spawned wd = [] /\ pending wd = [] /\ inserted wd = []).
    { subst wd. unfold Demand.predict, Demand.raceMapping. fold mapping.
      apply Z.leb_le in Ht. rewrite Hm, Ht, Hs.
      repeat apply conj; reflexivity. }
    destruct Hd as (Hd1 & Hd2 & Hd3 & Hd4).
    repeat apply conj; try assumption.
    rewrite Hd1. intro E. discriminate E.
  - intros Ht.
    assert (Hd : Res.sent (res wd)
                 = [Response.mk 400
                      (errorBody "Product mapping failed"
                         (Some "Product mapping timeout"))]
                 /\ spawned wd = [] /\ pending wd = [] /\ inserted wd = []).
    { subst wd. unfold Demand.predict, Demand.raceMapping. fold mapping.
      apply Z.leb_gt in Ht. rewrite Hm, Ht.
      repeat apply conj; reflexivity. }
    destruct Hd as (Hd1 & Hd2 & Hd3 & Hd4).
    repeat apply conj; try assumption.
    rewrite Hd1. intro E. discriminate E.
Qed.

Lemma mapping_failure_is_reported_witness :
  let wp := Pricing.recommend neverMaps newYear (JsArray [noProduct]) Spawned in
  let wd := Demand.predict neverMaps newYear (JsArray [noProduct]) None None Spawned in
  let wl := Demand.predict mapsLate newYear (JsArray [noProduct]) None None Spawned in
  Res.sent (res wp)
    = [Response.mk 500
         (errorBody "Failed to generate price recommendations"
            (Some "catalog unreachable"))]
  /\ spawned wp = [] /\ pending wp = [] /\ inserted wp = []
  /\ Res.sent (res wd)
     = [Response.mk 400 (errorBody "Product mapping failed" (Some "catalog unreachable"))]
  /\ spawned wd = [] /\ pending wd = [] /\ inserted wd = []
  /\ Res.sent (res wp)
     <> [Response.mk 400 (errorBody "No valid products found after mapping" None)]
  /\ Res.sent (res wd)
     <> [Response.mk 400 (errorBody "No valid products found after mapping" None)]
  /\ Res.sent (res wl)
     = [Response.mk 400
          (errorBody "Product mapping failed" (Some "Product mapping timeout"))]
  /\ spawned wl = [].
Proof.
  destruct (mapping_failure_is_reported neverMaps newYear (JsArray [noProduct])
              None None Spawned eq_refl) as (P & D & _).
  destruct (P "catalog unreachable" eq_refl) as (P1 & P2 & P3 & P4 & P5).
  destruct (D "catalog unreachable" eq_refl) as (D1 & D2 & D3 & D4 & D5).
  { simpl. lia. }
  destruct (mapping_failure_is_reported mapsLate newYear (JsArray [noProduct])
              None None Spawned eq_refl) as (_ & _ & L).
  destruct L as (L1 & L2 & _).
  { simpl. lia. }
  repeat apply conj; assumption.
Defined.

Lemma pricing_run_app parse evs1 evs2 w :
  Pricing.run parse (evs1 ++ evs2) w
  = Pricing.run parse evs2 (Pricing.run parse evs1 w).
Proof. apply fold_left_app. Qed.

Lemma demand_run_app parse evs1 evs2 w :
  Demand.run parse (evs1 ++ evs2) w
  = Demand.run parse evs2 (Demand.run parse evs1 w).
Proof. apply fold_left_app. Qed.

Lemma pricing_run_chatter parse evs :
  forallb chatter evs = true ->
  forall w, listening w = true -> Pricing.run parse evs w = afterChatter evs w.
Proof.
  induction evs as [| ev evs IH]; intros Hc w Hl.
  - destruct w; reflexivity.
  - simpl in Hc. apply andb_prop in Hc. destruct Hc as [Hev Hc].
    destruct ev; try discriminate Hev; simpl; rewrite ?Hl;
      rewrite (IH Hc) by exact Hl; reflexivity.
Qed.

Lemma demand_run_chatter parse evs :
  forallb chatter evs = true ->
  forall w, listening w = true -> Demand.run parse evs w = afterChatter evs w.
Proof.
  induction evs as [| ev evs IH]; intros Hc w Hl.
  - destruct w; reflexivity.
  - simpl in Hc. apply andb_prop in Hc. destruct Hc as [Hev Hc].
    destruct ev; try discriminate Hev; simpl; rewrite ?Hl;
      rewrite (IH Hc) by exact Hl; reflexivity.
Qed.

Lemma fallbackRecommendation_isFallback now p :
  isFallback (fallbackRecommendation now p).
Proof.
  unfold isFallback, fallbackRecommendation. cbv zeta.
  destruct (priceRules _ _ _). split; reflexivity.
Qed.

Lemma fallback_all_isFallback now ps :
  Forall isFallback (map (fallbackRecommendation now) ps).
Proof.
  induction ps as [| p ps IH]; simpl; constructor;
    [apply fallbackRecommendation_isFallback | exact IH].
Qed.

Lemma demand_answered_stays parse (w0 : Demand.World) evs :
  forall w, answeredLike w0 w -> answeredLike w0 (Demand.run parse evs w).
Proof.
  induction evs as [| ev evs IH]; intros w H; [exact H |].
  simpl. apply IH.
  destruct H as (Hh & Ht & Hp & Hr & Hi).
  destruct ev; simpl; rewrite ?Ht, ?Hp; try (repeat split; simpl; assumption).
  - destruct (listening w); repeat split; simpl; assumption.
  - destruct (listening w); repeat split; simpl; assumption.
  - destruct (listening w); [| repeat split; simpl; assumption].
    unfold Demand.onClose, alreadyAnswered. simpl. rewrite Hh, orb_true_r.
    repeat split; simpl; assumption.
  - destruct (listening w); [| repeat split; simpl; assumption].
    unfold Demand.onError, alreadyAnswered. simpl. rewrite Hh, orb_true_r.
    repeat split; simpl; assumption.
Qed.

Lemma pricing_answered_stays parse (w0 : Pricing.World) evs :
  forall w, answeredLike w0 w -> answeredLike w0 (Pricing.run parse evs w).
Proof.
  induction evs as [| ev evs IH]; intros w H; [exact H |].
  simpl. apply IH.
  destruct H as (Hh & Ht & Hp & Hr & Hi).
  destruct ev; simpl; rewrite ?Ht, ?Hp; try (repeat split; simpl; assumption).
  - destruct (listening w); repeat split; simpl; assumption.
  - destruct (listening w); repeat split; simpl; assumption.
  - destruct (listening w); [| repeat split; simpl; assumption].
    unfold Pricing.onClose, alreadyAnswered. simpl. rewrite Hh, orb_true_r.
    repeat split; simpl; assumption.
  - destruct (listening w); [| repeat split; simpl; assumption].
    unfold Pricing.onError, alreadyAnswered. simpl. rewrite Hh, orb_true_r.
    repeat split; simpl; assumption.
Qed.

Lemma demand_step_storedFromSuccess parse ev (w : Demand.World) :
  storedFromSuccess parse w -> storedFromSuccess parse (Demand.step parse ev w).
Proof.
  intros [Hi Hp].
  destruct ev; simpl.
  - split; assumption.
  - destruct (listening w); split; assumption.
  - destruct (listening w); split; assumption.
  - destruct (timerArmed w); [| split; assumption].
    unfold Demand.onTimeout. simpl.
    destruct (negb (Res.headersSent (res w))); [| split; assumption].
    unfold respond. simpl.
    destruct (Res.json _ _); split; assumption.
  - destruct (listening w); [| split; assumption].
    unfold Demand.onClose. simpl.
    destruct (alreadyAnswered _); [split; assumption |].
    destruct (nonZero code).
    { unfold respond. simpl. destruct (Res.json _ _); split; assumption. }
    destruct (parse (lastLine (outputData w))) as [prediction | message] eqn:E.
    2:{ unfold respond. simpl. destruct (Res.json _ _); split; assumption. }
    destruct (Prediction.success prediction) eqn:Es; simpl.
    2:{ unfold respond. simpl. destruct (Res.json _ _); split; assumption. }
    destruct (Prediction.items prediction).
    { unfold Demand.respondPrediction. simpl.
      destruct (Res.json _ _); split; assumption. }
    split; [assumption |]. simpl. intros k Hk.
    apply in_app_or in Hk. destruct Hk as [Hk | [<- | []]]; [auto |].
    split; [exists (outputData w); exact E | exact Es].
  - destruct (listening w); [| split; assumption].
    unfold Demand.onError. simpl.
    destruct (alreadyAnswered _); [split; assumption |].
    unfold respond. simpl. destruct (Res.json _ _); split; assumption.
  - destruct (pending w) as [| k ks] eqn:E;
      [split; [assumption | rewrite E; assumption] |].
    pose proof (Hp k (or_introl eq_refl)) as Hgood.
    assert (Hks : forall k', In k' ks -> successfulPayload parse k').
    { intros k' Hk'. apply Hp. right. exact Hk'. }
    simpl. unfold Demand.resume, Demand.respondPrediction.
    destruct ok; simpl; destruct (Res.json _ _); simpl; split; try assumption;
      intros batch Hb; apply in_app_or in Hb;
      (destruct Hb as [Hb | [<- | []]]; [auto | exists k; split; [assumption | reflexivity]]).
Qed.

Lemma demand_run_storedFromSuccess parse evs :
  forall w, storedFromSuccess parse w -> storedFromSuccess parse (Demand.run parse evs w).
Proof.
  induction evs as [| ev evs IH]; intros w H; [exact H |].
  simpl. apply IH. apply demand_step_storedFromSuccess. exact H.
Qed.

Lemma demand_predict_storedFromSuccess mapProductInputs parse clock products
    days targets spawn :
  storedFromSuccess parse
    (Demand.predict mapProductInputs clock products days targets spawn).
Proof.
  unfold Demand.predict.
  destruct (productsMissing products); [split; intros ? [] |].
  destruct (Demand.raceMapping _) as [[| p ps] | message];
    try (split; intros ? []).
  destruct spawn; split; intros ? [].
Qed.

Lemma demand_answer_is_final parse (w1 : Demand.World) later code b :
  Res.sent (res w1) = [Response.mk code b] ->
  Res.headersSent (res w1) = true -> timerArmed w1 = false ->
  pending w1 = [] -> inserted w1 = [] ->
  let w := Demand.run parse later w1 in
  Res.sent (res w) = [Response.mk code b] /\ inserted w = [] /\ pending w = [].
Proof.
  intros Hs Hh Ht Hp Hi w.
  destruct (demand_answered_stays parse w1 later w1) as (_ & _ & Hp' & Hr' & Hi').
  { repeat split; assumption. }
  subst w. rewrite Hr', Hi', Hp'. repeat split; assumption.
Qed.

(** C3: when the predictor does not end in clean success, the
    demand-forecasting route answers 500 with an error document (no note,
    no data), nothing waits on the store and no forecast is stored, whatever
    happens afterwards; and every batch of forecasts ever stored comes from
    a parsed payload whose [success] is truthy. *)
Theorem demand_failure_is_server_error
    (mapProductInputs : list Product.t -> MappingRun)
    (JSON_parse : string -> Settled (Prediction.t DemandForecast.t))
    (clock : JsDate.t) (products : JsValue) (days : option float)
    (targets : option (list string)) (spawn : SpawnResult)
    (mapped : list Product.t) (evs later : list Event) :
  productsMissing products = false ->
  Demand.raceMapping (mapProductInputs (arrayItems products)) = Resolved mapped ->
  mapped <> [] ->
  NotCleanSuccess JSON_parse spawn evs ->
  let w0 := Demand.predict mapProductInputs clock products days targets spawn in
  let w := Demand.run JSON_parse (evs ++ later) w0 in
  (exists b,
     Res.sent (res w) = [Response.mk 500 b]
     /\ Body.success b = false /\ Body.note b = None /\ Body.data b = None)
  /\ inserted w = [] /\ pending w = []
  /\ (forall any batch,
        In batch (inserted (Demand.run JSON_parse any w0)) ->
        exists prediction,
          successfulPayload JSON_parse prediction
          /\ batch = map Demand.processPrediction (Prediction.items prediction)).
Proof.
  intros Hm Hs Hne Hout w0 w.
  assert (Hstart : forall sp,
            Demand.predict mapProductInputs clock products days targets sp
            = match sp with
              | SpawnThrows message =>
                  respond 500
                    (errorBody "Failed to execute Python script" (Some message))
                    (set_products mapped (countMapping (init clock)))
              | Spawned =>
                  start {| operation := "predict_demand";
                           input_products := mapped;
                           forecast_days :=
                             Some (match days with Some d => d | None => 7 end);
                           cities := targets |}
                    (set_products mapped (countMapping (init clock)))
              end).
  { intros sp. unfold Demand.predict. rewrite Hm, Hs.
    destruct mapped; [contradiction |]. reflexivity. }
  assert (Hfinal : forall (w1 : Demand.World) b,
            Res.sent (res w1) = [Response.mk 500 b] ->
            Res.headersSent (res w1) = true -> timerArmed w1 = false ->
            pending w1 = [] -> inserted w1 = [] ->
            Body.success b = false -> Body.note b = None -> Body.data b = None ->
            (exists b,
               Res.sent (res (Demand.run JSON_parse later w1)) = [Response.mk 500 b]
               /\ Body.success b = false /\ Body.note b = None /\ Body.data b = None)
            /\ inserted (Demand.run JSON_parse later w1) = []
            /\ pending (Demand.run JSON_parse later w1) = []).
  { intros w1 b H1 H2 H3 H4 H5 H6 H7 H8.
    destruct (demand_answer_is_final JSON_parse w1 later 500 b H1 H2 H3 H4 H5)
      as (F1 & F2 & F3).
    split; [exists b; repeat split; assumption | split; assumption]. }
  assert (Hlast : forall any batch,
            In batch (inserted (Demand.run JSON_parse any w0)) ->
            exists prediction,
              successfulPayload JSON_parse prediction
              /\ batch = map Demand.processPrediction (Prediction.items prediction)).
  { intros any. apply demand_run_storedFromSuccess.
    apply demand_predict_storedFromSuccess. }
  cut ((exists b,
          Res.sent (res w) = [Response.mk 500 b]
          /\ Body.success b = false /\ Body.note b = None /\ Body.data b = None)
       /\ inserted w = [] /\ pending w = []).
  { intros (A & B & C). repeat split; assumption. }
  clear Hlast. subst w w0. rewrite demand_run_app.
  destruct Hout as [message | before message Hc | before Hc | before code Hc Hcode
                   | before message Hc Hp | before prediction Hc Hp Hfail];
    rewrite Hstart; try rewrite demand_run_app;
    try (rewrite (demand_run_chatter JSON_parse before Hc) by reflexivity).
  - simpl. eapply Hfinal; simpl; reflexivity.
  - simpl. unfold Demand.onError. simpl. eapply Hfinal; simpl; reflexivity.
  - simpl. unfold Demand.onTimeout. simpl. eapply Hfinal; simpl; reflexivity.
  - simpl. unfold Demand.onClose. simpl. rewrite Hcode. simpl.
    eapply Hfinal; simpl; reflexivity.
  - simpl. unfold Demand.onClose. simpl. rewrite Hp. simpl.
    eapply Hfinal; simpl; reflexivity.
  - simpl. unfold Demand.onClose. simpl. rewrite Hp, Hfail. simpl.
    eapply Hfinal; simpl; reflexivity.
Qed.

Lemma demand_failure_is_server_error_witness :
  let w0 := Demand.predict mapsAll newYear (JsArray [noProduct]) None None Spawned in
  let w := Demand.run neverParses
             (([StdoutData "Traceback"] ++ [Close (Some 1%Z)]) ++ [Close (Some 0%Z)]) w0 in
  (exists b,
     Res.sent (res w) = [Response.mk 500 b]
     /\ Body.success b = false /\ Body.note b = None /\ Body.data b = None)
  /\ inserted w = [] /\ pending w = []
  /\ (forall any batch,
        In batch (inserted (Demand.run neverParses any w0)) ->
        exists prediction,
          successfulPayload neverParses prediction
          /\ batch = map Demand.processPrediction (Prediction.items prediction)).
Proof.
  apply (demand_failure_is_server_error mapsAll neverParses newYear
           (JsArray [noProduct]) None None Spawned [noProduct]
           ([StdoutData "Traceback"] ++ [Close (Some 1%Z)]) [Close (Some 0%Z)]).
  - reflexivity.
  - reflexivity.
  - intro E. discriminate E.
  - apply (nonzero_exit neverParses [StdoutData "Traceback"] (Some 1%Z)); reflexivity.
Defined.

(** ** One response per invocation *)


Lemma pricing_step_guarded parse ev (w : Pricing.World) :
  guarded w -> guarded (Pricing.step parse ev w).
Proof.
  intros H. destruct w as [? ? ? ? li ? ? ? rt ta ? [hs sc snt] ? pe ?].
  destruct ev; simpl.
  - finish_guarded.
  - destruct li; finish_guarded.
  - destruct li; finish_guarded.
  - destruct ta; [| exact H].
    unfold Pricing.onTimeout. simpl. destruct hs; simpl; finish_guarded.
  - destruct li; [| exact H].
    unfold Pricing.onClose, alreadyAnswered. simpl.
    destruct rt; simpl; [finish_guarded |].
    destruct hs; simpl; [finish_guarded |].
    destruct (nonZero code); [finish_guarded |].
    destruct (parse _) as [prediction | message]; [| finish_guarded].
    destruct (Prediction.success prediction); simpl; [| finish_guarded].
    destruct (Prediction.items prediction); [| finish_guarded].
    unfold Pricing.respondPrediction. simpl. finish_guarded.
  - destruct li; [| exact H].
    unfold Pricing.onError, alreadyAnswered. simpl.
    destruct rt; simpl; [finish_guarded |].
    destruct hs; simpl; finish_guarded.
  - destruct pe as [| k ks]; [exact H |].
    destruct k as [recs | prediction]; simpl;
      unfold Pricing.fallbackRespond, Pricing.respondPrediction, Res.json;
      destruct ok; simpl; destruct hs; simpl; finish_guarded.
Qed.

Lemma demand_step_guarded parse ev (w : Demand.World) :
  guarded w -> guarded (Demand.step parse ev w).
Proof.
  intros H. destruct w as [? ? ? ? li ? ? ? rt ta ? [hs sc snt] ? pe ?].
  destruct ev; simpl.
  - finish_guarded.
  - destruct li; finish_guarded.
  - destruct li; finish_guarded.
  - destruct ta; [| exact H].
    unfold Demand.onTimeout. simpl. destruct hs; simpl; finish_guarded.
  - destruct li; [| exact H].
    unfold Demand.onClose, alreadyAnswered. simpl.
    destruct rt; simpl; [finish_guarded |].
    destruct hs; simpl; [finish_guarded |].
    destruct (nonZero code); [finish_guarded |].
    destruct (parse _) as [prediction | message]; [| finish_guarded].
    destruct (Prediction.success prediction); simpl; [| finish_guarded].
    destruct (Prediction.items prediction); [| finish_guarded].
    unfold Demand.respondPrediction. simpl. finish_guarded.
  - destruct li; [| exact H].
    unfold Demand.onError, alreadyAnswered. simpl.
    destruct rt; simpl; [finish_guarded |].
    destruct hs; simpl; finish_guarded.
  - destruct pe as [| k ks]; [exact H |].
    unfold Demand.resume, Demand.respondPrediction, Res.json;
      destruct ok; simpl; destruct hs; simpl; finish_guarded.
Qed.

Lemma pricing_run_guarded parse evs :
  forall w : Pricing.World, guarded w -> guarded (Pricing.run parse evs w).
Proof.
  induction evs as [| ev evs IH]; intros w H; [exact H |].
  simpl. apply IH. apply pricing_step_guarded. exact H.
Qed.

Lemma demand_run_guarded parse evs :
  forall w : Demand.World, guarded w -> guarded (Demand.run parse evs w).
Proof.
  induction evs as [| ev evs IH]; intros w H; [exact H |].
  simpl. apply IH. apply demand_step_guarded. exact H.
Qed.

Lemma started_guarded {Doc K : Type} clock ps i : guarded (@started Doc K clock ps i).
Proof.
  unfold guarded, resOK. simpl. repeat apply conj.
  - left. split; reflexivity.
  - intro E. discriminate E.
  - intro E. discriminate E.
Qed.

Lemma guarded_counts {Doc K : Type} (w : World.t Doc K) :
  guarded w ->
  (List.length (Res.sent (res w)) <= 1)%nat
  /\ (timerArmed w = false -> pending w = [] ->
      List.length (Res.sent (res w)) = 1%nat).
Proof.
  intros ([[Hh Hs] | [Hh Hs]] & _ & Hd).
  - rewrite Hs. split; [simpl; lia |].
    intros Ht Hp. destruct (Hd Ht) as [E | E]; [congruence | contradiction].
  - rewrite Hs. split; [lia | reflexivity].
Qed.

(** After the deadline has fired, the [close] and [error] handlers return
    at their guard. *)
Lemma pricing_timedOut_ignores parse ev (w : Pricing.World) :
  timedOut w -> processEvent ev = true -> Pricing.step parse ev w = w.
Proof.
  intros [Hr Ht] He.
  destruct w as [? ? ? ? li ? ? ? rt ta ? r ? ? ?]. simpl in *. subst rt ta.
  destruct ev; try discriminate He; simpl; destruct li; reflexivity.
Qed.

Lemma demand_timedOut_ignores parse ev (w : Demand.World) :
  timedOut w -> processEvent ev = true -> Demand.step parse ev w = w.
Proof.
  intros [Hr Ht] He.
  destruct w as [? ? ? ? li ? ? ? rt ta ? r ? ? ?]. simpl in *. subst rt ta.
  destruct ev; try discriminate He; simpl; destruct li; reflexivity.
Qed.

Lemma pricing_step_timedOut parse ev (w : Pricing.World) :
  timedOut w -> timedOut (Pricing.step parse ev w).
Proof.
  intros [Hr Ht].
  destruct (processEvent ev) eqn:He.
  { rewrite pricing_timedOut_ignores by (try split; assumption). split; assumption. }
  destruct ev; try discriminate He; simpl.
  - split; assumption.
  - destruct (listening w); split; assumption.
  - destruct (listening w); split; assumption.
  - rewrite Ht. split; assumption.
  - destruct (pending w) as [| k ks]; [split; assumption |].
    destruct k; simpl;
      unfold Pricing.fallbackRespond, Pricing.respondPrediction; destruct ok; simpl;
      destruct (Res.json _ _); split; assumption.
Qed.

Lemma demand_step_timedOut parse ev (w : Demand.World) :
  timedOut w -> timedOut (Demand.step parse ev w).
Proof.
  intros [Hr Ht].
  destruct (processEvent ev) eqn:He.
  { rewrite demand_timedOut_ignores by (try split; assumption). split; assumption. }
  destruct ev; try discriminate He; simpl.
  - split; assumption.
  - destruct (listening w); split; assumption.
  - destruct (listening w); split; assumption.
  - rewrite Ht. split; assumption.
  - destruct (pending w) as [| k ks]; [split; assumption |].
    unfold Demand.resume, Demand.respondPrediction; destruct ok; simpl;
      destruct (Res.json _ _); split; assumption.
Qed.

Lemma pricing_run_timedOut parse evs :
  forall w : Pricing.World, timedOut w -> timedOut (Pricing.run parse evs w).
Proof.
  induction evs as [| ev evs IH]; intros w H; [exact H |].
  simpl. apply IH. apply pricing_step_timedOut. exact H.
Qed.

Lemma demand_run_timedOut parse evs :
  forall w : Demand.World, timedOut w -> timedOut (Demand.run parse evs w).
Proof.
  induction evs as [| ev evs IH]; intros w H; [exact H |].
  simpl. apply IH. apply demand_step_timedOut. exact H.
Qed.

(** Nothing arms the timer again. *)
Lemma pricing_step_disarmed parse ev (w : Pricing.World) :
  timerArmed w = false -> timerArmed (Pricing.step parse ev w) = false.
Proof.
  intros Ht.
  destruct w as [? ? ? ? li ? ? ? rt ta ? r ? pe ?]. simpl in Ht. subst ta.
  destruct ev; simpl; try reflexivity.
  - destruct li; reflexivity.
  - destruct li; reflexivity.
  - destruct li; [| reflexivity].
    unfold Pricing.onClose. simpl.
    repeat match goal with
           | |- context [if ?c then _ else _] => destruct c
           | |- context [match ?c with Resolved _ => _ | Rejected _ => _ end] => destruct c
           | |- context [match ?c with [] => _ | _ :: _ => _ end] => destruct c
           end; try reflexivity.
    unfold Pricing.respondPrediction. simpl. destruct (Res.json _ _); reflexivity.
  - destruct li; [| reflexivity].
    unfold Pricing.onError. simpl. destruct (alreadyAnswered _); reflexivity.
  - destruct pe as [| k ks]; [reflexivity |].
    destruct k; simpl;
      unfold Pricing.fallbackRespond, Pricing.respondPrediction; destruct ok; simpl;
      destruct (Res.json _ _); reflexivity.
Qed.

Lemma demand_step_disarmed parse ev (w : Demand.World) :
  timerArmed w = false -> timerArmed (Demand.step parse ev w) = false.
Proof.
  intros Ht.
  destruct w as [? ? ? ? li ? ? ? rt ta ? r ? pe ?]. simpl in Ht. subst ta.
  destruct ev; simpl; try reflexivity.
  - destruct li; reflexivity.
  - destruct li; reflexivity.
  - destruct li; [| reflexivity].
    unfold Demand.onClose, respond. simpl.
    repeat match goal with
           | |- context [if ?c then _ else _] => destruct c
           | |- context [match ?c with Resolved _ => _ | Rejected _ => _ end] => destruct c
           | |- context [match ?c with [] => _ | _ :: _ => _ end] => destruct c
           | |- context [match ?c with Some _ => _ | None => _ end] => destruct c
           end; try reflexivity.
    unfold Demand.respondPrediction. simpl. destruct (Res.json _ _); reflexivity.
  - destruct li; [| reflexivity].
    unfold Demand.onError, respond. simpl.
    destruct (alreadyAnswered _); [reflexivity |].
    destruct (Res.json _ _); reflexivity.
  - destruct pe as [| k ks]; [reflexivity |].
    unfold Demand.resume, Demand.respondPrediction; destruct ok; simpl;
      destruct (Res.json _ _); reflexivity.
Qed.

Lemma pricing_run_disarmed parse evs :
  forall w : Pricing.World,
    timerArmed w = false -> timerArmed (Pricing.run parse evs w) = false.
Proof.
  induction evs as [| ev evs IH]; intros w H; [exact H |].
  simpl. apply IH. apply pricing_step_disarmed. exact H.
Qed.

Lemma demand_run_disarmed parse evs :
  forall w : Demand.World,
    timerArmed w = false -> timerArmed (Demand.run parse evs w) = false.
Proof.
  induction evs as [| ev evs IH]; intros w H; [exact H |].
  simpl. apply IH. apply demand_step_disarmed. exact H.
Qed.

(** The listeners stay registered, and a [close] or [error] handler
    clears the timer before anything else. *)
Lemma pricing_step_listening parse ev (w : Pricing.World) :
  listening w = true -> listening (Pricing.step parse ev w) = true.
Proof.
  intros Hl.
  destruct w as [? ? ? ? li ? ? ? rt ta ? r ? pe ?]. simpl in Hl. subst li.
  destruct ev; simpl; try reflexivity.
  - destruct ta; [| reflexivity].
    unfold Pricing.onTimeout. simpl. destruct (negb _); reflexivity.
  - unfold Pricing.onClose. simpl.
    repeat match goal with
           | |- context [if ?c then _ else _] => destruct c
           | |- context [match ?c with Resolved _ => _ | Rejected _ => _ end] => destruct c
           | |- context [match ?c with [] => _ | _ :: _ => _ end] => destruct c
           end; try reflexivity.
    unfold Pricing.respondPrediction. simpl. destruct (Res.json _ _); reflexivity.
  - unfold Pricing.onError. simpl. destruct (alreadyAnswered _); reflexivity.
  - destruct pe as [| k ks]; [reflexivity |].
    destruct k; simpl;
      unfold Pricing.fallbackRespond, Pricing.respondPrediction; destruct ok; simpl;
      destruct (Res.json _ _); reflexivity.
Qed.

Lemma demand_step_listening parse ev (w : Demand.World) :
  listening w = true -> listening (Demand.step parse ev w) = true.
Proof.
  intros Hl.
  destruct w as [? ? ? ? li ? ? ? rt ta ? r ? pe ?]. simpl in Hl. subst li.
  destruct ev; simpl; try reflexivity.
  - destruct ta; [| reflexivity].
    unfold Demand.onTimeout, respond. simpl.
    destruct (negb _); [| reflexivity]. destruct (Res.json _ _); reflexivity.
  - unfold Demand.onClose, respond. simpl.
    repeat match goal with
           | |- context [if ?c then _ else _] => destruct c
           | |- context [match ?c with Resolved _ => _ | Rejected _ => _ end] => destruct c
           | |- context [match ?c with [] => _ | _ :: _ => _ end] => destruct c
           | |- context [match ?c with Some _ => _ | None => _ end] => destruct c
           end; try reflexivity.
    unfold Demand.respondPrediction. simpl. destruct (Res.json _ _); reflexivity.
  - unfold Demand.onError, respond. simpl.
    destruct (alreadyAnswered _); [reflexivity |].
    destruct (Res.json _ _); reflexivity.
  - destruct pe as [| k ks]; [reflexivity |].
    unfold Demand.resume, Demand.respondPrediction; destruct ok; simpl;
      destruct (Res.json _ _); reflexivity.
Qed.

Lemma pricing_run_listening parse evs :
  forall w : Pricing.World,
    listening w = true -> listening (Pricing.run parse evs w) = true.
Proof.
  induction evs as [| ev evs IH]; intros w H; [exact H |].
  simpl. apply IH. apply pricing_step_listening. exact H.
Qed.

Lemma demand_run_listening parse evs :
  forall w : Demand.World,
    listening w = true -> listening (Demand.run parse evs w) = true.
Proof.
  induction evs as [| ev evs IH]; intros w H; [exact H |].
  simpl. apply IH. apply demand_step_listening. exact H.
Qed.

Lemma pricing_process_event_disarms parse ev (w : Pricing.World) :
  listening w = true -> processEvent ev = true ->
  timerArmed (Pricing.step parse ev w) = false.
Proof.
  intros Hl He. rewrite <- (pricing_step_disarmed parse ev (clearTimeout w) eq_refl).
  destruct ev; try discriminate He; simpl; rewrite Hl; reflexivity.
Qed.

Lemma demand_process_event_disarms parse ev (w : Demand.World) :
  listening w = true -> processEvent ev = true ->
  timerArmed (Demand.step parse ev w) = false.
Proof.
  intros Hl He. rewrite <- (demand_step_disarmed parse ev (clearTimeout w) eq_refl).
  destruct ev; try discriminate He; simpl; rewrite Hl; reflexivity.
Qed.

(** The pricing route between the deadline and the store: the fallback
    answer is sent when the store settles, and by nothing else. *)
Lemma pricing_waiting_for_store parse recs later :
  forall w : Pricing.World,
    timedOut w -> res w = Res.fresh ->
    pending w = [Pricing.InsertThenFallback recs] ->
    Res.sent (res (Pricing.run parse later w))
    = if existsb storeSettles later
      then [Response.mk 200 (Pricing.fallbackBody recs)]
      else [].
Proof.
  induction later as [| ev later IH]; intros w Ht Hr Hp.
  - simpl. rewrite Hr. reflexivity.
  - simpl Pricing.run. simpl existsb.
    destruct (processEvent ev) eqn:He.
    { rewrite (pricing_timedOut_ignores parse ev w Ht He).
      replace (storeSettles ev) with false by (destruct ev; try discriminate He; reflexivity).
      apply IH; assumption. }
    destruct ev; try discriminate He; simpl storeSettles; simpl orb.
    + apply IH; simpl; first [exact Hr | exact Hp | exact Ht].
    + apply IH; simpl; destruct (listening w); simpl;
        first [exact Hr | exact Hp | exact Ht].
    + apply IH; simpl; destruct (listening w); simpl;
        first [exact Hr | exact Hp | exact Ht].
    + simpl. destruct Ht as [Ht1 Ht2]. rewrite Ht2.
      apply IH; [split; assumption | assumption | assumption].
    + simpl. rewrite Hp. simpl.
      match goal with |- context [Pricing.run parse later ?w1] =>
        destruct (pricing_answered_stays parse w1 later w1) as (_ & _ & _ & Hr' & _)
      end.
      { unfold Pricing.fallbackRespond.
        destruct ok; simpl; rewrite Hr; simpl;
          repeat split; destruct Ht; assumption. }
      rewrite Hr'. unfold Pricing.fallbackRespond.
      destruct ok; simpl; rewrite Hr; reflexivity.
Qed.

(** C1: one response per invocation of the predictor, in both routes.
    Whatever events follow the start of the process, in whatever order, at
    most one response is sent, and exactly one once a handler has run and
    nothing waits on the store.  When the deadline fires first, a later
    [close] or [error] handler leaves the request as it is, and the only
    response is the one of the deadline: the 500 "Model prediction timeout"
    of the demand route at once, the fallback answer of the pricing route
    when the store settles.  When [close] or [error] comes first, the
    deadline is disarmed and never acts. *)
Theorem one_response_per_invocation
    (parsePricing : string -> Settled (Prediction.t PriceRecommendation.t))
    (parseDemand : string -> Settled (Prediction.t DemandForecast.t))
    (clock : JsDate.t) (ps : list Product.t) (i : Invocation) :
  let wp0 : Pricing.World := started clock ps i in
  let wd0 : Demand.World := started clock ps i in
  (forall evs,
     let w := Pricing.run parsePricing evs wp0 in
     (List.length (Res.sent (res w)) <= 1)%nat
     /\ (timerArmed w = false -> pending w = [] ->
         List.length (Res.sent (res w)) = 1%nat))
  /\ (forall evs,
        let w := Demand.run parseDemand evs wd0 in
        (List.length (Res.sent (res w)) <= 1)%nat
        /\ (timerArmed w = false -> pending w = [] ->
            List.length (Res.sent (res w)) = 1%nat))
  /\ (forall before later ev,
        forallb chatter before = true -> processEvent ev = true ->
        let w := Pricing.run parsePricing (before ++ [TimerFires] ++ later) wp0 in
        Pricing.step parsePricing ev w = w)
  /\ (forall before later ev,
        forallb chatter before = true -> processEvent ev = true ->
        let w := Demand.run parseDemand (before ++ [TimerFires] ++ later) wd0 in
        Demand.step parseDemand ev w = w)
  /\ (forall before later,
        forallb chatter before = true ->
        Res.sent (res (Pricing.run parsePricing (before ++ [TimerFires] ++ later) wp0))
        = if existsb storeSettles later
          then [Response.mk 200
                  (Pricing.fallbackBody
                     (map (fallbackRecommendation (clockAfter clock before)) ps))]
          else [])
  /\ (forall before later,
        forallb chatter before = true ->
        Res.sent (res (Demand.run parseDemand (before ++ [TimerFires] ++ later) wd0))
        = [Response.mk 500 (Demand.timeoutBody (afterChatter before wd0))])
  /\ (forall before later ev,
        processEvent ev = true ->
        let w := Pricing.run parsePricing (before ++ [ev] ++ later) wp0 in
        Pricing.step parsePricing TimerFires w = w)
  /\ (forall before later ev,
        processEvent ev = true ->
        let w := Demand.run parseDemand (before ++ [ev] ++ later) wd0 in
        Demand.step parseDemand TimerFires w = w).
Proof.
  intros wp0 wd0.
  assert (Tp : forall before, forallb chatter before = true ->
             timedOut (Pricing.run parsePricing (before ++ [TimerFires]) wp0)
             /\ res (Pricing.run parsePricing (before ++ [TimerFires]) wp0) = Res.fresh
             /\ pending (Pricing.run parsePricing (before ++ [TimerFires]) wp0)
                = [Pricing.InsertThenFallback
                     (map (fallbackRecommendation (clockAfter clock before)) ps)]).
  { intros before Hc. rewrite pricing_run_app.
    rewrite (pricing_run_chatter parsePricing before Hc) by reflexivity.
    repeat split. }
  assert (Td : forall before, forallb chatter before = true ->
             timedOut (Demand.run parseDemand (before ++ [TimerFires]) wd0)
             /\ answeredLike (Demand.run parseDemand (before ++ [TimerFires]) wd0)
                  (Demand.run parseDemand (before ++ [TimerFires]) wd0)
             /\ Res.sent (res (Demand.run parseDemand (before ++ [TimerFires]) wd0))
                = [Response.mk 500 (Demand.timeoutBody (afterChatter before wd0))]).
  { intros before Hc. rewrite demand_run_app.
    rewrite (demand_run_chatter parseDemand before Hc) by reflexivity.
    repeat split. }
  repeat apply conj.
  - intros evs w. apply guarded_counts. apply pricing_run_guarded.
    apply started_guarded.
  - intros evs w. apply guarded_counts. apply demand_run_guarded.
    apply started_guarded.
  - intros before later ev Hc He w. subst w.
    apply pricing_timedOut_ignores; [| exact He].
    rewrite app_assoc, pricing_run_app. apply pricing_run_timedOut.
    apply (Tp before Hc).
  - intros before later ev Hc He w. subst w.
    apply demand_timedOut_ignores; [| exact He].
    rewrite app_assoc, demand_run_app. apply demand_run_timedOut.
    apply (Td before Hc).
  - intros before later Hc.
    rewrite app_assoc, pricing_run_app.
    destruct (Tp before Hc) as (T1 & T2 & T3).
    apply pricing_waiting_for_store; assumption.
  - intros before later Hc.
    rewrite app_assoc, demand_run_app.
    destruct (Td before Hc) as (T1 & T2 & T3).
    destruct (demand_answered_stays parseDemand _ later _ T2) as (_ & _ & _ & Hr & _).
    rewrite Hr. exact T3.
  - intros before later ev He w.
    assert (Hd : timerArmed w = false).
    { subst w. rewrite app_assoc, pricing_run_app. apply pricing_run_disarmed.
      rewrite pricing_run_app. simpl.
      apply pricing_process_event_disarms; [| exact He].
      apply pricing_run_listening. reflexivity. }
    simpl. rewrite Hd. reflexivity.
  - intros before later ev He w.
    assert (Hd : timerArmed w = false).
    { subst w. rewrite app_assoc, demand_run_app. apply demand_run_disarmed.
      rewrite demand_run_app. simpl.
      apply demand_process_event_disarms; [| exact He].
      apply demand_run_listening. reflexivity. }
    simpl. rewrite Hd. reflexivity.
Qed.

Lemma one_response_per_invocation_witness :
  let wp : Pricing.World :=
    Pricing.run neverParses
      ([StdoutData "warming up"] ++ [TimerFires] ++ [InsertSettles true])
      (started newYear [noProduct] pricingCall) in
  let wd : Demand.World :=
    Demand.run neverParses
      ([StdoutData "warming up"] ++ [TimerFires] ++ [Tick nextDay])
      (started newYear [noProduct] pricingCall) in
  Pricing.step neverParses (Close None) wp = wp
  /\ Demand.step neverParses (ProcessError "kill EPERM") wd = wd
  /\ List.length (Res.sent (res wp)) = 1%nat
  /\ List.length (Res.sent (res wd)) = 1%nat.
Proof.
  destruct (one_response_per_invocation neverParses neverParses newYear
              [noProduct] pricingCall) as (A & B & C & D & _).
  repeat apply conj.
  - apply (C [StdoutData "warming up"] [InsertSettles true] (Close None));
      reflexivity.
  - apply (D [StdoutData "warming up"] [Tick nextDay] (ProcessError "kill EPERM"));
      reflexivity.
  - apply (proj2 (A ([StdoutData "warming up"] ++ [TimerFires]
                        ++ [InsertSettles true])%list)); reflexivity.
  - apply (proj2 (B ([StdoutData "warming up"] ++ [TimerFires]
                        ++ [Tick nextDay])%list)); reflexivity.
Defined.

(** Outside the race with the deadline the guard of the pricing route does
    not separate [error] from [close]: the fallback answers only after the
    store has settled, so a [close] that follows an [error] before that
    passes the guard too.  The fallback then runs and stores twice; the
    second [res.json] throws, and so does the [catch] around it. *)
Remark pricing_error_then_close_runs_fallback_twice :
  let w : Pricing.World :=
    Pricing.run neverParses
      [ProcessError "spawn python ENOENT"; Close (Some (-2)%Z);
       InsertSettles true; InsertSettles true]
      (started newYear [noProduct] pricingCall) in
  List.length (inserted w) = 2%nat
  /\ List.length (Res.sent (res w)) = 1%nat
  /\ unhandledRejections w = 1%nat.
Proof. repeat apply conj; reflexivity. Qed.

(** ** The pricing route after a failed invocation *)

Lemma fallbackBody_is_answer recs :
  Forall isFallback recs ->
  fallbackAnswer (List.length recs) (Response.mk 200 (Pricing.fallbackBody recs)).
Proof.
  intros H. unfold fallbackAnswer. simpl.
  split; [reflexivity |]. split; [reflexivity |]. split; [reflexivity |].
  exists recs. split; [reflexivity |]. split; [exact H | reflexivity].
Qed.

Lemma generateFallback_fallingBack n (w : Pricing.World) :
  fallingBack n w ->
  fallingBack n (Pricing.generateFallbackRecommendations (products w) w).
Proof.
  intros (Hn & Hs & Hr & Hp & Hi).
  unfold Pricing.generateFallbackRecommendations.
  split; [exact Hn |]. split; [exact Hs |]. split; [exact Hr |].
  split; [| exact Hi].
  simpl. intros k Hk. apply in_app_or in Hk. destruct Hk as [Hk | [<- | []]]; [auto |].
  eexists. split; [reflexivity |]. split.
  - apply fallback_all_isFallback.
  - rewrite length_map. exact Hn.
Qed.

Lemma pricing_step_fallingBack parse n ev (w : Pricing.World) :
  allowedAfterFailure ev = true ->
  fallingBack n w -> fallingBack n (Pricing.step parse ev w).
Proof.
  intros Hev H.
  destruct ev; simpl in Hev; simpl.
  - exact H.
  - destruct (listening w); exact H.
  - destruct (listening w); exact H.
  - destruct (timerArmed w); [| exact H].
    unfold Pricing.onTimeout. simpl.
    destruct (negb (Res.headersSent (res w))); [| exact H].
    apply (generateFallback_fallingBack n (timeoutAndKill "SIGTERM" (clearTimeout w))).
    exact H.
  - destruct (listening w); [| exact H].
    unfold Pricing.onClose. simpl.
    destruct (alreadyAnswered _); [exact H |].
    rewrite Hev.
    apply (generateFallback_fallingBack n (clearTimeout w)). exact H.
  - destruct (listening w); [| exact H].
    unfold Pricing.onError. simpl.
    destruct (alreadyAnswered _); [exact H |].
    apply (generateFallback_fallingBack n (clearTimeout w)). exact H.
  - destruct (pending w) as [| k ks] eqn:Ep; [exact H |].
    destruct H as (Hn & Hs & Hr & Hp & Hi).
    rewrite Ep in Hp.
    destruct (Hp k (or_introl eq_refl)) as (recs & -> & Hf & Hl).
    assert (Hks : forall k', In k' ks ->
              exists recommendations,
                k' = Pricing.InsertThenFallback recommendations
                /\ Forall isFallback recommendations
                /\ List.length recommendations = n).
    { intros k' Hk'. apply Hp. right. exact Hk'. }
    assert (Hi' : forall batch,
              In batch (if ok then (inserted w ++ [recs])%list else inserted w) ->
              Forall isFallback batch /\ List.length batch = n).
    { intros batch Hb. destruct ok; [| auto].
      apply in_app_or in Hb. destruct Hb as [Hb | [<- | []]]; auto. }
    unfold Pricing.resume, Pricing.fallbackRespond, Res.json.
    destruct (Res.headersSent (res w)) eqn:Eh.
    + destruct ok; simpl; rewrite Eh; simpl;
        (split; [exact Hn |]; split; [intro E; first [discriminate E | simpl in E; rewrite Eh in E; discriminate E] |];
         split; [exact Hr |]; split; [exact Hks | exact Hi']).
    + pose proof (Hs eq_refl) as Hc.
      assert (Hr' : forall r,
                In r (Res.sent (res w)
                        ++ [Response.mk (Res.statusCode (res w)) (Pricing.fallbackBody recs)])%list ->
                fallbackAnswer n r).
      { intros r Hin. apply in_app_or in Hin. destruct Hin as [Hin | [<- | []]]; [auto |].
        rewrite Hc, <- Hl. apply fallbackBody_is_answer. exact Hf. }
      destruct ok; simpl; rewrite Eh; simpl;
        (split; [exact Hn |]; split; [intro E; discriminate E |];
         split; [exact Hr' |]; split; [exact Hks | exact Hi']).
Qed.

Lemma pricing_run_fallingBack parse n later :
  forallb allowedAfterFailure later = true ->
  forall w : Pricing.World,
    fallingBack n w -> fallingBack n (Pricing.run parse later w).
Proof.
  induction later as [| ev later IH]; intros Ha w H; [exact H |].
  simpl in Ha. apply andb_prop in Ha. destruct Ha as [Hev Ha].
  simpl. apply (IH Ha). apply pricing_step_fallingBack; assumption.
Qed.

(** What has been sent stays sent. *)
Lemma pricing_step_answered parse ev (w : Pricing.World) :
  Res.headersSent (res w) = true ->
  Res.headersSent (res (Pricing.step parse ev w)) = true.
Proof.
  intros Hh.
  destruct w as [? ? ? ? li ? ? ? rt ta ? [hs sc snt] ? pe ?]. simpl in Hh. subst hs.
  destruct ev; simpl; try reflexivity.
  - destruct li; reflexivity.
  - destruct li; reflexivity.
  - destruct ta; reflexivity.
  - destruct li; [| reflexivity].
    unfold Pricing.onClose, alreadyAnswered. simpl. rewrite orb_true_r. reflexivity.
  - destruct li; [| reflexivity].
    unfold Pricing.onError, alreadyAnswered. simpl. rewrite orb_true_r. reflexivity.
  - destruct pe as [| k ks]; [reflexivity |].
    destruct k; destruct ok; reflexivity.
Qed.

Lemma pricing_run_answered parse evs :
  forall w : Pricing.World,
    Res.headersSent (res w) = true ->
    Res.headersSent (res (Pricing.run parse evs w)) = true.
Proof.
  induction evs as [| ev evs IH]; intros w H; [exact H |].
  simpl. apply IH. apply pricing_step_answered. exact H.
Qed.

Lemma pricing_step_unanswered parse n ev (w : Pricing.World) :
  allowedAfterFailure ev = true -> storeSettles ev = false ->
  fallingBack n w ->
  unanswered w -> unanswered (Pricing.step parse ev w).
Proof.
  intros Hev Hst Hfb [Hh Hp].
  assert (G : forall w' : Pricing.World,
            Res.headersSent (res w') = false ->
            unanswered (Pricing.generateFallbackRecommendations (products w') w')).
  { intros w' Hh'. split; [exact Hh' |]. simpl.
    apply not_eq_sym. apply app_cons_not_nil. }
  destruct ev; simpl in Hev; try discriminate Hst; simpl.
  - split; assumption.
  - destruct (listening w); split; assumption.
  - destruct (listening w); split; assumption.
  - destruct (timerArmed w); [| split; assumption].
    unfold Pricing.onTimeout. simpl. rewrite Hh. simpl.
    apply (G (timeoutAndKill "SIGTERM" (clearTimeout w))). exact Hh.
  - destruct (listening w); [| split; assumption].
    unfold Pricing.onClose. simpl.
    destruct (alreadyAnswered _); [split; assumption |].
    rewrite Hev. apply (G (clearTimeout w)). exact Hh.
  - destruct (listening w); [| split; assumption].
    unfold Pricing.onError. simpl.
    destruct (alreadyAnswered _); [split; assumption |].
    apply (G (clearTimeout w)). exact Hh.
Qed.

Lemma pricing_first_settle_answers parse n later :
  forallb allowedAfterFailure later = true ->
  existsb storeSettles later = true ->
  forall w : Pricing.World,
    fallingBack n w -> unanswered w ->
    Res.headersSent (res (Pricing.run parse later w)) = true.
Proof.
  induction later as [| ev later IH]; intros Ha He w Hfb Hu; [discriminate He |].
  simpl in Ha. apply andb_prop in Ha. destruct Ha as [Hev Ha].
  simpl in He. simpl Pricing.run.
  destruct (storeSettles ev) eqn:Es.
  - apply pricing_run_answered.
    destruct ev; try discriminate Es. simpl.
    destruct Hu as [Hh Hp].
    destruct (pending w) as [| k ks] eqn:Ep; [contradiction |].
    destruct Hfb as (_ & _ & _ & Hk & _). rewrite Ep in Hk.
    destruct (Hk k (or_introl eq_refl)) as (recs & -> & _).
    unfold Pricing.resume, Pricing.fallbackRespond, Res.json.
    destruct ok; simpl; rewrite Hh; reflexivity.
  - simpl in He. apply (IH Ha He).
    + apply pricing_step_fallingBack; assumption.
    + apply (pricing_step_unanswered parse n); assumption.
Qed.

(** The pricing route right after an invocation has failed: the fallback
    has been computed and waits for the store. *)
Lemma pricing_after_failure
    (mapProductInputs : list Product.t -> MappingRun)
    (JSON_parse : string -> Settled (Prediction.t PriceRecommendation.t))
    (clock : JsDate.t) (products : JsValue) (spawn : SpawnResult)
    (mapped : list Product.t) (evs : list Event) :
  productsMissing products = false ->
  settles (mapProductInputs (arrayItems products)) = Resolved mapped ->
  mapped <> [] ->
  NotCleanSuccess JSON_parse spawn evs ->
  let w := Pricing.run JSON_parse evs
             (Pricing.recommend mapProductInputs clock products spawn) in
  exists at_,
    pending w
    = [Pricing.InsertThenFallback
         (map (fallbackRecommendation at_) (map (Pricing.enrich clock) mapped))]
    /\ res w = Res.fresh /\ inserted w = []
    /\ World.products w = map (Pricing.enrich clock) mapped
    /\ timerArmed w = false.
Proof.
  intros Hm Hs Hne Hout w.
  assert (Hstart : forall sp,
            Pricing.recommend mapProductInputs clock products sp
            = match sp with
              | SpawnThrows _ =>
                  Pricing.generateFallbackRecommendations
                    (map (Pricing.enrich clock) mapped)
                    (set_products (map (Pricing.enrich clock) mapped)
                       (countMapping (init clock)))
              | Spawned =>
                  started clock (map (Pricing.enrich clock) mapped)
                    {| operation := "predict_pricing";
                       input_products := map (Pricing.enrich clock) mapped;
                       forecast_days := None; cities := None |}
              end).
  { intros sp. unfold Pricing.recommend. rewrite Hm, Hs.
    destruct mapped; [contradiction |]. reflexivity. }
  subst w.
  destruct Hout as [message | before message Hc | before Hc | before code Hc Hcode
                   | before message Hc Hp | before prediction Hc Hp Hfail];
    rewrite Hstart; try rewrite pricing_run_app;
    try (rewrite (pricing_run_chatter JSON_parse before Hc) by reflexivity).
  - exists clock. repeat split.
  - exists (clockAfter clock before). repeat split.
  - exists (clockAfter clock before). repeat split.
  - exists (clockAfter clock before).
    simpl. unfold Pricing.onClose. simpl. rewrite Hcode. repeat split.
  - exists (clockAfter clock before).
    simpl. unfold Pricing.onClose. simpl. rewrite Hp. repeat split.
  - exists (clockAfter clock before).
    simpl. unfold Pricing.onClose. simpl. rewrite Hp, Hfail. repeat split.
Qed.

(** C2: when the predictor does not end in clean success (it cannot be
    started, the deadline expires, it exits with a nonzero code, its last
    output line does not parse, or the parsed payload says
    [success: false]), the pricing route answers with the fallback and with
    nothing else, whatever follows short of a late exit with code 0: every
    response sent is a 200 with the note "Generated using fallback pricing
    algorithm" and one recommendation per mapped product, each with model
    version "fallback-1.0" and confidence score 0.75; the response is sent
    as soon as the store has settled, whether or not it accepted the
    records; and only such recommendations are stored. *)
Theorem pricing_failure_answers_with_fallback
    (mapProductInputs : list Product.t -> MappingRun)
    (JSON_parse : string -> Settled (Prediction.t PriceRecommendation.t))
    (clock : JsDate.t) (products : JsValue) (spawn : SpawnResult)
    (mapped : list Product.t) (evs later : list Event) :
  productsMissing products = false ->
  settles (mapProductInputs (arrayItems products)) = Resolved mapped ->
  mapped <> [] ->
  NotCleanSuccess JSON_parse spawn evs ->
  forallb allowedAfterFailure later = true ->
  let w := Pricing.run JSON_parse (evs ++ later)
             (Pricing.recommend mapProductInputs clock products spawn) in
  (forall r, In r (Res.sent (res w)) -> fallbackAnswer (List.length mapped) r)
  /\ (existsb storeSettles later = true ->
      List.length (Res.sent (res w)) = 1%nat)
  /\ (forall batch, In batch (inserted w) -> Forall isFallback batch).
Proof.
  intros Hm Hs Hne Hout Hlater w.
  destruct (pricing_after_failure mapProductInputs JSON_parse clock products
              spawn mapped evs Hm Hs Hne Hout)
    as (at_ & Hp & Hr & Hi & Hps & Ht).
  subst w. rewrite pricing_run_app.
  set (w1 := Pricing.run JSON_parse evs
               (Pricing.recommend mapProductInputs clock products spawn)) in *.
  assert (Hfb : fallingBack (List.length mapped) w1).
  { split; [rewrite Hps; apply length_map |].
    split; [intros _; rewrite Hr; reflexivity |].
    split; [rewrite Hr; intros r [] |].
    split; [| rewrite Hi; intros batch []].
    rewrite Hp. intros k [<- | []].
    eexists. split; [reflexivity |].
    split; [apply fallback_all_isFallback | rewrite !length_map; reflexivity]. }
  assert (Hu : unanswered w1).
  { split; [rewrite Hr; reflexivity | rewrite Hp; intro E; discriminate E]. }
  assert (Hg : guarded w1).
  { split; [left; rewrite Hr; split; reflexivity |].
    split; [intros _; exact Ht |].
    intros _. right. rewrite Hp. intro E. discriminate E. }
  pose proof (pricing_run_fallingBack JSON_parse _ later Hlater w1 Hfb)
    as (_ & _ & Fr & _ & Fi).
  split; [exact Fr |]. split.
  - intros He.
    pose proof (pricing_first_settle_answers JSON_parse _ later Hlater He w1 Hfb Hu)
      as Hh.
    destruct (pricing_run_guarded JSON_parse later w1 Hg) as ([[Hn _] | [_ Hl]] & _).
    + rewrite Hh in Hn. discriminate Hn.
    + exact Hl.
  - intros batch Hb. apply (Fi batch Hb).
Qed.

Lemma pricing_failure_answers_with_fallback_witness :
  let w := Pricing.run neverParses
             (([] ++ [ProcessError "spawn python ENOENT"])
              ++ [Close (Some (-2)%Z); InsertSettles true; InsertSettles false])
             (Pricing.recommend mapsAll newYear (JsArray [noProduct]) Spawned) in
  (forall r, In r (Res.sent (res w)) -> fallbackAnswer 1 r)
  /\ List.length (Res.sent (res w)) = 1%nat
  /\ (forall batch, In batch (inserted w) -> Forall isFallback batch).
Proof.
  assert (F : NotCleanSuccess (@neverParses PriceRecommendation.t) Spawned
                ([] ++ [ProcessError "spawn python ENOENT"])).
  { apply (start_fails neverParses [] "spawn python ENOENT"). reflexivity. }
  assert (N : [noProduct] <> []) by (intro E; discriminate E).
  destruct (pricing_failure_answers_with_fallback mapsAll neverParses newYear
              (JsArray [noProduct]) Spawned [noProduct]
              ([] ++ [ProcessError "spawn python ENOENT"])
              [Close (Some (-2)%Z); InsertSettles true; InsertSettles false]
              eq_refl eq_refl N F eq_refl) as (A & B & C).
  split; [exact A | split; [exact (B eq_refl) | exact C]].
Defined.

(** * The routes: further properties *)

(** ** A clean run of the predictor *)

(** X1: a clean run of the pricing predictor.  After any stream data, a
    [close] with exit code 0 whose last output line parses to a payload
    with a truthy [success] is answered with that payload, status 200 and
    no fallback note, exactly once; when the payload has recommendations
    the answer waits for [insertMany], stores them when the store accepts
    them, and is sent all the same when it does not. *)
Theorem pricing_success_answers_with_payload
    (JSON_parse : string -> Settled (Prediction.t PriceRecommendation.t))
    (clock : JsDate.t) (ps : list Product.t) (i : Invocation)
    (before later : list Event)
    (prediction : Prediction.t PriceRecommendation.t) (ok : bool) :
  forallb chatter before = true ->
  JSON_parse (lastLine (outputAfter "" before)) = Resolved prediction ->
  Prediction.success prediction = true ->
  let w0 : Pricing.World := started clock ps i in
  let closed := Pricing.run JSON_parse (before ++ [Close (Some 0%Z)]) w0 in
  let settle := match Prediction.items prediction with
                | [] => []
                | _ :: _ => [InsertSettles ok]
                end in
  let w := Pricing.run JSON_parse (before ++ [Close (Some 0%Z)] ++ settle ++ later) w0 in
  Res.sent (res w) = [Response.mk 200 (Pricing.predictionBody prediction)]
  /\ inserted w = match Prediction.items prediction with
                  | [] => []
                  | _ :: _ => if ok then [Prediction.items prediction] else []
                  end
  /\ pending w = []
  /\ (Prediction.items prediction <> [] -> Res.sent (res closed) = [])
  /\ Body.data (Pricing.predictionBody prediction) = Some (PredictionData prediction)
  /\ Body.note (Pricing.predictionBody prediction) = None.
Proof.
  intros Hc Hp Hs w0 closed settle w.
  assert (Hclosed : closed
                    = match Prediction.items prediction with
                      | [] => Pricing.respondPrediction prediction
                                (clearTimeout (afterChatter before w0))
                      | _ :: _ => await (Pricing.InsertThenPrediction prediction)
                                    (clearTimeout (afterChatter before w0))
                      end).
  { subst closed. rewrite pricing_run_app.
    rewrite (pricing_run_chatter JSON_parse before Hc) by reflexivity.
    simpl. unfold Pricing.onClose. simpl. rewrite Hp, Hs. simpl.
    destruct (Prediction.items prediction); reflexivity. }
  assert (Hw : w = Pricing.run JSON_parse later (Pricing.run JSON_parse settle closed)).
  { subst w closed. rewrite !app_assoc. rewrite !pricing_run_app. reflexivity. }
  subst settle.
  destruct (Prediction.items prediction) as [| item items] eqn:Ei.
  - simpl in Hw.
    destruct (pricing_answered_stays JSON_parse closed later closed)
      as (_ & _ & Fp & Fr & Fi).
    { rewrite Hclosed. repeat split. }
    rewrite Hw, Fr, Fi, Fp. rewrite Hclosed.
    repeat apply conj; try reflexivity. intros E. contradiction.
  - change (Pricing.run JSON_parse [InsertSettles ok] closed)
      with (Pricing.step JSON_parse (InsertSettles ok) closed) in Hw.
    set (w1 := Pricing.step JSON_parse (InsertSettles ok) closed) in *.
    destruct (pricing_answered_stays JSON_parse w1 later w1)
      as (_ & _ & Fp & Fr & Fi).
    { subst w1. rewrite Hclosed. simpl. rewrite Ei. destruct ok; repeat split. }
    rewrite Hw, Fr, Fi, Fp. subst w1. rewrite Hclosed.
    simpl. rewrite Ei.
    repeat apply conj; try reflexivity; destruct ok; reflexivity.
Qed.

Lemma pricing_success_answers_with_payload_witness :
  let w := Pricing.run (parsesLine "{}" samplePrices)
             ([StderrData "warming up"; StdoutData modelOutput]
              ++ [Close (Some 0%Z)] ++ [InsertSettles true] ++ [TimerFires])%list
             (started newYear [noProduct] pricingCall) in
  Res.sent (res w) = [Response.mk 200 (Pricing.predictionBody samplePrices)]
  /\ inserted w = [Prediction.items samplePrices].
Proof.
  destruct (pricing_success_answers_with_payload (parsesLine "{}" samplePrices)
              newYear [noProduct] pricingCall
              [StderrData "warming up"; StdoutData modelOutput] [TimerFires]
              samplePrices true eq_refl eq_refl eq_refl) as (A & B & _).
  split; [exact A | exact B].
Defined.

(** X2: a clean run of the demand predictor.  The answer is the payload as
    parsed, status 200, exactly once; what is stored is the payload's
    forecasts with [forecast_date] turned into a date, when the store
    accepts them; a store failure does not change the answer. *)
Theorem demand_success_answers_with_payload
    (JSON_parse : string -> Settled (Prediction.t DemandForecast.t))
    (clock : JsDate.t) (ps : list Product.t) (i : Invocation)
    (before later : list Event)
    (prediction : Prediction.t DemandForecast.t) (ok : bool) :
  forallb chatter before = true ->
  JSON_parse (lastLine (outputAfter "" before)) = Resolved prediction ->
  Prediction.success prediction = true ->
  let w0 : Demand.World := started clock ps i in
  let closed := Demand.run JSON_parse (before ++ [Close (Some 0%Z)]) w0 in
  let settle := match Prediction.items prediction with
                | [] => []
                | _ :: _ => [InsertSettles ok]
                end in
  let w := Demand.run JSON_parse (before ++ [Close (Some 0%Z)] ++ settle ++ later) w0 in
  Res.sent (res w) = [Response.mk 200 (Demand.predictionBody prediction)]
  /\ inserted w = match Prediction.items prediction with
                  | [] => []
                  | _ :: _ =>
                      if ok
                      then [map Demand.processPrediction (Prediction.items prediction)]
                      else []
                  end
  /\ pending w = []
  /\ (Prediction.items prediction <> [] -> Res.sent (res closed) = [])
  /\ Body.data (Demand.predictionBody prediction) = Some (PredictionData prediction).
Proof.
  intros Hc Hp Hs w0 closed settle w.
  assert (Hclosed : closed
                    = match Prediction.items prediction with
                      | [] => Demand.respondPrediction prediction
                                (clearTimeout (afterChatter before w0))
                      | _ :: _ => await prediction
                                    (clearTimeout (afterChatter before w0))
                      end).
  { subst closed. rewrite demand_run_app.
    rewrite (demand_run_chatter JSON_parse before Hc) by reflexivity.
    simpl. unfold Demand.onClose. simpl. rewrite Hp, Hs. simpl.
    destruct (Prediction.items prediction); reflexivity. }
  assert (Hw : w = Demand.run JSON_parse later (Demand.run JSON_parse settle closed)).
  { subst w closed. rewrite !app_assoc. rewrite !demand_run_app. reflexivity. }
  subst settle.
  destruct (Prediction.items prediction) as [| item items] eqn:Ei.
  - simpl in Hw.
    destruct (demand_answered_stays JSON_parse closed later closed)
      as (_ & _ & Fp & Fr & Fi).
    { rewrite Hclosed. repeat split. }
    rewrite Hw, Fr, Fi, Fp. rewrite Hclosed.
    repeat apply conj; try reflexivity. intros E. contradiction.
  - change (Demand.run JSON_parse [InsertSettles ok] closed)
      with (Demand.step JSON_parse (InsertSettles ok) closed) in Hw.
    set (w1 := Demand.step JSON_parse (InsertSettles ok) closed) in *.
    destruct (demand_answered_stays JSON_parse w1 later w1)
      as (_ & _ & Fp & Fr & Fi).
    { subst w1. rewrite Hclosed. simpl. unfold Demand.resume. rewrite Ei.
      destruct ok; repeat split. }
    rewrite Hw, Fr, Fi, Fp. subst w1. rewrite Hclosed.
    simpl. unfold Demand.resume. rewrite Ei.
    repeat apply conj; try reflexivity; destruct ok; reflexivity.
Qed.

Lemma demand_success_answers_with_payload_witness :
  let w := Demand.run (parsesLine "{}" sampleForecasts)
             ([StderrData "warming up"; StdoutData modelOutput]
              ++ [Close (Some 0%Z)] ++ [InsertSettles true] ++ [TimerFires])%list
             (started newYear [noProduct] (demandInvocation [noProduct] None None)) in
  Res.sent (res w) = [Response.mk 200 (Demand.predictionBody sampleForecasts)]
  /\ inserted w
     = [[DemandForecast.mk None None None None (DateObject "2026-01-01")
           None None None]].
Proof.
  destruct (demand_success_answers_with_payload (parsesLine "{}" sampleForecasts)
              newYear [noProduct] (demandInvocation [noProduct] None None)
              [StderrData "warming up"; StdoutData modelOutput] [TimerFires]
              sampleForecasts true eq_refl eq_refl eq_refl) as (A & B & _).
  split; [exact A | exact B].
Defined.

(** ** An empty mapping *)

(** X3: when the mapping service resolves with no product, the pricing
    route answers 400 "No valid products found after mapping" at once, and
    so does the demand route when the mapping took 5000 ms at most; when
    it took longer the demand route has answered 400 "Product mapping
    failed" with "Product mapping timeout" instead.  In each case the
    mapping ran once, no predictor is started, nothing is stored, and no
    later event changes that. *)
Theorem nothing_mapped_is_client_error
    (mapProductInputs : list Product.t -> MappingRun)
    (parsePricing : string -> Settled (Prediction.t PriceRecommendation.t))
    (parseDemand : string -> Settled (Prediction.t DemandForecast.t))
    (clock : JsDate.t) (products : JsValue) (days : option float)
    (targets : option (list string)) (spawn : SpawnResult) (evs : list Event) :
  productsMissing products = false ->
  settles (mapProductInputs (arrayItems products)) = Resolved [] ->
  let wp := Pricing.run parsePricing evs
              (Pricing.recommend mapProductInputs clock products spawn) in
  let wd := Demand.run parseDemand evs
              (Demand.predict mapProductInputs clock products days targets spawn) in
  (Res.sent (res wp)
     = [Response.mk 400 (errorBody "No valid products found after mapping" None)]
   /\ spawned wp = [] /\ mappingCalls wp = 1%nat /\ inserted wp = [])
  /\ (Res.sent (res wd)
        = [Response.mk 400
             (if (after_ms (mapProductInputs (arrayItems products)) <=? 5000)%Z
              then errorBody "No valid products found after mapping" None
              else errorBody "Product mapping failed"
                     (Some "Product mapping timeout"))]
      /\ spawned wd = [] /\ mappingCalls wd = 1%nat /\ inserted wd = []).
Proof.
  intros Hm Hs wp wd.
  split.
  - subst wp. unfold Pricing.recommend. rewrite Hm, Hs.
    match goal with |- context [Pricing.run _ _ ?w] =>
      destruct (pricing_settled_stays parsePricing w evs w) as (_ & _ & _ & Hr & Hsp & Hc & Hi)
    end.
    { repeat split. }
    rewrite Hr, Hsp, Hc, Hi. repeat split.
  - subst wd. unfold Demand.predict, Demand.raceMapping. rewrite Hm, Hs.
    destruct (after_ms (mapProductInputs (arrayItems products)) <=? 5000)%Z.
    + match goal with |- context [Demand.run _ _ ?w] =>
        destruct (demand_settled_stays parseDemand w evs w)
          as (_ & _ & _ & Hr & Hsp & Hc & Hi)
      end.
      { repeat split. }
      rewrite Hr, Hsp, Hc, Hi. repeat split.
    + match goal with |- context [Demand.run _ _ ?w] =>
        destruct (demand_settled_stays parseDemand w evs w)
          as (_ & _ & _ & Hr & Hsp & Hc & Hi)
      end.
      { repeat split. }
      rewrite Hr, Hsp, Hc, Hi. repeat split.
Qed.

Lemma nothing_mapped_is_client_error_witness :
  Res.sent (res (Pricing.run neverParses [Close (Some 0%Z)]
                   (Pricing.recommend mapsNone newYear (JsArray [noProduct]) Spawned)))
  = [Response.mk 400 (errorBody "No valid products found after mapping" None)]
  /\ Res.sent (res (Demand.run neverParses [Close (Some 0%Z)]
                      (Demand.predict mapsNone newYear (JsArray [noProduct])
                         None None Spawned)))
     = [Response.mk 400 (errorBody "No valid products found after mapping" None)].
Proof.
  destruct (nothing_mapped_is_client_error mapsNone neverParses neverParses newYear
              (JsArray [noProduct]) None None Spawned [Close (Some 0%Z)]
              eq_refl eq_refl) as ((A & _) & (B & _)).
  split; [exact A | exact B].
Defined.

(** ** The invocation of the predictor *)

Lemma pricing_step_keeps_invocation parse ev (w : Pricing.World) :
  spawned (Pricing.step parse ev w) = spawned w
  /\ mappingCalls (Pricing.step parse ev w) = mappingCalls w
  /\ products (Pricing.step parse ev w) = products w.
Proof.
  destruct w as [? ? ? ? li ? ? ? rt ta ? r ? pe ?].
  destruct ev; simpl; try (repeat split; reflexivity).
  - destruct li; repeat split.
  - destruct li; repeat split.
  - destruct ta; [| repeat split].
    unfold Pricing.onTimeout. simpl. destruct (negb _); repeat split.
  - destruct li; [| repeat split].
    unfold Pricing.onClose. simpl.
    repeat match goal with
           | |- context [if ?c then _ else _] => destruct c
           | |- context [match ?c with Resolved _ => _ | Rejected _ => _ end] => destruct c
           | |- context [match ?c with [] => _ | _ :: _ => _ end] => destruct c
           end; try (repeat split; reflexivity).
    unfold Pricing.respondPrediction. simpl. destruct (Res.json _ _); repeat split.
  - destruct li; [| repeat split].
    unfold Pricing.onError. simpl. destruct (alreadyAnswered _); repeat split.
  - destruct pe as [| k ks]; [repeat split |].
    destruct k; simpl;
      unfold Pricing.fallbackRespond, Pricing.respondPrediction; destruct ok; simpl;
      destruct (Res.json _ _); repeat split.
Qed.

Lemma demand_step_keeps_invocation parse ev (w : Demand.World) :
  spawned (Demand.step parse ev w) = spawned w
  /\ mappingCalls (Demand.step parse ev w) = mappingCalls w
  /\ products (Demand.step parse ev w) = products w.
Proof.
  destruct w as [? ? ? ? li ? ? ? rt ta ? r ? pe ?].
  destruct ev; simpl; try (repeat split; reflexivity).
  - destruct li; repeat split.
  - destruct li; repeat split.
  - destruct ta; [| repeat split].
    unfold Demand.onTimeout, respond. simpl.
    destruct (negb _); [| repeat split]. destruct (Res.json _ _); repeat split.
  - destruct li; [| repeat split].
    unfold Demand.onClose, respond. simpl.
    repeat match goal with
           | |- context [if ?c then _ else _] => destruct c
           | |- context [match ?c with Resolved _ => _ | Rejected _ => _ end] => destruct c
           | |- context [match ?c with [] => _ | _ :: _ => _ end] => destruct c
           | |- context [match ?c with Some _ => _ | None => _ end] => destruct c
           end; try (repeat split; reflexivity).
    unfold Demand.respondPrediction. simpl. destruct (Res.json _ _); repeat split.
  - destruct li; [| repeat split].
    unfold Demand.onError, respond. simpl.
    destruct (alreadyAnswered _); [repeat split |].
    destruct (Res.json _ _); repeat split.
  - destruct pe as [| k ks]; [repeat split |].
    unfold Demand.resume, Demand.respondPrediction; destruct ok; simpl;
      destruct (Res.json _ _); repeat split.
Qed.

Lemma pricing_run_keeps_invocation parse evs :
  forall w : Pricing.World,
    spawned (Pricing.run parse evs w) = spawned w
    /\ mappingCalls (Pricing.run parse evs w) = mappingCalls w
    /\ products (Pricing.run parse evs w) = products w.
Proof.
  induction evs as [| ev evs IH]; intros w; [repeat split |].
  simpl. destruct (IH (Pricing.step parse ev w)) as (A & B & C).
  destruct (pricing_step_keeps_invocation parse ev w) as (A' & B' & C').
  rewrite A, B, C. repeat split; assumption.
Qed.

Lemma demand_run_keeps_invocation parse evs :
  forall w : Demand.World,
    spawned (Demand.run parse evs w) = spawned w
    /\ mappingCalls (Demand.run parse evs w) = mappingCalls w
    /\ products (Demand.run parse evs w) = products w.
Proof.
  induction evs as [| ev evs IH]; intros w; [repeat split |].
  simpl. destruct (IH (Demand.step parse ev w)) as (A & B & C).
  destruct (demand_step_keeps_invocation parse ev w) as (A' & B' & C').
  rewrite A, B, C. repeat split; assumption.
Qed.

Lemma getCurrentSeason_not_empty now : getCurrentSeason now <> "".
Proof.
  unfold getCurrentSeason.
  repeat match goal with |- context [if ?c then _ else _] => destruct c end;
    discriminate.
Qed.

Lemma or_string_not_empty v d : d <> "" -> or_string v d <> "".
Proof.
  intros Hd. unfold or_string. destruct v as [s |]; [| exact Hd].
  destruct (String.eqb_spec s ""); assumption.
Qed.

Lemma enrich_dated clock p : dated (Pricing.enrich clock p).
Proof.
  split; [discriminate |]. simpl. eexists. split; [reflexivity |].
  apply or_string_not_empty, getCurrentSeason_not_empty.
Qed.

(** X4: a pricing request maps its products once when it has any, and
    starts the predictor at most once: only when the mapping resolved with
    at least one product and [spawn] did not throw, with operation
    "predict_pricing" and the mapped products in order, each carrying a
    weekday and a non-empty season.  No later event starts another. *)
Theorem pricing_predictor_invocation
    (mapProductInputs : list Product.t -> MappingRun)
    (parse : string -> Settled (Prediction.t PriceRecommendation.t))
    (clock : JsDate.t) (products : JsValue) (spawn : SpawnResult)
    (evs : list Event) :
  let w := Pricing.run parse evs
             (Pricing.recommend mapProductInputs clock products spawn) in
  mappingCalls w = (if productsMissing products then 0 else 1)%nat
  /\ (spawned w = []
      \/ exists mapped,
           productsMissing products = false
           /\ settles (mapProductInputs (arrayItems products)) = Resolved mapped
           /\ mapped <> []
           /\ spawn = Spawned
           /\ spawned w = [pricingInvocation clock mapped]
           /\ Forall dated (input_products (pricingInvocation clock mapped))).
Proof.
  intros w. subst w.
  destruct (pricing_run_keeps_invocation parse evs
              (Pricing.recommend mapProductInputs clock products spawn))
    as (Hs & Hm & _).
  rewrite Hs, Hm. clear Hs Hm.
  unfold Pricing.recommend.
  destruct (productsMissing products) eqn:Hmiss.
  { split; [reflexivity | left; reflexivity]. }
  destruct (settles (mapProductInputs (arrayItems products)))
    as [[| p mapped] | message] eqn:Hset.
  - split; [reflexivity | left; reflexivity].
  - destruct spawn as [| message].
    + split; [reflexivity |]. right. exists (p :: mapped).
      repeat apply conj; try reflexivity; try discriminate.
      apply Forall_forall. intros q Hq.
      apply in_map_iff in Hq. destruct Hq as (q0 & <- & _). apply enrich_dated.
    + split; [reflexivity | left; reflexivity].
  - split; [reflexivity | left; reflexivity].
Qed.

(** X5: a demand request starts the predictor at most once: exactly when
    the mapping resolved with at least one product, after 5000 ms at most
    (a mapping that settles when the timer is due is still in time), and
    [spawn] did not throw; with operation "predict_demand", the mapped
    products as they are, the requested cities, and [forecast_days] (7
    when the request has none). *)
Theorem demand_predictor_invocation
    (mapProductInputs : list Product.t -> MappingRun)
    (parse : string -> Settled (Prediction.t DemandForecast.t))
    (clock : JsDate.t) (products : JsValue) (days : option float)
    (targets : option (list string)) (spawn : SpawnResult)
    (evs : list Event) :
  let w := Demand.run parse evs
             (Demand.predict mapProductInputs clock products days targets spawn) in
  mappingCalls w = (if productsMissing products then 0 else 1)%nat
  /\ (spawned w = []
      \/ exists mapped,
           productsMissing products = false
           /\ settles (mapProductInputs (arrayItems products)) = Resolved mapped
           /\ (after_ms (mapProductInputs (arrayItems products)) <= 5000)%Z
           /\ mapped <> []
           /\ spawn = Spawned
           /\ spawned w = [demandInvocation mapped days targets]
           /\ forecast_days (demandInvocation mapped days targets) <> None)
  /\ (forall mapped,
        productsMissing products = false ->
        settles (mapProductInputs (arrayItems products)) = Resolved mapped ->
        (after_ms (mapProductInputs (arrayItems products)) <= 5000)%Z ->
        mapped <> [] ->
        spawn = Spawned ->
        spawned w = [demandInvocation mapped days targets]).
Proof.
  intros w. subst w.
  destruct (demand_run_keeps_invocation parse evs
              (Demand.predict mapProductInputs clock products days targets spawn))
    as (Hs & Hm & _).
  rewrite Hs, Hm. clear Hs Hm.
  unfold Demand.predict, Demand.raceMapping.
  destruct (productsMissing products) eqn:Hmiss.
  { repeat apply conj; [reflexivity | left; reflexivity | discriminate]. }
  destruct (Z.leb_spec (after_ms (mapProductInputs (arrayItems products))) 5000)
    as [Hle | Hgt].
  2: { repeat apply conj; [reflexivity | left; reflexivity |].
       intros mapped _ _ Hle. lia. }
  destruct (settles (mapProductInputs (arrayItems products)))
    as [[| p mapped] | message] eqn:Hset.
  - repeat apply conj; [reflexivity | left; reflexivity |].
    intros mapped _ E _ Hne. injection E as <-. contradiction.
  - destruct spawn as [| message].
    + repeat apply conj; [reflexivity | |].
      * right. exists (p :: mapped).
        repeat apply conj; try reflexivity; try discriminate. exact Hle.
      * intros mapped' _ E _ _ _. injection E as <-. reflexivity.
    + repeat apply conj; [reflexivity | left; reflexivity |].
      intros mapped' _ _ _ _ E. discriminate E.
  - repeat apply conj; [reflexivity | left; reflexivity |].
    intros mapped _ E. discriminate E.
Qed.

(** ** The signal to the child process *)

Lemma pricing_step_kill parse ev (w : Pricing.World) :
  killedOnDeadline "SIGTERM" w ->
  killedOnDeadline "SIGTERM" (Pricing.step parse ev w)
  /\ (killed (Pricing.step parse ev w) = killed w \/ ev = TimerFires).
Proof.
  intros (Ha & Hk).
  destruct w as [? ? ? ? li ? ? ? rt ta ? r ? pe ?]. simpl in *.
  destruct ev; simpl.
  - split; [split; assumption | left; reflexivity].
  - destruct li; (split; [split; assumption | left; reflexivity]).
  - destruct li; (split; [split; assumption | left; reflexivity]).
  - destruct ta; [| split; [split; assumption | left; reflexivity]].
    split; [| right; reflexivity].
    unfold Pricing.onTimeout. simpl.
    destruct (negb _); simpl; (split; [discriminate |]);
      right; repeat split; apply Ha; reflexivity.
  - destruct li; [| split; [split; assumption | left; reflexivity]].
    split.
    + unfold Pricing.onClose. simpl.
      repeat match goal with
             | |- context [if ?c then _ else _] => destruct c
             | |- context [match ?c with Resolved _ => _ | Rejected _ => _ end] => destruct c
             | |- context [match ?c with [] => _ | _ :: _ => _ end] => destruct c
             end; simpl; try (split; [discriminate | exact Hk]).
      unfold Pricing.respondPrediction. simpl.
      destruct (Res.json _ _); simpl; (split; [discriminate | exact Hk]).
    + left. unfold Pricing.onClose. simpl.
      repeat match goal with
             | |- context [if ?c then _ else _] => destruct c
             | |- context [match ?c with Resolved _ => _ | Rejected _ => _ end] => destruct c
             | |- context [match ?c with [] => _ | _ :: _ => _ end] => destruct c
             end; simpl; try reflexivity.
      unfold Pricing.respondPrediction. simpl.
      destruct (Res.json _ _); reflexivity.
  - destruct li; [| split; [split; assumption | left; reflexivity]].
    unfold Pricing.onError. simpl.
    destruct (alreadyAnswered _); simpl;
      (split; [split; [discriminate | exact Hk] | left; reflexivity]).
  - destruct pe as [| k ks]; [split; [split; assumption | left; reflexivity] |].
    destruct k; simpl;
      unfold Pricing.fallbackRespond, Pricing.respondPrediction; destruct ok; simpl;
      destruct (Res.json _ _); simpl;
      (split; [split; assumption | left; reflexivity]).
Qed.

Lemma demand_step_kill parse ev (w : Demand.World) :
  killedOnDeadline "SIGKILL" w ->
  killedOnDeadline "SIGKILL" (Demand.step parse ev w)
  /\ (killed (Demand.step parse ev w) = killed w \/ ev = TimerFires).
Proof.
  intros (Ha & Hk).
  destruct w as [? ? ? ? li ? ? ? rt ta ? r ? pe ?]. simpl in *.
  destruct ev; simpl.
  - split; [split; assumption | left; reflexivity].
  - destruct li; (split; [split; assumption | left; reflexivity]).
  - destruct li; (split; [split; assumption | left; reflexivity]).
  - destruct ta; [| split; [split; assumption | left; reflexivity]].
    split; [| right; reflexivity].
    unfold Demand.onTimeout, respond. simpl.
    destruct (negb _); simpl; [destruct (Res.json _ _); simpl |];
      (split; [discriminate |]);
      right; repeat split; apply Ha; reflexivity.
  - destruct li; [| split; [split; assumption | left; reflexivity]].
    split.
    + unfold Demand.onClose, respond. simpl.
      repeat match goal with
             | |- context [if ?c then _ else _] => destruct c
             | |- context [match ?c with Resolved _ => _ | Rejected _ => _ end] => destruct c
             | |- context [match ?c with [] => _ | _ :: _ => _ end] => destruct c
             | |- context [match ?c with Some _ => _ | None => _ end] => destruct c
             end; simpl; try (split; [discriminate | exact Hk]).
      unfold Demand.respondPrediction. simpl.
      destruct (Res.json _ _); simpl; (split; [discriminate | exact Hk]).
    + left. unfold Demand.onClose, respond. simpl.
      repeat match goal with
             | |- context [if ?c then _ else _] => destruct c
             | |- context [match ?c with Resolved _ => _ | Rejected _ => _ end] => destruct c
             | |- context [match ?c with [] => _ | _ :: _ => _ end] => destruct c
             | |- context [match ?c with Some _ => _ | None => _ end] => destruct c
             end; simpl; try reflexivity.
      unfold Demand.respondPrediction. simpl.
      destruct (Res.json _ _); reflexivity.
  - destruct li; [| split; [split; assumption | left; reflexivity]].
    unfold Demand.onError, respond. simpl.
    destruct (alreadyAnswered _); simpl; [| destruct (Res.json _ _); simpl];
      (split; [split; [discriminate | exact Hk] | left; reflexivity]).
  - destruct pe as [| k ks]; [split; [split; assumption | left; reflexivity] |].
    unfold Demand.resume, Demand.respondPrediction; destruct ok; simpl;
      destruct (Res.json _ _); simpl;
      (split; [split; assumption | left; reflexivity]).
Qed.

Lemma pricing_run_kill parse evs :
  forall w : Pricing.World,
    killedOnDeadline "SIGTERM" w ->
    killedOnDeadline "SIGTERM" (Pricing.run parse evs w)
    /\ (killed (Pricing.run parse evs w) = killed w \/ In TimerFires evs).
Proof.
  induction evs as [| ev evs IH]; intros w H; [split; [exact H | left; reflexivity] |].
  simpl. destruct (pricing_step_kill parse ev w H) as (H1 & Hk1).
  destruct (IH _ H1) as (H2 & Hk2).
  split; [exact H2 |].
  destruct Hk2 as [Hk2 | Hin]; [| right; right; exact Hin].
  destruct Hk1 as [Hk1 | ->]; [left; congruence | right; left; reflexivity].
Qed.

Lemma demand_run_kill parse evs :
  forall w : Demand.World,
    killedOnDeadline "SIGKILL" w ->
    killedOnDeadline "SIGKILL" (Demand.run parse evs w)
    /\ (killed (Demand.run parse evs w) = killed w \/ In TimerFires evs).
Proof.
  induction evs as [| ev evs IH]; intros w H; [split; [exact H | left; reflexivity] |].
  simpl. destruct (demand_step_kill parse ev w H) as (H1 & Hk1).
  destruct (IH _ H1) as (H2 & Hk2).
  split; [exact H2 |].
  destruct Hk2 as [Hk2 | Hin]; [| right; right; exact Hin].
  destruct Hk1 as [Hk1 | ->]; [left; congruence | right; left; reflexivity].
Qed.

Lemma pricing_recommend_kill mapProductInputs clock products spawn :
  killedOnDeadline "SIGTERM"
    (Pricing.recommend mapProductInputs clock products spawn)
  /\ killed (Pricing.recommend mapProductInputs clock products spawn) = None.
Proof.
  unfold Pricing.recommend.
  destruct (productsMissing products).
  { split; [split; [discriminate | left; split; reflexivity] | reflexivity]. }
  destruct (settles _) as [[| p mapped] | message].
  - split; [split; [discriminate | left; split; reflexivity] | reflexivity].
  - destruct spawn.
    + split; [split; [discriminate | left; split; reflexivity] | reflexivity].
    + split; [split; [discriminate | left; split; reflexivity] | reflexivity].
  - split; [split; [discriminate | left; split; reflexivity] | reflexivity].
Qed.

Lemma demand_predict_kill mapProductInputs clock products days targets spawn :
  killedOnDeadline "SIGKILL"
    (Demand.predict mapProductInputs clock products days targets spawn)
  /\ killed (Demand.predict mapProductInputs clock products days targets spawn) = None.
Proof.
  unfold Demand.predict.
  destruct (productsMissing products).
  { split; [split; [discriminate | left; split; reflexivity] | reflexivity]. }
  destruct (Demand.raceMapping _) as [[| p mapped] | message].
  - split; [split; [discriminate | left; split; reflexivity] | reflexivity].
  - destruct spawn.
    + split; [split; [discriminate | left; split; reflexivity] | reflexivity].
    + split; [split; [discriminate | left; split; reflexivity] | reflexivity].
  - split; [split; [discriminate | left; split; reflexivity] | reflexivity].
Qed.

(** X6: the child process is signalled only by the deadline.  In every
    state a request reaches, either no signal was sent and the timeout flag
    is down, or the signal is SIGTERM (pricing) or SIGKILL (demand), the
    flag is up, a process was started and the timer has fired. *)
Theorem predictor_is_killed_only_by_deadline
    (mapProductInputs : list Product.t -> MappingRun)
    (parsePricing : string -> Settled (Prediction.t PriceRecommendation.t))
    (parseDemand : string -> Settled (Prediction.t DemandForecast.t))
    (clock : JsDate.t) (products : JsValue) (days : option float)
    (targets : option (list string)) (spawn : SpawnResult) (evs : list Event) :
  let wp := Pricing.run parsePricing evs
              (Pricing.recommend mapProductInputs clock products spawn) in
  let wd := Demand.run parseDemand evs
              (Demand.predict mapProductInputs clock products days targets spawn) in
  ((killed wp = None /\ responseTimeout wp = false)
   \/ (killed wp = Some "SIGTERM" /\ responseTimeout wp = true
       /\ spawned wp <> [] /\ In TimerFires evs))
  /\ ((killed wd = None /\ responseTimeout wd = false)
      \/ (killed wd = Some "SIGKILL" /\ responseTimeout wd = true
          /\ spawned wd <> [] /\ In TimerFires evs)).
Proof.
  intros wp wd. split.
  - destruct (pricing_recommend_kill mapProductInputs clock products spawn) as (H0 & Hn).
    destruct (pricing_run_kill parsePricing evs _ H0) as ((_ & H) & Hk).
    fold wp in H, Hk.
    destruct H as [H | (K1 & K2 & K3)]; [left; exact H |].
    right. repeat apply conj; try assumption.
    destruct Hk as [Hk | Hin]; [congruence | exact Hin].
  - destruct (demand_predict_kill mapProductInputs clock products days targets spawn)
      as (H0 & Hn).
    destruct (demand_run_kill parseDemand evs _ H0) as ((_ & H) & Hk).
    fold wd in H, Hk.
    destruct H as [H | (K1 & K2 & K3)]; [left; exact H |].
    right. repeat apply conj; try assumption.
    destruct Hk as [Hk | Hin]; [congruence | exact Hin].
Qed.

(** ** What the pricing route answers and stores *)

Lemma json_onlySuccesses {Doc : Type} (b : Body.t Doc) (r r' : Res.t Doc) :
  Body.success b = true -> Body.error b = None ->
  onlySuccesses r -> Res.json b r = Some r' -> onlySuccesses r'.
Proof.
  intros Hb He (H1 & H2) Hj. unfold Res.json in Hj.
  destruct (Res.headersSent r) eqn:Hh; [discriminate |].
  injection Hj as <-. split; simpl; [discriminate |].
  apply Forall_app. split; [exact H2 |].
  constructor; [| constructor].
  repeat split; simpl; auto.
Qed.

Lemma json_fails_headersSent {Doc : Type} (b : Body.t Doc) (r : Res.t Doc) :
  Res.json b r = None -> Res.headersSent r = true.
Proof.
  unfold Res.json. destruct (Res.headersSent r); [reflexivity | discriminate].
Qed.

Lemma pricing_step_onlySuccesses parse ev (w : Pricing.World) :
  onlySuccesses (res w) -> onlySuccesses (res (Pricing.step parse ev w)).
Proof.
  intros H.
  assert (Hfb : forall recs (w' : Pricing.World),
             onlySuccesses (res w') ->
             onlySuccesses (res (Pricing.fallbackRespond recs w'))).
  { intros recs w' H'. unfold Pricing.fallbackRespond.
    destruct (Res.json _ _) as [r' |] eqn:Hj; simpl.
    - eapply json_onlySuccesses; [| | exact H' | exact Hj]; reflexivity.
    - apply json_fails_headersSent in Hj. destruct H' as (_ & H2).
      split; simpl; [congruence | exact H2]. }
  assert (Hpr : forall p (w' : Pricing.World),
             onlySuccesses (res w') ->
             onlySuccesses (res (Pricing.respondPrediction p w'))).
  { intros p w' H'. unfold Pricing.respondPrediction.
    destruct (Res.json _ _) as [r' |] eqn:Hj; simpl.
    - eapply json_onlySuccesses; [| | exact H' | exact Hj]; reflexivity.
    - exact H'. }
  destruct ev; simpl.
  - exact H.
  - destruct (listening w); exact H.
  - destruct (listening w); exact H.
  - destruct (timerArmed w); [| exact H].
    unfold Pricing.onTimeout. simpl. destruct (negb _); exact H.
  - destruct (listening w); [| exact H].
    unfold Pricing.onClose. simpl.
    repeat match goal with
           | |- context [if ?c then _ else _] => destruct c
           | |- context [match ?c with Resolved _ => _ | Rejected _ => _ end] => destruct c
           | |- context [match ?c with [] => _ | _ :: _ => _ end] => destruct c
           end; simpl; try exact H.
    apply (Hpr _ (clearTimeout w)). exact H.
  - destruct (listening w); [| exact H].
    unfold Pricing.onError. simpl. destruct (alreadyAnswered _); exact H.
  - destruct (pending w) as [| k ks]; [exact H |].
    destruct k; simpl.
    + apply Hfb. destruct ok; exact H.
    + apply Hpr. destruct ok; exact H.
Qed.

Lemma pricing_run_onlySuccesses parse evs :
  forall w : Pricing.World,
    onlySuccesses (res w) -> onlySuccesses (res (Pricing.run parse evs w)).
Proof.
  induction evs as [| ev evs IH]; intros w H; [exact H |].
  simpl. apply IH. apply pricing_step_onlySuccesses. exact H.
Qed.

(** X7: once the handler of the pricing route has returned without
    answering, no failure is ever reported: every response sent later has
    status 200, [success: true] and no [error]. *)
Theorem pricing_reports_no_failure_after_return
    (mapProductInputs : list Product.t -> MappingRun)
    (parse : string -> Settled (Prediction.t PriceRecommendation.t))
    (clock : JsDate.t) (products : JsValue) (spawn : SpawnResult)
    (evs : list Event) :
  let w0 := Pricing.recommend mapProductInputs clock products spawn in
  let w := Pricing.run parse evs w0 in
  Forall (fun r => In r (Res.sent (res w0)) \/ successResponse r) (Res.sent (res w))
  /\ (forall clock0 ps i,
        Forall successResponse
          (Res.sent (res (Pricing.run parse evs
                            (started clock0 ps i : Pricing.World))))).
Proof.
  intros w0 w. split.
  - assert (Hfresh : onlySuccesses (res w0) \/ settledLike w0 w0).
    { subst w0. unfold Pricing.recommend.
      destruct (productsMissing products); [right; repeat split |].
      destruct (settles _) as [[| p mapped] | message]; [right; repeat split | | right; repeat split].
      destruct spawn; left; split; simpl; try reflexivity; constructor. }
    destruct Hfresh as [H | H].
    + apply (pricing_run_onlySuccesses parse evs) in H. destruct H as (_ & H).
      fold w in H. eapply Forall_impl; [| exact H]. intros r Hr. right. exact Hr.
    + destruct (pricing_settled_stays parse w0 evs w0 H) as (_ & _ & _ & Hr & _).
      fold w in Hr. rewrite Hr. apply Forall_forall. intros r Hin. left. exact Hin.
  - intros clock0 ps i.
    apply (pricing_run_onlySuccesses parse evs).
    split; simpl; [reflexivity | constructor].
Qed.

Lemma pricingStore_fallback parse ps (w : Pricing.World) :
  pricingStore parse ps w ->
  pricingStore parse ps (Pricing.generateFallbackRecommendations (products w) w).
Proof.
  intros (Hp & Hi & Hk). split; [exact Hp |]. split; [exact Hi |].
  simpl. intros k Hin. apply in_app_or in Hin.
  destruct Hin as [Hin | [<- | []]]; [apply Hk; exact Hin |].
  exists (now w). rewrite Hp. reflexivity.
Qed.

Lemma pricingStore_same parse ps (w w' : Pricing.World) :
  products w' = products w -> inserted w' = inserted w -> pending w' = pending w ->
  pricingStore parse ps w -> pricingStore parse ps w'.
Proof.
  intros E1 E2 E3 (Hp & Hi & Hk). unfold pricingStore. rewrite E1, E2, E3.
  repeat apply conj; assumption.
Qed.

Lemma pricing_step_pricingStore parse ps ev (w : Pricing.World) :
  pricingStore parse ps w -> pricingStore parse ps (Pricing.step parse ev w).
Proof.
  intros H.
  assert (Hpr : forall p (w' : Pricing.World),
             pricingStore parse ps w' ->
             pricingStore parse ps (Pricing.respondPrediction p w')).
  { intros p w' H'. unfold Pricing.respondPrediction.
    destruct (Res.json _ _) as [r' |].
    - revert H'. apply pricingStore_same; reflexivity.
    - apply pricingStore_fallback. exact H'. }
  destruct ev; simpl.
  - revert H. apply pricingStore_same; reflexivity.
  - destruct (listening w); [| exact H].
    revert H. apply pricingStore_same; reflexivity.
  - destruct (listening w); [| exact H].
    revert H. apply pricingStore_same; reflexivity.
  - destruct (timerArmed w); [| exact H].
    unfold Pricing.onTimeout.
    set (w1 := timeoutAndKill "SIGTERM" (clearTimeout w)).
    assert (H1 : pricingStore parse ps w1).
    { revert H. apply pricingStore_same; reflexivity. }
    cbv zeta. destruct (negb _); [apply pricingStore_fallback |]; exact H1.
  - destruct (listening w); [| exact H].
    unfold Pricing.onClose.
    set (w1 := clearTimeout w).
    assert (H1 : pricingStore parse ps w1).
    { revert H. apply pricingStore_same; reflexivity. }
    cbv zeta. destruct (alreadyAnswered w1); [exact H1 |].
    destruct (nonZero code); [apply pricingStore_fallback; exact H1 |].
    change (outputData w1) with (outputData w).
    destruct (parse (lastLine (outputData w))) as [prediction | message] eqn:Hparse;
      [| apply pricingStore_fallback; exact H1].
    destruct (Prediction.success prediction) eqn:Hs; cbn [negb];
      [| apply pricingStore_fallback; exact H1].
    destruct (Prediction.items prediction) as [| item items] eqn:Hit;
      [apply Hpr; exact H1 |].
    destruct H1 as (Hp & Hi & Hk). split; [exact Hp |]. split; [exact Hi |].
    simpl. intros k Hin. apply in_app_or in Hin.
    destruct Hin as [Hin | [<- | []]]; [apply Hk; exact Hin |].
    split; [exists (outputData w); exact Hparse |].
    split; [exact Hs | rewrite Hit; discriminate].
  - destruct (listening w); [| exact H].
    unfold Pricing.onError.
    set (w1 := clearTimeout w).
    assert (H1 : pricingStore parse ps w1).
    { revert H. apply pricingStore_same; reflexivity. }
    cbv zeta. destruct (alreadyAnswered w1); [exact H1 |].
    apply pricingStore_fallback; exact H1.
  - destruct (pending w) as [| k ks] eqn:Hpe; [exact H |].
    destruct H as (Hp & Hi & Hk).
    assert (Hk0 := Hk k). rewrite Hpe in Hk0. specialize (Hk0 (or_introl eq_refl)).
    assert (Hrest : pricingStore parse ps (set_pending ks w)).
    { split; [exact Hp |]. split; [exact Hi |].
      simpl. intros k' Hin. apply Hk. rewrite Hpe. right. exact Hin. }
    destruct k as [recs | prediction]; simpl.
    + assert (Hins : pricingStore parse ps
                       (if ok then insertMany recs (set_pending ks w)
                        else set_pending ks w)).
      { destruct ok; [| exact Hrest].
        destruct Hrest as (Hp' & Hi' & Hk'). split; [exact Hp' |].
        split; [| exact Hk'].
        simpl. intros batch Hin. apply in_app_or in Hin.
        destruct Hin as [Hin | [<- | []]]; [apply Hi; exact Hin |].
        left. exact Hk0. }
      unfold Pricing.fallbackRespond.
      destruct (Res.json _ _); revert Hins; apply pricingStore_same; reflexivity.
    + apply Hpr.
      destruct ok; [| exact Hrest].
      destruct Hrest as (Hp' & Hi' & Hk'). split; [exact Hp' |].
      split; [| exact Hk'].
      simpl. intros batch Hin. apply in_app_or in Hin.
      destruct Hin as [Hin | [<- | []]]; [apply Hi; exact Hin |].
      right. exists prediction. split; [exact Hk0 | reflexivity].
Qed.

Lemma pricing_run_pricingStore parse ps evs :
  forall w : Pricing.World,
    pricingStore parse ps w -> pricingStore parse ps (Pricing.run parse evs w).
Proof.
  induction evs as [| ev evs IH]; intros w H; [exact H |].
  simpl. apply IH. apply pricing_step_pricingStore. exact H.
Qed.

(** X8: every batch the pricing route stores is non-empty and is either
    the fallback recommendations of the request's products, one for each in
    order, or the recommendations of a payload parsed from a last output
    line with a truthy [success]. *)
Theorem pricing_stores_fallback_or_payload
    (mapProductInputs : list Product.t -> MappingRun)
    (parse : string -> Settled (Prediction.t PriceRecommendation.t))
    (clock : JsDate.t) (products : JsValue) (spawn : SpawnResult)
    (evs : list Event) :
  let w := Pricing.run parse evs
             (Pricing.recommend mapProductInputs clock products spawn) in
  Forall (fun batch =>
            batch <> []
            /\ ((exists later,
                   batch = map (fallbackRecommendation later) (World.products w)
                   /\ Forall isFallback batch)
                \/ (exists output prediction,
                      parse (lastLine output) = Resolved prediction
                      /\ Prediction.success prediction = true
                      /\ batch = Prediction.items prediction)))
         (inserted w).
Proof.
  intros w. apply Forall_forall. intros batch Hin.
  set (w0 := Pricing.recommend mapProductInputs clock products spawn) in *.
  assert (H0 : (inserted w0 = [] /\ pending w0 = [] /\ listening w0 = false
                /\ timerArmed w0 = false)
               \/ (World.products w0 <> [] /\ pricingStore parse (World.products w0) w0)).
  { subst w0. unfold Pricing.recommend.
    destruct (productsMissing products); [left; repeat split |].
    destruct (settles _) as [[| p mapped] | message];
      [left; repeat split | | left; repeat split].
    right. destruct spawn.
    - split; [discriminate |]. split; [reflexivity |].
      split; intros ? [].
    - split; [discriminate |]. split; [reflexivity |].
      split; [intros ? [] |]. simpl. intros k [<- | []].
      exists clock. reflexivity. }
  destruct H0 as [(Hi & Hp & Hl & Ht) | (Hne & H0)].
  - exfalso.
    destruct (pricing_settled_stays parse w0 evs w0) as (_ & _ & _ & _ & _ & _ & Hins).
    { repeat split; assumption. }
    fold w in Hins. rewrite Hins, Hi in Hin. exact Hin.
  - apply (pricing_run_pricingStore parse _ evs) in H0. fold w in H0.
    destruct H0 as (Hp & Hb & _).
    destruct (Hb batch Hin) as [(later & ->) | (prediction & (Hout & Hs & Hit) & ->)].
    + split.
      * intros E. apply map_eq_nil in E. apply Hne. exact E.
      * left. exists later. rewrite Hp. split; [reflexivity |].
        apply fallback_all_isFallback.
    + split; [exact Hit |]. right.
      destruct Hout as (output & Hout). exists output, prediction.
      repeat apply conj; auto.
Qed.

(** ** [error] followed by [close] *)

(** X9: in the pricing route, a [close] with a nonzero (or null) exit code
    that follows an [error] before the store has settled passes the guard
    as well: the fallback runs twice on the same products, each run stores
    its batch when the store accepts it, one response is sent, and the
    second attempt to respond ends in an unhandled rejection. *)
Theorem pricing_error_then_close_stores_twice
    (parse : string -> Settled (Prediction.t PriceRecommendation.t))
    (clock : JsDate.t) (ps : list Product.t) (i : Invocation)
    (before : list Event) (message : string) (code : option Z) (ok1 ok2 : bool) :
  forallb chatter before = true ->
  nonZero code = true ->
  let w0 : Pricing.World := started clock ps i in
  let w := Pricing.run parse
             (before ++ [ProcessError message; Close code;
                         InsertSettles ok1; InsertSettles ok2])%list w0 in
  let recs := map (fallbackRecommendation (clockAfter clock before)) ps in
  Res.sent (res w) = [Response.mk 200 (Pricing.fallbackBody recs)]
  /\ inserted w = ((if ok1 then [recs] else []) ++ (if ok2 then [recs] else []))%list
  /\ unhandledRejections w = 1%nat
  /\ pending w = [].
Proof.
  intros Hc Hz w0 w recs. subst w.
  rewrite pricing_run_app.
  rewrite (pricing_run_chatter parse before Hc) by reflexivity.
  simpl. unfold Pricing.onError. simpl. unfold Pricing.onClose. simpl.
  rewrite Hz. simpl.
  destruct ok1, ok2; simpl; repeat apply conj; reflexivity.
Qed.

Lemma pricing_error_then_close_stores_twice_witness :
  let w := Pricing.run neverParses
             ([Tick nextDay]
              ++ [ProcessError "spawn python ENOENT"; Close (Some (-2)%Z);
                  InsertSettles true; InsertSettles true])%list
             (started newYear [noProduct] pricingCall) in
  List.length (inserted w) = 2%nat /\ unhandledRejections w = 1%nat.
Proof.
  destruct (pricing_error_then_close_stores_twice neverParses newYear [noProduct]
              pricingCall [Tick nextDay] "spawn python ENOENT" (Some (-2)%Z)
              true true eq_refl eq_refl) as (_ & B & C & _).
  split; [rewrite B; reflexivity | exact C].
Defined.

(** ** Unhandled rejections *)

Lemma pricing_step_calm parse ev more (w : Pricing.World) :
  calm more w ->
  (processEvent ev = false -> calm more (Pricing.step parse ev w))
  /\ (processEvent ev = true -> more = true -> calm false (Pricing.step parse ev w)).
Proof.
  intros H.
  destruct w as [? ? ? ? li ? ? ? rt ta ? [hs sc se] ? pe rej].
  destruct ev; simpl; (split; [intros Hp | intros Hp Hm]); try discriminate Hp.
  - calm_tac.
  - destruct li; calm_tac.
  - destruct li; calm_tac.
  - destruct ta; [| calm_tac].
    unfold Pricing.onTimeout. simpl. destruct hs; simpl; calm_tac.
  - destruct li; [| calm_tac].
    unfold Pricing.onClose, alreadyAnswered. simpl.
    destruct rt; simpl; [calm_tac |].
    destruct hs; simpl; [calm_tac |].
    destruct (nonZero code); [calm_tac |].
    destruct (parse _) as [prediction | message]; [| calm_tac].
    destruct (Prediction.success prediction); simpl; [| calm_tac].
    destruct (Prediction.items prediction); [| calm_tac].
    unfold Pricing.respondPrediction. simpl. calm_tac.
  - destruct li; [| calm_tac].
    unfold Pricing.onError, alreadyAnswered. simpl.
    destruct rt; simpl; [calm_tac |].
    destruct hs; simpl; calm_tac.
  - destruct pe as [| k ks]; [calm_tac |].
    destruct k; simpl;
      unfold Pricing.fallbackRespond, Pricing.respondPrediction; destruct ok; simpl;
      destruct hs; simpl; calm_tac.
Qed.

Lemma demand_step_calm parse ev more (w : Demand.World) :
  calm more w ->
  (processEvent ev = false -> calm more (Demand.step parse ev w))
  /\ (processEvent ev = true -> more = true -> calm false (Demand.step parse ev w)).
Proof.
  intros H.
  destruct w as [? ? ? ? li ? ? ? rt ta ? [hs sc se] ? pe rej].
  destruct ev; simpl; (split; [intros Hp | intros Hp Hm]); try discriminate Hp.
  - calm_tac.
  - destruct li; calm_tac.
  - destruct li; calm_tac.
  - destruct ta; [| calm_tac].
    unfold Demand.onTimeout, respond. simpl. destruct hs; simpl; calm_tac.
  - destruct li; [| calm_tac].
    unfold Demand.onClose, alreadyAnswered, respond. simpl.
    destruct rt; simpl; [calm_tac |].
    destruct hs; simpl; [calm_tac |].
    destruct (nonZero code); [calm_tac |].
    destruct (parse _) as [prediction | message]; [| calm_tac].
    destruct (Prediction.success prediction); simpl; [| calm_tac].
    destruct (Prediction.items prediction); [| calm_tac].
    unfold Demand.respondPrediction. simpl. calm_tac.
  - destruct li; [| calm_tac].
    unfold Demand.onError, alreadyAnswered, respond. simpl.
    destruct rt; simpl; [calm_tac |].
    destruct hs; simpl; calm_tac.
  - destruct pe as [| k ks]; [calm_tac |].
    unfold Demand.resume, Demand.respondPrediction; destruct ok; simpl;
      destruct hs; simpl; calm_tac.
Qed.

Lemma pricing_run_calm parse evs :
  forall more (w : Pricing.World),
    calm more w ->
    (List.length (filter processEvent evs) <= (if more then 1 else 0))%nat ->
    unhandledRejections (Pricing.run parse evs w) = 0%nat.
Proof.
  induction evs as [| ev evs IH]; intros more w H Hn; [exact (proj1 H) |].
  simpl. simpl in Hn.
  destruct (pricing_step_calm parse ev more w H) as (Hc & Hp).
  destruct (processEvent ev) eqn:Hev.
  - destruct more; simpl in Hn; [| lia].
    apply (IH false); [apply Hp; reflexivity |]. simpl. lia.
  - apply (IH more); [apply Hc; reflexivity | exact Hn].
Qed.

Lemma demand_run_calm parse evs :
  forall more (w : Demand.World),
    calm more w ->
    (List.length (filter processEvent evs) <= (if more then 1 else 0))%nat ->
    unhandledRejections (Demand.run parse evs w) = 0%nat.
Proof.
  induction evs as [| ev evs IH]; intros more w H Hn; [exact (proj1 H) |].
  simpl. simpl in Hn.
  destruct (demand_step_calm parse ev more w H) as (Hc & Hp).
  destruct (processEvent ev) eqn:Hev.
  - destruct more; simpl in Hn; [| lia].
    apply (IH false); [apply Hp; reflexivity |]. simpl. lia.
  - apply (IH more); [apply Hc; reflexivity | exact Hn].
Qed.

(** X10: when the child process emits at most one of [close] and [error],
    no handler of either route ends in an unhandled rejection, whatever the
    request, the outcome of the mapping and of [spawn], and the order of
    stream data, timer and store events. *)
Theorem single_process_event_raises_nothing
    (mapProductInputs : list Product.t -> MappingRun)
    (parsePricing : string -> Settled (Prediction.t PriceRecommendation.t))
    (parseDemand : string -> Settled (Prediction.t DemandForecast.t))
    (clock : JsDate.t) (products : JsValue) (days : option float)
    (targets : option (list string)) (spawn : SpawnResult) (evs : list Event) :
  (List.length (filter processEvent evs) <= 1)%nat ->
  unhandledRejections
    (Pricing.run parsePricing evs
       (Pricing.recommend mapProductInputs clock products spawn)) = 0%nat
  /\ unhandledRejections
       (Demand.run parseDemand evs
          (Demand.predict mapProductInputs clock products days targets spawn)) = 0%nat.
Proof.
  intros Hn. split.
  - apply (pricing_run_calm parsePricing evs true); [| exact Hn].
    unfold Pricing.recommend.
    destruct (productsMissing products); [calm_tac |].
    destruct (settles _) as [[| p mapped] | message]; [calm_tac | | calm_tac].
    destruct spawn; calm_tac.
  - apply (demand_run_calm parseDemand evs true); [| exact Hn].
    unfold Demand.predict.
    destruct (productsMissing products); [calm_tac |].
    destruct (Demand.raceMapping _) as [[| p mapped] | message]; [calm_tac | | calm_tac].
    destruct spawn; calm_tac.
Qed.

Lemma single_process_event_raises_nothing_witness :
  (List.length (filter processEvent
                  [StdoutData "{}"; Close (Some 0%Z); TimerFires; InsertSettles true])
   <= 1)%nat
  /\ unhandledRejections
       (Pricing.run neverParses
          [StdoutData "{}"; Close (Some 0%Z); TimerFires; InsertSettles true]
          (Pricing.recommend mapsAll newYear (JsArray [noProduct]) Spawned)) = 0%nat.
Proof.
  split; [simpl; lia |].
  apply (single_process_event_raises_nothing mapsAll neverParses neverParses newYear
           (JsArray [noProduct]) None None Spawned
           [StdoutData "{}"; Close (Some 0%Z); TimerFires; InsertSettles true]).
  simpl; lia.
Defined.

(** * The last line of the output: properties *)

(** ** White space in UTF-8 *)
Lemma whiteSpace1_bytes c : whiteSpace1 c = true -> (N_of_ascii c < 128)%N.
Proof.
  unfold whiteSpace1. cbv zeta.
  rewrite orb_true_iff, andb_true_iff, !N.leb_le, N.eqb_eq. lia.
Qed.

Lemma whiteSpace2_bytes c1 c2 :
  whiteSpace2 c1 c2 = true ->
  (192 <= N_of_ascii c1 /\ 128 <= N_of_ascii c2 < 192)%N.
Proof.
  unfold whiteSpace2. rewrite andb_true_iff, !N.eqb_eq. lia.
Qed.

Lemma whiteSpace3_bytes c1 c2 c3 :
  whiteSpace3 c1 c2 c3 = true ->
  (192 <= N_of_ascii c1 /\ 128 <= N_of_ascii c2 < 192
   /\ 128 <= N_of_ascii c3 < 192)%N.
Proof.
  unfold whiteSpace3. cbv zeta.
  repeat first [ rewrite orb_true_iff | rewrite andb_true_iff
               | rewrite N.eqb_eq | rewrite N.leb_le ].
  lia.
Qed.

Lemma whiteSpace2_first c1 c2 :
  whiteSpace2 c1 c2 = true -> (N_of_ascii c1 = 194)%N.
Proof.
  unfold whiteSpace2. rewrite andb_true_iff, !N.eqb_eq. tauto.
Qed.

Lemma whiteSpace3_first c1 c2 c3 :
  whiteSpace3 c1 c2 c3 = true -> (225 <= N_of_ascii c1)%N.
Proof.
  unfold whiteSpace3. cbv zeta.
  repeat first [ rewrite orb_true_iff | rewrite andb_true_iff
               | rewrite N.eqb_eq | rewrite N.leb_le ].
  lia.
Qed.

Lemma whiteSpace2_not_ascii c1 c2 :
  (N_of_ascii c1 < 128 \/ N_of_ascii c2 < 128)%N -> whiteSpace2 c1 c2 = false.
Proof.
  intros H. destruct (whiteSpace2 c1 c2) eqn:E; [| reflexivity].
  apply whiteSpace2_bytes in E. lia.
Qed.

Lemma whiteSpace3_not_ascii c1 c2 c3 :
  (N_of_ascii c1 < 128 \/ N_of_ascii c2 < 128 \/ N_of_ascii c3 < 128)%N ->
  whiteSpace3 c1 c2 c3 = false.
Proof.
  intros H. destruct (whiteSpace3 c1 c2 c3) eqn:E; [| reflexivity].
  apply whiteSpace3_bytes in E. lia.
Qed.

Lemma whiteSpace1_not_continuation c :
  (128 <= N_of_ascii c)%N -> whiteSpace1 c = false.
Proof.
  intros H. destruct (whiteSpace1 c) eqn:E; [| reflexivity].
  apply whiteSpace1_bytes in E. lia.
Qed.

Lemma startsCharacter_spec c :
  startsCharacter c = true <-> (N_of_ascii c < 128 \/ 192 <= N_of_ascii c)%N.
Proof.
  unfold startsCharacter. rewrite orb_true_iff, N.ltb_lt, N.leb_le. tauto.
Qed.

Lemma whiteSpace2_second c1 c2 :
  startsCharacter c2 = true -> whiteSpace2 c1 c2 = false.
Proof.
  intros H. apply startsCharacter_spec in H.
  destruct (whiteSpace2 c1 c2) eqn:E; [| reflexivity].
  apply whiteSpace2_bytes in E. lia.
Qed.

Lemma whiteSpace3_later c1 c2 c3 :
  startsCharacter c2 = true \/ startsCharacter c3 = true ->
  whiteSpace3 c1 c2 c3 = false.
Proof.
  intros H. rewrite !startsCharacter_spec in H.
  destruct (whiteSpace3 c1 c2 c3) eqn:E; [| reflexivity].
  apply whiteSpace3_bytes in E. lia.
Qed.

Lemma Space_starts w : Space w -> exists c r, w = c :: r /\ startsCharacter c = true.
Proof.
  intros [c H | c1 c2 H | c1 c2 c3 H].
  - exists c, []. split; [reflexivity |]. apply startsCharacter_spec.
    apply whiteSpace1_bytes in H. lia.
  - exists c1, [c2]. split; [reflexivity |]. apply startsCharacter_spec.
    apply whiteSpace2_bytes in H. lia.
  - exists c1, [c2; c3]. split; [reflexivity |]. apply startsCharacter_spec.
    apply whiteSpace3_bytes in H. lia.
Qed.

Lemma Spaces_starts p :
  Spaces p -> p = [] \/ exists c r, p = c :: r /\ startsCharacter c = true.
Proof.
  intros [| w q Hw Hq]; [left; reflexivity | right].
  destruct (Space_starts w Hw) as (c & r & -> & Hc).
  exists c, (r ++ q)%list. split; [reflexivity | exact Hc].
Qed.

(** [trimStart] and [trimEnd] pass over white space, and stop at anything
    else. *)
Lemma trimStart_Space w s : Space w -> trimStart (w ++ s) = trimStart s.
Proof.
  intros [c H | c1 c2 H | c1 c2 c3 H]; simpl.
  - rewrite H. reflexivity.
  - rewrite whiteSpace1_not_continuation, H; [reflexivity |].
    apply whiteSpace2_bytes in H. lia.
  - rewrite whiteSpace1_not_continuation.
    2:{ apply whiteSpace3_bytes in H. lia. }
    assert (E2 : whiteSpace2 c1 c2 = false).
    { destruct (whiteSpace2 c1 c2) eqn:E; [| reflexivity].
      exfalso. apply whiteSpace2_first in E. apply whiteSpace3_first in H. lia. }
    rewrite E2, H. reflexivity.
Qed.

Lemma trimStart_Spaces p s : Spaces p -> trimStart (p ++ s) = trimStart s.
Proof.
  induction 1 as [| w p Hw Hp IH]; [reflexivity |].
  rewrite <- app_assoc, trimStart_Space by exact Hw. exact IH.
Qed.

Lemma trimEndReversed_Space w r :
  Space w -> trimEndReversed (rev w ++ r) = trimEndReversed r.
Proof.
  intros [c H | c1 c2 H | c1 c2 c3 H]; simpl.
  - rewrite H. reflexivity.
  - rewrite whiteSpace1_not_continuation, H; [reflexivity |].
    apply whiteSpace2_bytes in H. lia.
  - rewrite whiteSpace1_not_continuation.
    2:{ apply whiteSpace3_bytes in H. lia. }
    assert (E2 : whiteSpace2 c2 c3 = false).
    { destruct (whiteSpace2 c2 c3) eqn:E; [| reflexivity].
      exfalso. apply whiteSpace2_bytes in E. apply whiteSpace3_bytes in H. lia. }
    rewrite E2, H. reflexivity.
Qed.

Lemma trimEndReversed_Spaces p r :
  Spaces p -> trimEndReversed (rev p ++ r) = trimEndReversed r.
Proof.
  intros H. revert r. induction H as [| w p Hw Hp IH]; intros r; [reflexivity |].
  rewrite rev_app_distr, <- app_assoc, IH. apply trimEndReversed_Space. exact Hw.
Qed.

(** Induction on the length of a text: the functions above consume up to
    three bytes at a time. *)
Lemma list_ind3 {A : Type} (P : list A -> Prop) :
  (forall s, (forall r, (List.length r < List.length s)%nat -> P r) -> P s) ->
  forall s, P s.
Proof.
  intros H s.
  assert (G : forall n r, (List.length r < n)%nat -> P r).
  { induction n as [| n IH]; intros r Hr; [lia |].
    apply H. intros r' Hr'. apply IH. lia. }
  apply (G (S (List.length s))). lia.
Qed.

Lemma trimStart_cases s :
  (trimStart s = s /\ startsWithSpace s = false)
  \/ (exists w r, Space w /\ s = (w ++ r)%list /\ trimStart s = trimStart r).
Proof.
  destruct s as [| c1 r1]; [left; split; reflexivity |].
  simpl. destruct (whiteSpace1 c1) eqn:E1.
  { right. exists [c1], r1. repeat apply conj; try reflexivity. constructor. exact E1. }
  destruct r1 as [| c2 r2]; [left; split; reflexivity |].
  destruct (whiteSpace2 c1 c2) eqn:E2.
  { right. exists [c1; c2], r2. repeat apply conj; try reflexivity. constructor. exact E2. }
  destruct r2 as [| c3 r3]; [left; split; reflexivity |].
  destruct (whiteSpace3 c1 c2 c3) eqn:E3.
  { right. exists [c1; c2; c3], r3. repeat apply conj; try reflexivity.
    constructor. exact E3. }
  left. split; reflexivity.
Qed.

Lemma trimEndReversed_cases s :
  (trimEndReversed s = s /\ endsWithSpace (rev s) = false)
  \/ (exists w r, Space w /\ s = (rev w ++ r)%list
                  /\ trimEndReversed s = trimEndReversed r).
Proof.
  unfold endsWithSpace. rewrite rev_involutive.
  destruct s as [| c1 r1]; [left; split; reflexivity |].
  simpl. destruct (whiteSpace1 c1) eqn:E1.
  { right. exists [c1], r1. repeat apply conj; try reflexivity. constructor. exact E1. }
  destruct r1 as [| c2 r2]; [left; split; reflexivity |].
  destruct (whiteSpace2 c2 c1) eqn:E2.
  { right. exists [c2; c1], r2. repeat apply conj; try reflexivity. constructor. exact E2. }
  destruct r2 as [| c3 r3]; [left; split; reflexivity |].
  destruct (whiteSpace3 c3 c2 c1) eqn:E3.
  { right. exists [c3; c2; c1], r3. repeat apply conj; try reflexivity.
    constructor. exact E3. }
  left. split; reflexivity.
Qed.

Lemma Space_length w : Space w -> (0 < List.length w)%nat.
Proof. intros [c H | c1 c2 H | c1 c2 c3 H]; simpl; lia. Qed.

Lemma trimStart_split s :
  exists p, Spaces p /\ s = (p ++ trimStart s)%list
            /\ startsWithSpace (trimStart s) = false.
Proof.
  induction s as [s IH] using list_ind3.
  destruct (trimStart_cases s) as [(E & Hs) | (w & r & Hw & -> & E)].
  - exists []. rewrite E. repeat apply conj; [constructor | reflexivity | exact Hs].
  - destruct (IH r) as (p & Hp & Er & Hs).
    { rewrite length_app. pose proof (Space_length w Hw). lia. }
    exists (w ++ p)%list. rewrite E. repeat apply conj.
    + constructor; assumption.
    + rewrite <- app_assoc. f_equal. exact Er.
    + exact Hs.
Qed.

Lemma trimEndReversed_split s :
  exists p, Spaces p /\ s = (rev p ++ trimEndReversed s)%list
            /\ endsWithSpace (rev (trimEndReversed s)) = false.
Proof.
  induction s as [s IH] using list_ind3.
  destruct (trimEndReversed_cases s) as [(E & Hs) | (w & r & Hw & -> & E)].
  - exists []. rewrite E. repeat apply conj; [constructor | reflexivity | exact Hs].
  - destruct (IH r) as (p & Hp & Er & Hs).
    { rewrite length_app, length_rev. pose proof (Space_length w Hw). lia. }
    exists (p ++ w)%list. rewrite E. repeat apply conj.
    + clear - Hp Hw. induction Hp as [| w' p' Hw' Hp' IHp]; simpl.
      * rewrite <- (app_nil_r w). constructor; [exact Hw | constructor].
      * rewrite <- app_assoc. constructor; assumption.
    + rewrite rev_app_distr, <- app_assoc. f_equal. exact Er.
    + exact Hs.
Qed.

Lemma startsWithSpace_false_trimStart s :
  startsWithSpace s = false -> trimStart s = s.
Proof.
  intros H. destruct (trimStart_cases s) as [(E & _) | (w & r & Hw & -> & E)];
    [exact E |].
  exfalso. revert H. clear E.
  destruct Hw as [c H | c1 c2 H | c1 c2 c3 H]; simpl.
  - rewrite H. discriminate.
  - rewrite H, orb_true_r. discriminate.
  - rewrite H, !orb_true_r. discriminate.
Qed.

Lemma endsWithSpace_false_trimEndReversed s :
  endsWithSpace s = false -> trimEndReversed (rev s) = rev s.
Proof.
  intros H.
  destruct (trimEndReversed_cases (rev s)) as [(E & _) | (w & r & Hw & Es & E)];
    [exact E |].
  exfalso. revert H. clear E. unfold endsWithSpace. rewrite Es.
  destruct Hw as [c H | c1 c2 H | c1 c2 c3 H]; simpl.
  - rewrite H. discriminate.
  - rewrite H, orb_true_r. discriminate.
  - rewrite H, !orb_true_r. discriminate.
Qed.

Lemma blank_Spaces s : blank s = true <-> Spaces s.
Proof.
  unfold blank. split.
  - intros H. destruct (trimStart_split s) as (p & Hp & E & _).
    destruct (trimStart s); [| discriminate].
    rewrite app_nil_r in E. subst. exact Hp.
  - intros H. rewrite <- (app_nil_r s), trimStart_Spaces by exact H. reflexivity.
Qed.

Lemma trim_nil_blank s : trim s = [] <-> blank s = true.
Proof.
  unfold trim, trimEnd. split.
  - intros H. apply (f_equal (@rev ascii)) in H. rewrite rev_involutive in H.
    simpl in H.
    destruct (trimEndReversed_split (rev (trimStart s))) as (p & Hp & E & _).
    rewrite H, app_nil_r in E. apply (f_equal (@rev ascii)) in E.
    rewrite !rev_involutive in E.
    destruct (trimStart_split s) as (q & Hq & Es & Hs).
    rewrite E in Hs.
    assert (Ep : p = []).
    { destruct Hp as [| w p' Hw Hp']; [reflexivity |]. exfalso. revert Hs.
      destruct Hw as [c H1 | c1 c2 H1 | c1 c2 c3 H1]; simpl.
      - rewrite H1. discriminate.
      - rewrite H1, orb_true_r. discriminate.
      - rewrite H1, !orb_true_r. discriminate. }
    unfold blank. rewrite E, Ep. reflexivity.
  - intros H. unfold blank in H. destruct (trimStart s); [reflexivity | discriminate].
Qed.

Lemma trimEndReversed_head r c r' :
  trimEndReversed r = c :: r' -> whiteSpace1 c = false.
Proof.
  intros E.
  destruct (trimEndReversed_split r) as (_ & _ & _ & H).
  rewrite E in H. unfold endsWithSpace in H. rewrite rev_involutive in H.
  apply orb_false_elim in H. exact (proj1 H).
Qed.

Lemma splitLines_not_nil s : splitLines s <> [].
Proof.
  destruct s as [| c r]; simpl; [discriminate |].
  destruct (Ascii.eqb c "010"); [discriminate |].
  destruct (splitLines r); discriminate.
Qed.

Lemma splitLines_no_line_feed s :
  Forall (fun l => ~ In lineFeed l) (splitLines s).
Proof.
  induction s as [| c r IH]; simpl.
  - constructor; [intros [] | constructor].
  - destruct (Ascii.eqb_spec c "010") as [-> | Hc].
    + constructor; [intros [] | exact IH].
    + destruct (splitLines r) as [| l ls].
      * constructor; [| constructor]. intros [E | []]. apply Hc. exact E.
      * inversion IH as [| ? ? Hl Hls]; subst.
        constructor; [| exact Hls].
        intros [E | Hin]; [apply Hc; exact E | apply Hl; exact Hin].
Qed.

Lemma last_cons_not_nil {A : Type} (x : A) (l : list A) (d : A) :
  l <> [] -> last (x :: l) d = last l d.
Proof. destruct l; [contradiction | reflexivity]. Qed.

Lemma last_splitLines_after_line_feed p l :
  last (splitLines (p ++ lineFeed :: l)) [] = last (splitLines l) [].
Proof.
  induction p as [| c p IH].
  - simpl. apply last_cons_not_nil. apply splitLines_not_nil.
  - change ((c :: p) ++ lineFeed :: l)%list with (c :: (p ++ lineFeed :: l))%list.
    simpl. destruct (Ascii.eqb c "010").
    + rewrite last_cons_not_nil by apply splitLines_not_nil. exact IH.
    + destruct (splitLines (p ++ lineFeed :: l)) as [| l0 [| l1 ls]] eqn:E.
      * exfalso. exact (splitLines_not_nil _ E).
      * exfalso.
        assert (Hlen : (2 <= List.length (splitLines (p ++ lineFeed :: l)))%nat).
        { clear. induction p as [| c p IHp]; simpl.
          - pose proof (splitLines_not_nil l). destruct (splitLines l); [contradiction | simpl; lia].
          - destruct (Ascii.eqb c "010"); simpl; [lia |].
            destruct (splitLines (p ++ lineFeed :: l)); simpl in *; lia. }
        rewrite E in Hlen. simpl in Hlen. lia.
      * exact IH.
Qed.

Lemma splitLines_one_line l : ~ In lineFeed l -> splitLines l = [l].
Proof.
  induction l as [| c r IH]; intros H; [reflexivity |].
  simpl. destruct (Ascii.eqb_spec c "010") as [-> | Hc].
  - exfalso. apply H. left. reflexivity.
  - rewrite IH; [reflexivity |]. intros Hin. apply H. right. exact Hin.
Qed.

Lemma last_splitLines_nil t :
  last (splitLines t) [] = [] -> t = [] \/ exists t', t = (t' ++ [lineFeed])%list.
Proof.
  induction t as [| c r IH]; intros H; [left; reflexivity |].
  right. simpl in H.
  destruct (Ascii.eqb_spec c "010") as [-> | Hc].
  - rewrite last_cons_not_nil in H by apply splitLines_not_nil.
    destruct (IH H) as [-> | (t' & ->)].
    + exists []. reflexivity.
    + exists (lineFeed :: t'). reflexivity.
  - destruct (splitLines r) as [| l [| l' ls]] eqn:E.
    + discriminate.
    + discriminate.
    + destruct (IH H) as [-> | (t' & ->)]; [discriminate |].
      exists (c :: t'). reflexivity.
Qed.

Lemma string_of_list_ascii_nil l : string_of_list_ascii l = "" -> l = [].
Proof. destruct l; [reflexivity | discriminate]. Qed.

Lemma startsWithSpace_app line z :
  startsWithSpace line = false -> line <> [] ->
  (z = [] \/ exists c r, z = c :: r /\ startsCharacter c = true) ->
  startsWithSpace (line ++ z) = false.
Proof.
  intros H Hne [-> | (c & r & -> & Hc)]; [rewrite app_nil_r; exact H |].
  destruct line as [| c1 [| c2 [| c3 r3]]]; [contradiction | | |]; simpl in *.
  - apply orb_false_elim in H. destruct H as (H1 & _). rewrite H1. simpl.
    rewrite whiteSpace2_second by exact Hc. simpl.
    destruct r as [| c' r']; [reflexivity |].
    apply whiteSpace3_later. left. exact Hc.
  - apply orb_false_elim in H. destruct H as (H1 & H2).
    apply orb_false_elim in H2. destruct H2 as (H2 & _).
    rewrite H1, H2. simpl. apply whiteSpace3_later. right. exact Hc.
  - exact H.
Qed.

Lemma endsWithSpace_app line pre :
  endsWithSpace line = false -> line <> [] ->
  (pre = [] \/ exists p c, pre = (p ++ [c])%list /\ (N_of_ascii c < 128)%N) ->
  endsWithSpace (pre ++ line) = false.
Proof.
  intros H Hne [-> | (p & c & -> & Hc)]; [exact H |].
  unfold endsWithSpace in *. rewrite !rev_app_distr. simpl.
  assert (Hr : rev line <> []).
  { intros E. apply Hne. apply (f_equal (@rev ascii)) in E.
    rewrite rev_involutive in E. exact E. }
  destruct (rev line) as [| c1 [| c2 [| c3 r3]]]; [contradiction | | |]; simpl in *.
  - apply orb_false_elim in H. destruct H as (H1 & _). rewrite H1. simpl.
    rewrite whiteSpace2_not_ascii by (left; exact Hc). simpl.
    destruct (rev p) as [| c' r']; [reflexivity |].
    apply whiteSpace3_not_ascii. right. left. exact Hc.
  - apply orb_false_elim in H. destruct H as (H1 & H2).
    apply orb_false_elim in H2. destruct H2 as (H2 & _).
    rewrite H1, H2. simpl. apply whiteSpace3_not_ascii. left. exact Hc.
  - exact H.
Qed.

Lemma lineFeed_ascii : (N_of_ascii lineFeed < 128)%N.
Proof. vm_compute. reflexivity. Qed.

Lemma trimStart_before_line_feed noise rest :
  trimStart (noise ++ lineFeed :: rest) = trimStart rest
  \/ exists n', trimStart (noise ++ lineFeed :: rest) = (n' ++ lineFeed :: rest)%list.
Proof.
  induction noise as [noise IH] using list_ind3.
  destruct noise as [| c1 r1]; [left; reflexivity |].
  change ((c1 :: r1) ++ lineFeed :: rest)%list with (c1 :: (r1 ++ lineFeed :: rest))%list.
  cbn [trimStart].
  destruct (whiteSpace1 c1).
  { apply IH. simpl. lia. }
  destruct r1 as [| c2 r2].
  { cbn [app]. rewrite whiteSpace2_not_ascii by (right; exact lineFeed_ascii).
    destruct rest as [| c3 r3]; [right; exists [c1]; reflexivity |].
    rewrite whiteSpace3_not_ascii by (right; left; exact lineFeed_ascii).
    right. exists [c1]. reflexivity. }
  change ((c2 :: r2) ++ lineFeed :: rest)%list with (c2 :: (r2 ++ lineFeed :: rest))%list.
  cbv iota beta.
  destruct (whiteSpace2 c1 c2).
  { apply IH. simpl. lia. }
  destruct r2 as [| c3 r3].
  { cbn [app]. rewrite whiteSpace3_not_ascii by (right; right; exact lineFeed_ascii).
    right. exists [c1; c2]. reflexivity. }
  change ((c3 :: r3) ++ lineFeed :: rest)%list with (c3 :: (r3 ++ lineFeed :: rest))%list.
  cbv iota beta.
  destruct (whiteSpace3 c1 c2 c3).
  { apply IH. simpl. lia. }
  right. exists (c1 :: c2 :: c3 :: r3). reflexivity.
Qed.

(** X11: the line handed to [JSON.parse] holds no line feed, and it is
    empty exactly when the output of the child is white space only: any
    run of the characters that [trim] removes, NO-BREAK SPACE and the byte
    order mark among them. *)
Theorem lastLine_shape (outputData : string) :
  ~ In lineFeed (list_ascii_of_string (lastLine outputData))
  /\ (lastLine outputData = ""
      <-> blank (list_ascii_of_string outputData) = true).
Proof.
  unfold lastLine. rewrite list_ascii_of_string_of_list_ascii.
  set (t := trim (list_ascii_of_string outputData)).
  split.
  - pose proof (splitLines_no_line_feed t) as H.
    rewrite Forall_forall in H. apply H.
    pose proof (splitLines_not_nil t) as Hn.
    destruct (exists_last Hn) as (ls & l & ->).
    rewrite last_last. apply in_or_app. right. left. reflexivity.
  - split.
    + intros H. apply string_of_list_ascii_nil in H.
      apply trim_nil_blank. fold t.
      destruct (last_splitLines_nil t H) as [E | (t' & E)]; [exact E |].
      exfalso.
      assert (Hr : trimEndReversed (rev (trimStart (list_ascii_of_string outputData)))
                   = lineFeed :: rev t').
      { rewrite <- (rev_involutive (trimEndReversed _)).
        fold (trimEnd (trimStart (list_ascii_of_string outputData))).
        fold (trim (list_ascii_of_string outputData)). fold t.
        rewrite E, rev_app_distr. reflexivity. }
      apply trimEndReversed_head in Hr. discriminate Hr.
    + intros H. apply trim_nil_blank in H. subst t. rewrite H. reflexivity.
Qed.

(** X12: diagnostics before the result are skipped.  When the output ends
    with a non-empty line that neither starts nor ends with white space,
    followed by white space only, that line is what [JSON.parse] receives,
    whatever lines come before it. *)
Theorem lastLine_skips_diagnostics (line tail : list ascii) :
  line <> [] ->
  startsWithSpace line = false ->
  endsWithSpace line = false ->
  ~ In lineFeed line ->
  blank tail = true ->
  lastLine (string_of_list_ascii (line ++ tail)) = string_of_list_ascii line
  /\ forall noise,
       lastLine (string_of_list_ascii (noise ++ lineFeed :: line ++ tail))
       = string_of_list_ascii line.
Proof.
  intros Hne Hs He Hn Ht.
  apply blank_Spaces in Ht.
  assert (Hstart : trimStart (line ++ tail) = (line ++ tail)%list).
  { apply startsWithSpace_false_trimStart.
    apply startsWithSpace_app; [exact Hs | exact Hne |].
    destruct (Spaces_starts tail Ht) as [E | E]; [left | right]; exact E. }
  assert (Hend : forall pre,
             (pre = [] \/ exists p c, pre = (p ++ [c])%list /\ (N_of_ascii c < 128)%N) ->
             trimEnd (pre ++ line ++ tail) = (pre ++ line)%list).
  { intros pre Hpre. unfold trimEnd.
    rewrite app_assoc, rev_app_distr.
    rewrite trimEndReversed_Spaces by exact Ht.
    rewrite endsWithSpace_false_trimEndReversed.
    - apply rev_involutive.
    - apply endsWithSpace_app; assumption. }
  assert (Hend0 : trimEnd (line ++ tail) = line).
  { exact (Hend [] (or_introl eq_refl)). }
  assert (Hone : last (splitLines line) [] = line).
  { rewrite splitLines_one_line by exact Hn. reflexivity. }
  split.
  - unfold lastLine. rewrite list_ascii_of_string_of_list_ascii.
    unfold trim. rewrite Hstart, Hend0, Hone. reflexivity.
  - intros noise.
    unfold lastLine. rewrite list_ascii_of_string_of_list_ascii.
    unfold trim.
    destruct (trimStart_before_line_feed noise (line ++ tail)) as [E | (n' & E)];
      rewrite E.
    + rewrite Hstart, Hend0, Hone. reflexivity.
    + replace (n' ++ lineFeed :: line ++ tail)%list
        with ((n' ++ [lineFeed]) ++ line ++ tail)%list
        by (rewrite <- app_assoc; reflexivity).
      rewrite Hend.
      2:{ right. exists n', lineFeed. split; [reflexivity | exact lineFeed_ascii]. }
      rewrite <- app_assoc. cbn [app].
      rewrite last_splitLines_after_line_feed. rewrite Hone. reflexivity.
Qed.

Lemma lastLine_skips_diagnostics_witness :
  lastLine (string_of_list_ascii
              (list_ascii_of_string "Loading model"
               ++ lineFeed :: list_ascii_of_string "{}"
               ++ ["194"%char; "160"%char; lineFeed])%list)
  = "{}".
Proof.
  assert (N : ~ In lineFeed (list_ascii_of_string "{}")).
  { simpl. intros [H | [H | []]]; discriminate H. }
  assert (E : list_ascii_of_string "{}" <> []) by discriminate.
  exact (proj2 (lastLine_skips_diagnostics (list_ascii_of_string "{}")
                  ["194"%char; "160"%char; lineFeed]
                  E eq_refl eq_refl N eq_refl)
           (list_ascii_of_string "Loading model")).
Defined.

(** * The fallback pricing engine: further properties *)

(** X13: [getCurrentSeason] by calendar month, [getMonth] counting from 0:
    March to May are "Spring", June to August "Summer", September to
    November "Autumn", December to February "Winter"; no other value is
    returned. *)
Theorem getCurrentSeason_by_calendar_month (now : JsDate.t) :
  getCurrentSeason now
  = nth (Z.to_nat (JsDate.getMonth now)) seasonsByMonth "Winter"
  /\ In (getCurrentSeason now) ["Spring"; "Summer"; "Autumn"; "Winter"].
Proof.
  unfold getCurrentSeason.
  set (m := JsDate.getMonth now).
  assert (Hm : (m < 0 \/ m = 0 \/ m = 1 \/ m = 2 \/ m = 3 \/ m = 4 \/ m = 5 \/ m = 6
                \/ m = 7 \/ m = 8 \/ m = 9 \/ m = 10 \/ m = 11 \/ 11 < m)%Z) by lia.
  cbv zeta.
  repeat (destruct Hm as [Hm | Hm]); try (rewrite Hm; simpl; tauto).
  - assert (E1 : (3 <=? m + 1)%Z = false) by lia.
    assert (E2 : (6 <=? m + 1)%Z = false) by lia.
    assert (E3 : (9 <=? m + 1)%Z = false) by lia.
    assert (E0 : Z.to_nat m = 0%nat) by lia.
    rewrite E1, E2, E3, E0. simpl. tauto.
  - assert (E1 : ((3 <=? m + 1) && (m + 1 <=? 5))%Z = false) by lia.
    assert (E2 : ((6 <=? m + 1) && (m + 1 <=? 8))%Z = false) by lia.
    assert (E3 : ((9 <=? m + 1) && (m + 1 <=? 11))%Z = false) by lia.
    rewrite E1, E2, E3. split; [| simpl; tauto].
    assert (Hn : (12 <= Z.to_nat m)%nat) by lia.
    rewrite nth_overflow; [reflexivity | exact Hn].
Qed.

Lemma priceRules_reason (demandScore stockLevel daysLeft : float) :
  snd (priceRules demandScore stockLevel daysLeft)
  = if daysLeft <=? 2 then "Product nearing expiry - urgent price reduction"
    else if daysLeft <=? 5
      then "Product nearing expiry - price reduction to clear stock"
    else if stockLevel <? 50
      then "Low stock levels - price increase to manage demand"
    else if 200 <? stockLevel
      then "High inventory levels - price reduction to clear stock"
    else if 70 <? demandScore
      then "High demand detected - price increase recommended"
    else if demandScore <? 30
      then "Low demand - price reduction to boost sales"
    else "Current price is optimal".
Proof.
  unfold priceRules, expiryAdjustment, stockAdjustment, demandAdjustment,
    initialRuleState.
  destruct (70 <? demandScore), (demandScore <? 30),
    (stockLevel <? 50), (200 <? stockLevel),
    (daysLeft <=? 2), (daysLeft <=? 5); reflexivity.
Qed.

(** X14: the reason of a fallback recommendation is the one of the last
    rule that fired on the product's fields (or their defaults): an expiry
    rule overrides the stock rules, which override the demand rules;
    "Current price is optimal" is left only when none fired. *)
Theorem price_rules_reason_precedence (now : JsDate.t) (p : Product.t) :
  let stockLevel := or_default (Product.stock_level p) 100 in
  let demandScore := or_default (Product.demand_score p) 50 in
  let daysLeft := or_default (Product.days_left p) 7 in
  PriceRecommendation.recommendation_reason (fallbackRecommendation now p)
  = if daysLeft <=? 2 then "Product nearing expiry - urgent price reduction"
    else if daysLeft <=? 5
      then "Product nearing expiry - price reduction to clear stock"
    else if stockLevel <? 50
      then "Low stock levels - price increase to manage demand"
    else if 200 <? stockLevel
      then "High inventory levels - price reduction to clear stock"
    else if 70 <? demandScore
      then "High demand detected - price increase recommended"
    else if demandScore <? 30
      then "Low demand - price reduction to boost sales"
    else "Current price is optimal".
Proof.
  intros stockLevel demandScore daysLeft.
  rewrite <- priceRules_reason.
  unfold fallbackRecommendation. cbv zeta.
  fold stockLevel demandScore daysLeft.
  destruct (priceRules demandScore stockLevel daysLeft) as [m reason].
  reflexivity.
Qed.

(** X15: whatever the inputs ([NaN] and the infinities included), the
    price multiplier lies between 0.737 and 1.082, and it is 1 exactly
    when the reason is "Current price is optimal". *)
Theorem price_multiplier_range (demandScore stockLevel daysLeft : float) :
  let (priceMultiplier, reason) := priceRules demandScore stockLevel daysLeft in
  (0.737 <=? priceMultiplier) = true
  /\ (priceMultiplier <=? 1.082) = true
  /\ (priceMultiplier =? 1) = String.eqb reason "Current price is optimal".
Proof.
  unfold priceRules, expiryAdjustment, stockAdjustment, demandAdjustment,
    initialRuleState.
  destruct (70 <? demandScore), (demandScore <? 30),
    (stockLevel <? 50), (200 <? stockLevel),
    (daysLeft <=? 2), (daysLeft <=? 5);
    vm_compute; repeat split.
Qed.

Lemma or_string_idem v d d' :
  or_string v d <> "" -> or_string (Some (or_string v d)) d' = or_string v d.
Proof.
  intros H. unfold or_string at 1.
  destruct (String.eqb_spec (or_string v d) ""); [contradiction | reflexivity].
Qed.

(** X16: the date context is fixed on arrival.  A fallback that runs later
    on the enriched products reports the season (and the weekday, when the
    clock names one) computed when the request arrived, not its own; the
    enrichment does not change prices, percentages or reasons. *)
Theorem fallback_keeps_request_season (arrival later : JsDate.t) (p : Product.t) :
  let r := fallbackRecommendation later (Pricing.enrich arrival p) in
  let r0 := fallbackRecommendation later p in
  PriceRecommendation.season r
  = or_string (Product.season p) (getCurrentSeason arrival)
  /\ (JsDate.weekdayLong arrival <> "" ->
      PriceRecommendation.weekday r
      = or_string (Product.weekday p) (JsDate.weekdayLong arrival))
  /\ PriceRecommendation.recommended_price r = PriceRecommendation.recommended_price r0
  /\ PriceRecommendation.price_change_percentage r
     = PriceRecommendation.price_change_percentage r0
  /\ PriceRecommendation.recommendation_reason r
     = PriceRecommendation.recommendation_reason r0
  /\ Product.season (Pricing.enrich later (Pricing.enrich arrival p))
     = Product.season (Pricing.enrich arrival p).
Proof.
  intros r r0. subst r r0. unfold fallbackRecommendation.
  change (Product.current_price (Pricing.enrich arrival p)) with (Product.current_price p).
  change (Product.stock_level (Pricing.enrich arrival p)) with (Product.stock_level p).
  change (Product.demand_score (Pricing.enrich arrival p)) with (Product.demand_score p).
  change (Product.days_left (Pricing.enrich arrival p)) with (Product.days_left p).
  cbv zeta.
  destruct (priceRules _ _ _) as [m reason]. simpl.
  assert (Hs : or_string (Some (or_string (Product.season p) (getCurrentSeason arrival)))
                 (getCurrentSeason later)
               = or_string (Product.season p) (getCurrentSeason arrival)).
  { apply or_string_idem. apply or_string_not_empty, getCurrentSeason_not_empty. }
  repeat apply conj; try reflexivity.
  - exact Hs.
  - intros Hw. apply or_string_idem. apply or_string_not_empty. exact Hw.
  - f_equal. exact Hs.
Qed.

(** * The seeding scripts: properties *)





Lemma find_values_none id m :
  Forall (fun entry => SeedProduct.product_id (snd entry) = fst entry) m ->
  SeedProducts.has id m = false ->
  find (hasId id) (SeedProducts.values m) = None.
Proof.
  intros Hf Hh. induction m as [| e m IH]; [reflexivity |].
  inversion Hf as [| ? ? He Hm]; subst.
  simpl in *. apply orb_false_elim in Hh. destruct Hh as (H1 & H2).
  unfold hasId at 1. rewrite He, H1. apply IH; assumption.
Qed.






Lemma add_spec city citySet x :
  In x (SeedCities.add city citySet) <-> In x citySet \/ x = city.
Proof.
  unfold SeedCities.add.
  destruct (existsb (String.eqb city) citySet) eqn:E.
  - split; [auto |]. intros [H | ->]; [exact H |].
    apply existsb_exists in E. destruct E as (y & Hy & Ey).
    apply String.eqb_eq in Ey. subst. exact Hy.
  - rewrite in_app_iff. simpl. split.
    + intros [H | [H | []]]; auto.
    + intros [H | ->]; auto.
Qed.

Lemma add_NoDup city citySet : NoDup citySet -> NoDup (SeedCities.add city citySet).
Proof.
  intros H. unfold SeedCities.add.
  destruct (existsb (String.eqb city) citySet) eqn:E; [exact H |].
  apply NoDup_app; repeat apply conj.
  - exact H.
  - constructor; [intros [] | constructor].
  - intros x Hin [<- | []].
    assert (existsb (String.eqb city) citySet = true); [| congruence].
    apply existsb_exists. exists city. split; [exact Hin | apply String.eqb_refl].
Qed.

Lemma city_fold rows :
  forall s, NoDup s -> ~ In "" s ->
    let s' := fold_left SeedCities.onData rows s in
    NoDup s' /\ ~ In "" s'
    /\ forall x, In x s' <-> In x s \/ (x <> "" /\ existsb (namesCity x) rows = true).
Proof.
  induction rows as [| row rows IH]; intros s Hn He; cbv zeta.
  { simpl. repeat apply conj; try assumption.
    intros x. split; [auto |]. intros [H | (_ & H)]; [exact H | discriminate]. }
  simpl.
  assert (Hstep : NoDup (SeedCities.onData s row) /\ ~ In "" (SeedCities.onData s row)
                  /\ forall x, In x (SeedCities.onData s row)
                               <-> In x s \/ (x <> "" /\ namesCity x row = true)).
  { unfold SeedCities.onData, namesCity.
    destruct (option_map trimText (Row.city row)) as [c |].
    - destruct (String.eqb_spec c "") as [-> | Hc].
      + repeat apply conj; try assumption. intros x. split; [auto |].
        intros [H | (Hx & H)]; [exact H |].
        apply String.eqb_eq in H. congruence.
      + repeat apply conj.
        * apply add_NoDup. exact Hn.
        * rewrite add_spec. intros [H | H]; [auto | congruence].
        * intros x. rewrite add_spec. split.
          -- intros [H | ->]; [auto |]. right. split; [exact Hc | apply String.eqb_refl].
          -- intros [H | (_ & H)]; [auto |]. right. apply String.eqb_eq in H. auto.
    - repeat apply conj; try assumption. intros x. split; [auto |].
      intros [H | (_ & H)]; [exact H | discriminate]. }
  destruct Hstep as (Hn1 & He1 & Hi1).
  destruct (IH _ Hn1 He1) as (Hn2 & He2 & Hi2).
  repeat apply conj; try assumption.
  intros x. rewrite Hi2, Hi1. split.
  - intros [[H | (Hx & H)] | (Hx & H)]; auto.
    + right. split; [exact Hx |]. rewrite H. reflexivity.
    + right. split; [exact Hx |]. rewrite H. apply orb_true_r.
  - intros [H | (Hx & H)]; auto.
    apply orb_prop in H. destruct H as [H | H]; auto.
Qed.

(** X18: the cities that [seedCities] upserts have distinct, non-empty
    names, all are active, and they are exactly the non-empty trimmed
    [city] texts of the rows. *)
Theorem seed_cities_are_distinct_and_active (rows : list Row.t) :
  NoDup (map SeedCity.name (SeedCities.cities rows))
  /\ Forall (fun c => SeedCity.name c <> "" /\ SeedCity.is_active c = true)
       (SeedCities.cities rows)
  /\ forall cityName,
       In cityName (map SeedCity.name (SeedCities.cities rows))
       <-> cityName <> "" /\ existsb (namesCity cityName) rows = true.
Proof.
  destruct (city_fold rows [] (NoDup_nil _) (fun H => H)) as (Hn & He & Hi).
  assert (Hnames : map SeedCity.name (SeedCities.cities rows)
                   = fold_left SeedCities.onData rows []).
  { unfold SeedCities.cities. rewrite map_map. simpl. apply map_id. }
  repeat apply conj.
  - rewrite Hnames. exact Hn.
  - unfold SeedCities.cities. rewrite Forall_map. simpl.
    apply Forall_forall. intros x Hin. split; [| reflexivity].
    intros ->. apply He. exact Hin.
  - intros cityName. rewrite Hnames, Hi. simpl. tauto.
Qed.
